(** * The quantum-inspired portfolio optimizer

    A shallow embedding of [src/services/quantum/optimizer.ts] (class
    [QuantumOptimizer]) and of the interfaces it uses, followed by what can
    be proved of it.

    - A JavaScript [number] is an IEEE 754 binary64 value: Rocq's primitive
      [float], whose operations round exactly as the engine's do.  [NaN],
      the infinities and the two zeros are therefore the real ones.
    - The particle count, the iteration cap and the loop counter are
      numbers like the others: [Array(n)] decides whether a count is a
      length, and [iteration++] adds 1 in binary64.
    - A read past the end of an array yields [undefined]; used as a number
      it is [NaN], used as an object it raises [TypeError].
    - [Math.cos], [Math.sin], [Math.random] and the remainder operator are
      supplied by the host; the theorems hold for every host.
    - The optimizer object, the context object it is handed and the random
      source live in one [World], threaded through a state-and-exception
      monad; a promise that rejects is a computation that throws.

    The file has two parts: the definitions (the embedding, the formulas of
    the specification it is compared with, the preconditions, the concrete
    inputs), then the lemmas and theorems. *)

From Stdlib Require Import ZArith List Bool Lia.
From Stdlib Require String.
From Stdlib Require Import Floats.
From Stdlib Require Uint63.
Import ListNotations.

Set Warnings "-inexact-float".

(** ** JavaScript numbers *)

Module Js.

Local Open Scope float_scope.

Abbreviation number := float (only parsing).

(** [a > b] *)
Definition gt (a b : number) : bool := b <? a.

(** [a < b] *)
Definition lt (a b : number) : bool := a <? b.

(** A number is falsy when it is [+0], [-0] or [NaN]. *)
Definition truthy (x : number) : bool := negb (PrimFloat.is_zero x || PrimFloat.is_nan x).

Definition Math_PI : number := 3.141592653589793.

Definition Math_abs (x : number) : number := PrimFloat.abs x.

Definition Math_sqrt (x : number) : number := PrimFloat.sqrt x.

(** [Math.min]: [NaN] if either argument is, and [-0] below [+0]. *)
Definition Math_min (a b : number) : number :=
  if is_nan a || is_nan b then nan
  else if a <? b then a
  else if b <? a then b
  else if get_sign a then a else b.

(** [Math.max]: [NaN] if either argument is, and [+0] above [-0]. *)
Definition Math_max (a b : number) : number :=
  if is_nan a || is_nan b then nan
  else if b <? a then a
  else if a <? b then b
  else if get_sign a then b else a.

(** [x ** 2], computed as the product [x * x]. *)
Definition sq (x : number) : number := x * x.

(** An array length as a number (exact: lengths are below 2^32). *)
Definition of_nat (n : nat) : number := PrimFloat.of_uint63 (Uint63.of_Z (Z.of_nat n)).

(** [arr[j]] in a numeric position: [undefined] becomes [NaN]. *)
Definition get (arr : list number) (j : nat) : number := nth j arr nan.

End Js.

Import Js.

(** ** Exceptions *)

Inductive JsError : Type :=
| TypeError
| RangeError.

(** The outcome of a computation: a value, a thrown exception, or a loop
    that has not ended within the passes it was allowed. *)
Inductive outcome (A : Type) : Type :=
| Ok (a : A)
| Throw (e : JsError)
| NoFuel.

Arguments Ok {A} a.
Arguments Throw {A} e.
Arguments NoFuel {A}.

Definition obind {A B : Type} (r : outcome A) (k : A -> outcome B) : outcome B :=
  match r with
  | Ok a => k a
  | Throw e => Throw e
  | NoFuel => NoFuel
  end.

Declare Scope js_scope.
Delimit Scope js_scope with js.

Notation "x <-? r ;; k" := (obind r (fun x => k))
  (at level 61, r at next level, right associativity) : js_scope.

Local Open Scope js_scope.

(** [arr[i]] where the element is then used as an object: reading a property
    of [undefined] throws. *)
Definition get_obj {A : Type} (arr : list A) (i : nat) : outcome A :=
  match nth_error arr i with
  | Some x => Ok x
  | None => Throw TypeError
  end.

(** [arr.reduce(f, init)], the callback receiving the index too. *)
Fixpoint reduce_from {A Acc : Type} (f : Acc -> A -> nat -> outcome Acc)
  (i : nat) (acc : Acc) (arr : list A) : outcome Acc :=
  match arr with
  | [] => Ok acc
  | x :: rest => acc' <-? f acc x i;; reduce_from f (S i) acc' rest
  end.

Definition reduce {A Acc : Type} (f : Acc -> A -> nat -> outcome Acc)
  (init : Acc) (arr : list A) : outcome Acc :=
  reduce_from f 0 init arr.

(** [arr.reduce((a, b) => a + b)] with no initial value: throws on [[]]. *)
Definition reduce_add (arr : list number) : outcome number :=
  match arr with
  | [] => Throw TypeError
  | x :: rest => Ok (fold_left PrimFloat.add rest x)
  end.

(** [arr.map(f)] where [f] may throw and receives the index. *)
Fixpoint map_from {A B : Type} (f : A -> nat -> outcome B) (i : nat) (arr : list A)
  : outcome (list B) :=
  match arr with
  | [] => Ok []
  | x :: rest =>
      y <-? f x i;;
      ys <-? map_from f (S i) rest;;
      Ok (y :: ys)
  end.

(** ** Data model ([types.ts], [trading.ts]) *)

Record Complex : Type := { real : number; imaginary : number }.

Record QuantumState : Type := { amplitude : Complex; phase : number }.

Record ParticleState : Type := {
  position : list number;
  velocity : list number;
  bestPosition : list number;
  bestFitness : number
}.

Record Asset : Type := {
  symbol : String.string;
  price : number;
  volume : number;
  asset_volatility : number
}.

Record RiskBudget : Type := {
  maxVolatility : number;
  maxDrawdown : number;
  minSharpeRatio : number
}.

Record OptimizationConstraints : Type := {
  riskTolerance : number;
  minAllocation : number;
  maxAllocation : number;
  minPositions : number;
  maxPositions : number;
  sectorDiversification : list (String.string * (number * number));
  riskBudget : RiskBudget
}.

Inductive RegimeType : Type := bull | bear | sideways | volatile.

Record MarketRegime : Type := {
  regime_type : RegimeType;
  regime_confidence : number;
  trendStrength : number;
  regime_volatility : number;
  momentum : number
}.

Record HistoricalData : Type := {
  returns : list (list number);
  volatility : list number;
  correlation : list (list number)
}.

Record OptimizationContext : Type := {
  assets : list Asset;
  constraints : OptimizationConstraints;
  marketRegime : MarketRegime;
  historicalData : HistoricalData
}.

Record Metrics : Type := {
  metrics_sharpeRatio : number;
  metrics_volatility : number;
  metrics_maxDrawdown : number
}.

Record OptimizationResult : Type := {
  allocation : list number;
  expectedReturn : number;
  confidence : number;
  metrics : Metrics
}.

(** The configuration the optimizer keeps. *)
Record QuantumConfig : Type := {
  particles : number;
  iterations : number;
  convergenceThreshold : number
}.

(** The object handed to the constructor: a property that is missing reads
    as [undefined], here [None]. *)
Record ConfigArg : Type := {
  arg_particles : option number;
  arg_iterations : option number;
  arg_convergenceThreshold : option number
}.

(** The fields of a [QuantumOptimizer] instance. *)
Record QuantumOptimizer : Type := {
  config : QuantumConfig;
  this_particles : list ParticleState;
  quantumStates : list (list QuantumState);
  globalBestPosition : list number;
  globalBestFitness : number
}.

(** ** The constructor *)

(** [x || d]: the default replaces [undefined], [+0], [-0] and [NaN]. *)
Definition or_default (x : option number) (d : number) : number :=
  match x with
  | Some v => if truthy v then v else d
  | None => d
  end.

Definition constructor (arg : ConfigArg) : QuantumOptimizer :=
  {| config :=
       {| particles := or_default (arg_particles arg) 100%float;
          iterations := or_default (arg_iterations arg) 1000%float;
          convergenceThreshold := or_default (arg_convergenceThreshold arg) 1e-6%float |};
     this_particles := [];
     quantumStates := [];
     globalBestPosition := [];
     globalBestFitness := neg_infinity |}.

(** ** The pure methods *)

Definition createComplex (re im : number) : Complex :=
  {| real := re; imaginary := im |}.

Definition clamp (value min max : number) : number :=
  Math_max min (Math_min max value).

Definition normalizeAllocation (allocation : list number) : list number :=
  let sum := fold_left PrimFloat.add allocation 0%float in
  map (fun value => (value / sum)%float) allocation.

Definition magnitude (c : Complex) : number :=
  Math_sqrt (sq (real c) + sq (imaginary c))%float.

Definition calculateExpectedReturn (allocation : list number) (returns : list (list number))
  : outcome number :=
  reduce (fun sum weight i =>
            row <-? get_obj returns i;;
            total <-? reduce_add row;;
            let assetReturn := (total / of_nat (length row))%float in
            Ok (sum + weight * assetReturn)%float)
         0%float allocation.

Definition calculatePortfolioVolatility (allocation volatility : list number)
  (correlation : list (list number)) : outcome number :=
  let n := List.length allocation in
  portfolioVariance <-?
    fold_left (fun acc i =>
      fold_left (fun acc j =>
        portfolioVariance <-? acc;;
        row <-? get_obj correlation i;;
        Ok (portfolioVariance +
            get allocation i * get allocation j * get volatility i * get volatility j
            * get row j)%float)
        (seq 0 n) acc)
      (seq 0 n) (Ok 0%float);;
  Ok (Math_sqrt portfolioVariance).

Definition calculateFitness (allocation : list number) (context : OptimizationContext)
  : outcome number :=
  let returns := returns (historicalData context) in
  let volatility := volatility (historicalData context) in
  let correlation := correlation (historicalData context) in
  let maxVolatility := maxVolatility (riskBudget (constraints context)) in
  let minSharpeRatio := minSharpeRatio (riskBudget (constraints context)) in
  expectedReturn <-? calculateExpectedReturn allocation returns;;
  portfolioVolatility <-? calculatePortfolioVolatility allocation volatility correlation;;
  let sharpeRatio := ((expectedReturn - 0.02) / portfolioVolatility)%float in
  let penalty := 0%float in
  let penalty :=
    if gt portfolioVolatility maxVolatility
    then (penalty + (portfolioVolatility - maxVolatility) * 100)%float
    else penalty in
  let penalty :=
    if lt sharpeRatio minSharpeRatio
    then (penalty + (minSharpeRatio - sharpeRatio) * 100)%float
    else penalty in
  Ok (sharpeRatio - penalty)%float.

Definition calculateMaxDrawdown (allocation : list number) (context : OptimizationContext)
  : outcome number :=
  let returns := returns (historicalData context) in
  first <-? get_obj returns 0;;
  portfolioReturns <-?
    map_from (fun _ timeIndex =>
      reduce (fun sum weight assetIndex =>
                row <-? get_obj returns assetIndex;;
                Ok (sum + weight * get row timeIndex)%float)
             0%float allocation)
      0 first;;
  let '(maxDrawdown, _) :=
    fold_left (fun '(maxDrawdown, peak) ret =>
      let peak := if gt ret peak then ret else peak in
      let drawdown := ((peak - ret) / peak)%float in
      let maxDrawdown := if gt drawdown maxDrawdown then drawdown else maxDrawdown in
      (maxDrawdown, peak))
      portfolioReturns (0%float, neg_infinity) in
  Ok maxDrawdown.

Definition calculateConfidence (quantumStates : list (list QuantumState)) : number :=
  let averageCoherence :=
    (fold_left (fun sum particleStates =>
       let particleCoherence :=
         (fold_left (fun pSum state => pSum + magnitude (amplitude state))
                    particleStates 0
          / of_nat (List.length particleStates))%float in
       (sum + particleCoherence)%float)
       quantumStates 0
     / of_nat (List.length quantumStates))%float in
  clamp averageCoherence 0%float 1%float.

(** The integer a number is, when it is one. *)
Definition integer_of (x : number) : option Z :=
  match Prim2SF x with
  | S754_zero _ => Some 0%Z
  | S754_finite s m e =>
      if (0 <=? e)%Z then Some (cond_Zopp s (Z.pos m * 2 ^ e))
      else if (Z.pos m mod 2 ^ (- e) =? 0)%Z
           then Some (cond_Zopp s (Z.pos m / 2 ^ (- e)))
           else None
  | S754_infinity _ | S754_nan => None
  end.

(** The length of the array [Array(n)] makes, when it makes one: [n] must
    be an integer in [0, 2^32). *)
Definition array_length (n : number) : option nat :=
  match integer_of n with
  | Some len =>
      if ((0 <=? len) && (len <? 2 ^ 32))%Z then Some (Z.to_nat len) else None
  | None => None
  end.

(** [Array(n)] for a number [n]. *)
Definition Array_ (n : number) : outcome nat :=
  match array_length n with
  | Some len => Ok len
  | None => Throw RangeError
  end.

(** ** The host and the world *)

(** What the engine supplies: [Math.cos] and [Math.sin] (which ECMAScript
    leaves implementation-approximated), the value of the [k]-th call of
    [Math.random], and the remainder operator [%]. *)
Record Host : Type := {
  Math_cos : number -> number;
  Math_sin : number -> number;
  Math_random_at : nat -> number;
  remainder : number -> number -> number
}.

(** The objects a call can reach: the context it is given, the optimizer
    itself, and how many random numbers have been drawn. *)
Record World : Type := {
  context : OptimizationContext;
  this : QuantumOptimizer;
  draws : nat
}.

Definition M (A : Type) : Type := World -> outcome (A * World).

Definition ret {A : Type} (a : A) : M A := fun w => Ok (a, w).

Definition bind {A B : Type} (m : M A) (k : A -> M B) : M B :=
  fun w =>
    match m w with
    | Ok (a, w') => k a w'
    | Throw e => Throw e
    | NoFuel => NoFuel
    end.

Notation "x <- m ;; k" := (bind m (fun x => k))
  (at level 61, m at next level, right associativity) : js_scope.

Definition lift {A : Type} (r : outcome A) : M A :=
  fun w =>
    match r with
    | Ok a => Ok (a, w)
    | Throw e => Throw e
    | NoFuel => NoFuel
    end.

Definition getContext : M OptimizationContext := fun w => Ok (context w, w).

Definition getThis : M QuantumOptimizer := fun w => Ok (this w, w).

Definition setThis (o : QuantumOptimizer) : M unit :=
  fun w => Ok (tt, {| context := context w; this := o; draws := draws w |}).

(** [this.quantumStates = qs] *)
Definition set_quantumStates (qs : list (list QuantumState)) : M unit :=
  o <- getThis;;
  setThis {| config := config o; this_particles := this_particles o;
             quantumStates := qs;
             globalBestPosition := globalBestPosition o;
             globalBestFitness := globalBestFitness o |}.

(** [this.particles = ps] *)
Definition set_particles (ps : list ParticleState) : M unit :=
  o <- getThis;;
  setThis {| config := config o; this_particles := ps;
             quantumStates := quantumStates o;
             globalBestPosition := globalBestPosition o;
             globalBestFitness := globalBestFitness o |}.

(** [this.globalBestFitness = f; this.globalBestPosition = [...p]] *)
Definition set_globalBest (p : list number) (f : number) : M unit :=
  o <- getThis;;
  setThis {| config := config o; this_particles := this_particles o;
             quantumStates := quantumStates o;
             globalBestPosition := p;
             globalBestFitness := f |}.

(** [arr.map(f)] for a callback with effects. *)
Fixpoint mapM_from {A B : Type} (f : A -> nat -> M B) (i : nat) (arr : list A) : M (list B) :=
  match arr with
  | [] => ret []
  | x :: rest =>
      y <- f x i;;
      ys <- mapM_from f (S i) rest;;
      ret (y :: ys)
  end.

Definition mapM {A B : Type} (f : A -> nat -> M B) (arr : list A) : M (list B) :=
  mapM_from f 0 arr.

(** [Array(n).fill(..).map(() => m)] *)
Fixpoint timesM {A : Type} (n : nat) (m : M A) : M (list A) :=
  match n with
  | O => ret []
  | S n' =>
      y <- m;;
      ys <- timesM n' m;;
      ret (y :: ys)
  end.

(** ** Relations between worlds *)

(** Two worlds that differ at most in the number of random draws. *)
Definition only_draws (w w' : World) : Prop :=
  context w' = context w /\ this w' = this w.

(** The context, the configuration and the global best are as before. *)
Definition keeps_best (w w' : World) : Prop :=
  context w' = context w
  /\ config (this w') = config (this w)
  /\ globalBestPosition (this w') = globalBestPosition (this w)
  /\ globalBestFitness (this w') = globalBestFitness (this w).

(** The context and the configuration are as before. *)
Definition keeps_input (w w' : World) : Prop :=
  context w' = context w /\ config (this w') = config (this w).

(** A computation that returns or throws: no loop of it is cut short. *)
Definition runs {A : Type} (r : outcome A) : Prop := r <> NoFuel.

(** The same for a computation on the world. *)
Definition runsM {A : Type} (m : M A) : Prop := forall w, m w <> NoFuel.

(** ** The methods with effects *)

Section Methods.

Variable host : Host.

Definition Math_random : M number :=
  fun w => Ok (Math_random_at host (draws w),
               {| context := context w; this := this w; draws := S (draws w) |}).

Definition initializeQuantumStates (dimension : nat) : M unit :=
  o <- getThis;;
  n <- lift (Array_ (particles (config o)));;
  states <- timesM n (timesM dimension
    (re <- Math_random;;
     im <- Math_random;;
     r <- Math_random;;
     ret {| amplitude := createComplex re im;
            phase := (r * 2 * Math_PI)%float |}));;
  set_quantumStates states.

Definition generateRandomAllocation (size : nat) (constraints : OptimizationConstraints)
  : M (list number) :=
  allocation <- timesM size Math_random;;
  ret (normalizeAllocation allocation).

Definition initializeParticles : M unit :=
  context <- getContext;;
  o <- getThis;;
  n <- lift (Array_ (particles (config o)));;
  ps <- timesM n
    (position <- generateRandomAllocation (List.length (assets context)) (constraints context);;
     ret {| position := position;
            velocity := repeat 0%float (List.length (assets context));
            bestPosition := position;
            bestFitness := neg_infinity |});;
  set_particles ps.

Definition evolveState (state : QuantumState) : M QuantumState :=
  r <- Math_random;;
  let newPhase := remainder host (phase state + r * Math_PI)%float (2 * Math_PI)%float in
  let newAmplitude :=
    createComplex
      (Math_cos host newPhase * real (amplitude state)
       - Math_sin host newPhase * imaginary (amplitude state))%float
      (Math_sin host newPhase * real (amplitude state)
       + Math_cos host newPhase * imaginary (amplitude state))%float in
  ret {| amplitude := newAmplitude; phase := newPhase |}.

Definition evolveQuantumStates : M unit :=
  o <- getThis;;
  qs <- mapM (fun particleStates _ => mapM (fun state _ => evolveState state) particleStates)
             (quantumStates o);;
  set_quantumStates qs.

Definition calculateQuantumInfluence (state : QuantumState) : number :=
  (magnitude (amplitude state) * Math_cos host (phase state))%float.

Definition inertiaWeight : number := 0.7%float.
Definition cognitiveWeight : number := 1.5%float.
Definition socialWeight : number := 1.5%float.

(** The callback of [updateParticles] for particle [i]. *)
Definition updateParticle (particle : ParticleState) (i : nat) : M ParticleState :=
  o <- getThis;;
  newVelocity <-
    mapM (fun v j =>
      r1 <- Math_random;;
      let cognitive :=
        (cognitiveWeight * r1 * (get (bestPosition particle) j - get (position particle) j))%float in
      r2 <- Math_random;;
      let social :=
        (socialWeight * r2 * (get (globalBestPosition o) j - get (position particle) j))%float in
      ret (inertiaWeight * v + cognitive + social)%float)
      (velocity particle);;
  newPosition <-
    lift (map_from (fun p j =>
      row <-? get_obj (quantumStates o) i;;
      state <-? get_obj row j;;
      let quantumInfluence := calculateQuantumInfluence state in
      Ok (clamp (p + get newVelocity j + quantumInfluence)%float 0%float 1%float))
      0 (position particle));;
  let normalizedPosition := normalizeAllocation newPosition in
  ret {| position := normalizedPosition;
         velocity := newVelocity;
         bestPosition := bestPosition particle;
         bestFitness := bestFitness particle |}.

Definition updateParticles : M unit :=
  o <- getThis;;
  ps <- mapM updateParticle (this_particles o);;
  set_particles ps.

(** The callback of [evaluateParticles] from the [await] on: the two
    comparisons, once the fitness is known. *)
Definition trackBest (particle : ParticleState) (fitness : number) : M ParticleState :=
  if gt fitness (bestFitness particle) then
    o <- getThis;;
    _ <- (if gt fitness (globalBestFitness o)
          then set_globalBest (position particle) fitness
          else ret tt);;
    ret {| position := position particle;
           velocity := velocity particle;
           bestPosition := position particle;
           bestFitness := fitness |}
  else ret particle.

(** The callback of [evaluateParticles].  It is an async function that
    awaits the fitness and then compares: the engine runs the fitness
    computations of all the particles first and the comparisons after them,
    in order.  It is written here as the source reads, one particle after
    the other; the two orders give the same state (section "The evaluation
    pass"). *)
Definition evaluateParticle (particle : ParticleState) : M ParticleState :=
  context <- getContext;;
  fitness <- lift (calculateFitness (position particle) context);;
  trackBest particle fitness.

Definition evaluateParticles : M unit :=
  o <- getThis;;
  ps <- mapM (fun particle _ => evaluateParticle particle) (this_particles o);;
  set_particles ps.

Definition constructOptimizationResult : M OptimizationResult :=
  context <- getContext;;
  o <- getThis;;
  expectedReturn <-
    lift (calculateExpectedReturn (globalBestPosition o) (returns (historicalData context)));;
  let confidence := calculateConfidence (quantumStates o) in
  volatility <-
    lift (calculatePortfolioVolatility (globalBestPosition o)
            (volatility (historicalData context)) (correlation (historicalData context)));;
  maxDrawdown <- lift (calculateMaxDrawdown (globalBestPosition o) context);;
  ret {| allocation := globalBestPosition o;
         expectedReturn := expectedReturn;
         confidence := confidence;
         metrics := {| metrics_sharpeRatio := globalBestFitness o;
                       metrics_volatility := volatility;
                       metrics_maxDrawdown := maxDrawdown |} |}.

(** The body of the [while] loop: one iteration of the search. *)
Definition iterate : M unit :=
  _ <- evolveQuantumStates;;
  _ <- updateParticles;;
  evaluateParticles.

(** The state after [k] passes of the loop body. *)
Fixpoint iterated (k : nat) : M unit :=
  match k with
  | O => ret tt
  | S k' => _ <- iterated k';; iterate
  end.

(** The [while] loop of [optimize]; it returns the final value of
    [iteration].  The loop is allowed [fuel] passes and ends in [NoFuel]
    when it would make one more: the source's loop has no bound of its own
    when the cap is Infinity, or above 2^53, where [iteration++] no longer
    advances. *)
Fixpoint search_loop (fuel : nat) (iteration : number) (converged : bool)
  (previousBestFitness : number) : M number :=
  o <- getThis;;
  if (lt iteration (iterations (config o)) && negb converged)%bool then
    match fuel with
    | O => fun _ => NoFuel
    | S fuel' =>
        _ <- iterate;;
        o <- getThis;;
        let converged :=
          if lt (Math_abs (globalBestFitness o - previousBestFitness)%float)
                (convergenceThreshold (config o))
          then true else converged in
        search_loop fuel' (iteration + 1)%float converged (globalBestFitness o)
    end
  else ret iteration.

(** [optimize] up to the end of its loop, which is allowed [fuel]
    passes. *)
Definition optimize_search (fuel : nat) : M number :=
  context <- getContext;;
  _ <- initializeQuantumStates (List.length (assets context));;
  _ <- initializeParticles;;
  search_loop fuel 0%float false neg_infinity.

Definition optimize (fuel : nat) : M OptimizationResult :=
  _ <- optimize_search fuel;;
  constructOptimizationResult.

(** [new QuantumOptimizer(arg).optimize(context)], the random source having
    been used [seed] times before. *)
Definition run (fuel : nat) (arg : ConfigArg) (ctx : OptimizationContext) (seed : nat)
  : outcome (OptimizationResult * World) :=
  optimize fuel {| context := ctx; this := constructor arg; draws := seed |}.

End Methods.

(** ** The refinement targets: the specification's formulas

    These definitions follow the words of the specification (sections 4.4
    and 5); the theorems below compare them with the methods above. *)

Module Spec.

Local Open Scope float_scope.

(** The sum of a series, left to right. *)
Definition series_sum (xs : list number) : number :=
  match xs with
  | [] => 0
  | x :: rest => fold_left PrimFloat.add rest x
  end.

(** The arithmetic mean of a series. *)
Definition mean (xs : list number) : number :=
  series_sum xs / of_nat (List.length xs).

(** A sum of terms accumulated from zero. *)
Definition total (terms : list number) : number :=
  fold_left PrimFloat.add terms 0.

(** Expected return: the sum over assets of weight times mean return. *)
Definition expectedReturn (weight : list number) (returns : list (list number)) : number :=
  total (map (fun i => get weight i * mean (nth i returns []))
             (seq 0 (List.length weight))).

(** Portfolio volatility: the square root of the double sum, taken over
    the pairs [(i, j)] in row-major order. *)
Definition portfolioVolatility (weight vol : list number) (corr : list (list number))
  : number :=
  let n := List.length weight in
  Math_sqrt
    (total (flat_map (fun i =>
              map (fun j => get weight i * get weight j * get vol i * get vol j
                            * get (nth i corr []) j)
                  (seq 0 n))
              (seq 0 n))).

Definition riskFreeRate : number := 0.02.

Definition sharpeRatio (expectedReturn portfolioVolatility : number) : number :=
  (expectedReturn - riskFreeRate) / portfolioVolatility.

(** Penalty: zero; add the excess volatility times 100; add the Sharpe
    deficit times 100. *)
Definition penalty (portfolioVolatility sharpeRatio : number) (budget : RiskBudget) : number :=
  let p := 0 in
  let p := if maxVolatility budget <? portfolioVolatility
           then p + (portfolioVolatility - maxVolatility budget) * 100 else p in
  let p := if sharpeRatio <? minSharpeRatio budget
           then p + (minSharpeRatio budget - sharpeRatio) * 100 else p in
  p.

Definition fitness (weight : list number) (context : OptimizationContext) : number :=
  let data := historicalData context in
  let er := expectedReturn weight (returns data) in
  let pv := portfolioVolatility weight (volatility data) (correlation data) in
  let sr := sharpeRatio er pv in
  sr - penalty pv sr (riskBudget (constraints context)).

(** Evaluation with a snapshot (sections 4.4 and 5): the fitness of every
    particle is computed first; the candidates are then folded, one after
    the other, into the personal bests and the global best. *)
Definition improve (best : list number * number) (candidate : ParticleState * number)
  : ParticleState * (list number * number) :=
  let particle := fst candidate in
  let fitness := snd candidate in
  if bestFitness particle <? fitness then
    ({| position := position particle;
        velocity := velocity particle;
        bestPosition := position particle;
        bestFitness := fitness |},
     if snd best <? fitness then (position particle, fitness) else best)
  else (particle, best).

Fixpoint fold_best (candidates : list (ParticleState * number)) (best : list number * number)
  : list ParticleState * (list number * number) :=
  match candidates with
  | [] => ([], best)
  | candidate :: rest =>
      let step := improve best candidate in
      let done := fold_best rest (snd step) in
      (fst step :: fst done, snd done)
  end.

Definition evaluate_snapshot (context : OptimizationContext) (o : QuantumOptimizer)
  : outcome QuantumOptimizer :=
  fitnesses <-? map_from (fun particle _ => calculateFitness (position particle) context)
                         0 (this_particles o);;
  let done := fold_best (combine (this_particles o) fitnesses)
                        (globalBestPosition o, globalBestFitness o) in
  Ok {| config := config o;
        this_particles := fst done;
        quantumStates := quantumStates o;
        globalBestPosition := fst (snd done);
        globalBestFitness := snd (snd done) |}.

End Spec.

(** ** Preconditions and invariants *)

(** The arrays of a context are aligned with its assets: one non-empty
    return series per asset, one volatility per asset, and a square
    correlation matrix. *)
Definition valid_context (c : OptimizationContext) : bool :=
  let n := List.length (assets c) in
  let d := historicalData c in
  (Nat.ltb 0 n
   && Nat.eqb (List.length (returns d)) n
   && forallb (fun row => Nat.ltb 0 (List.length row)) (returns d)
   && Nat.eqb (List.length (volatility d)) n
   && Nat.eqb (List.length (correlation d)) n
   && forallb (fun row => Nat.eqb (List.length row) n) (correlation d))%bool.

(** The rows that [calculateFitness] reads for this allocation exist: a
    non-empty return series and a correlation row for each weight. *)
Definition rows_available (allocation : list number) (context : OptimizationContext) : bool :=
  let n := List.length allocation in
  let d := historicalData context in
  (Nat.leb n (List.length (returns d))
   && forallb (fun row => Nat.ltb 0 (List.length row)) (returns d)
   && Nat.leb n (List.length (correlation d)))%bool.

(** The configuration a constructor argument must lead to for the arrays to
    be allocated with a particle in them: a particle count that is an
    integer in [1, 2^32). *)
Definition valid_config (cfg : QuantumConfig) : bool :=
  match array_length (particles cfg) with
  | Some count => Nat.ltb 0 count
  | None => false
  end.

(** The loop counter after [n] increments. *)
Fixpoint counted (n : nat) (iteration : number) : number :=
  match n with
  | O => iteration
  | S n' => counted n' (iteration + 1)%float
  end.

(** The counter, from [iteration] on, is below the cap [n] more times and
    then no longer: as long as the search does not converge, the loop has
    [n] more passes to make. *)
Fixpoint passes_left (n : nat) (iteration cap : number) : bool :=
  match n with
  | O => negb (lt iteration cap)
  | S n' => lt iteration cap && passes_left n' (iteration + 1)%float cap
  end.

(** The same for the whole loop, whose counter starts at 0: [n] is the cap
    when the cap is an integer that counting reaches (50, 1000), the next
    integer above it when it is not one, and 0 when the cap is negative. *)
Definition passes (cap : number) (n : nat) : bool := passes_left n 0%float cap.

(** A particle of dimension [n] that has no personal best yet. *)
Definition unranked (n : nat) (p : ParticleState) : Prop :=
  List.length (position p) = n
  /\ List.length (velocity p) = n
  /\ bestFitness p = neg_infinity.

(** The state of a search on the context [c] as long as no best has been
    recorded. *)
Definition bestless (c : OptimizationContext) (w : World) : Prop :=
  context w = c
  /\ globalBestPosition (this w) = []
  /\ globalBestFitness (this w) = neg_infinity
  /\ Forall (unranked (List.length (assets c))) (this_particles (this w))
  /\ List.length (quantumStates (this w)) = List.length (this_particles (this w))
  /\ Forall (fun row => List.length row = List.length (assets c)) (quantumStates (this w)).

(** The rows that [calculateFitness] reads for [n] weights exist: a
    non-empty return series and a correlation row for each of them. *)
Definition rows_for (n : nat) (context : OptimizationContext) : bool :=
  (forallb (fun i => Nat.ltb 0 (List.length (nth i (returns (historicalData context)) [])))
           (seq 0 n)
   && Nat.leb n (List.length (correlation (historicalData context))))%bool.

(** A particle of dimension [n] as [initializeParticles] makes it. *)
Definition newborn (n : nat) (p : ParticleState) : Prop :=
  List.length (position p) = n
  /\ velocity p = repeat 0%float n
  /\ bestPosition p = position p
  /\ bestFitness p = neg_infinity.

(** What [updateParticles] leaves of a particle [p] in its successor [p']:
    the personal best and the dimensions. *)
Definition same_best (p p' : ParticleState) : Prop :=
  bestPosition p' = bestPosition p
  /\ bestFitness p' = bestFitness p
  /\ List.length (position p') = List.length (position p)
  /\ List.length (velocity p') = List.length (velocity p).

(** How [evaluateParticles] turns a particle [p] into [p'], the fitness of
    its position in the context [c] being what decides. *)
Definition ranked (c : OptimizationContext) (p p' : ParticleState) : Prop :=
  position p' = position p
  /\ velocity p' = velocity p
  /\ exists fitness,
       calculateFitness (position p) c = Ok fitness
       /\ if gt fitness (bestFitness p)
          then bestPosition p' = position p /\ bestFitness p' = fitness
          else bestPosition p' = bestPosition p /\ bestFitness p' = bestFitness p.






(** The global best fitness is at least every personal best fitness. *)
Definition dominated (o : QuantumOptimizer) : Prop :=
  Forall (fun p => (bestFitness p <=? globalBestFitness o)%float = true) (this_particles o).

(** ** The order of binary64, as a key

    The comparison of [SpecFloat] is a lexicographic comparison of the
    following key; the proofs of transitivity go through it. *)

Module Rank.

Definition rank (x : spec_float) : Z * Z * Z :=
  match x with
  | S754_infinity true => (0, 0, 0)
  | S754_finite true m e => (1, - e, Zneg m)
  | S754_zero _ => (2, 0, 0)
  | S754_finite false m e => (3, e, Zpos m)
  | S754_infinity false => (4, 0, 0)
  | S754_nan => (5, 0, 0)
  end%Z.

Definition lex (a b : Z * Z * Z) : comparison :=
  match Z.compare (fst (fst a)) (fst (fst b)) with
  | Eq => match Z.compare (snd (fst a)) (snd (fst b)) with
          | Eq => Z.compare (snd a) (snd b)
          | c => c
          end
  | c => c
  end.

Definition lex_le (a b : Z * Z * Z) : Prop :=
  (fst (fst a) < fst (fst b)
   \/ (fst (fst a) = fst (fst b)
       /\ (snd (fst a) < snd (fst b)
           \/ (snd (fst a) = snd (fst b) /\ snd a <= snd b))))%Z.

End Rank.

(** ** Concrete inputs

    The scenario of the specification's section 8 (two assets), a context
    whose two assets are perfectly anti-correlated, and hosts on which the
    model can be run. *)

Module Scenario.

Local Open Scope float_scope.

(** A stand-in host: a cycle of seven random values in (0, 1), the
    remainder for a dividend below twice the divisor, and a crude cosine
    and sine.  The general statements quantify over the host; this one
    only serves to run them. *)
Definition host : Host :=
  {| Math_cos := fun x => 1 - x * x / 2;
     Math_sin := fun x => x;
     Math_random_at := fun k => of_nat (k mod 7 + 1) / 8;
     remainder := fun x y => if x <? y then x else x - y |}.

Definition asset : Asset :=
  {| symbol := String.EmptyString; price := 1; volume := 1; asset_volatility := 0.1 |}.

Definition regime : MarketRegime :=
  {| regime_type := sideways; regime_confidence := 1; trendStrength := 0;
     regime_volatility := 0; momentum := 0 |}.

Definition limits (budget : RiskBudget) : OptimizationConstraints :=
  {| riskTolerance := 0.5; minAllocation := 0; maxAllocation := 1;
     minPositions := 1; maxPositions := 2; sectorDiversification := [];
     riskBudget := budget |}.

Definition two_assets : OptimizationContext :=
  {| assets := [asset; asset];
     constraints := limits {| maxVolatility := 1; maxDrawdown := 1; minSharpeRatio := -10 |};
     marketRegime := regime;
     historicalData :=
       {| returns := [[0.01; 0.02]; [0.03; 0.01]];
          volatility := [0.1; 0.2];
          correlation := [[1; 0]; [0; 1]] |} |}.

Definition hedged : OptimizationContext :=
  {| assets := [asset; asset];
     constraints := limits {| maxVolatility := 1; maxDrawdown := 1; minSharpeRatio := -10 |};
     marketRegime := regime;
     historicalData :=
       {| returns := [[0.01; 0.02]; [0.03; 0.01]];
          volatility := [0.1; 0.1];
          correlation := [[1; -1]; [-1; 1]] |} |}.

Definition arg : ConfigArg :=
  {| arg_particles := Some 10; arg_iterations := Some 50;
     arg_convergenceThreshold := Some 1e-8 |}.

(** An optimizer in mid-search: two particles, a global best already set. *)
Definition warm : World :=
  {| context := two_assets;
     this :=
       {| config := {| particles := 2; iterations := 3; convergenceThreshold := 1e-8 |};
          this_particles :=
            [ {| position := [0.5; 0.5]; velocity := [0; 0];
                 bestPosition := [0.5; 0.5]; bestFitness := neg_infinity |};
              {| position := [0.25; 0.75]; velocity := [0; 0];
                 bestPosition := [0.25; 0.75]; bestFitness := neg_infinity |} ];
          quantumStates :=
            [ [ {| amplitude := createComplex 0.5 0.25; phase := 1 |};
                {| amplitude := createComplex 0.125 0.5; phase := 2 |} ];
              [ {| amplitude := createComplex 0.25 0.25; phase := 3 |};
                {| amplitude := createComplex 0.75 0.5; phase := 0.5 |} ] ];
          globalBestPosition := [0.5; 0.5];
          globalBestFitness := -1 |};
     draws := 0 |}.




Definition spun : QuantumState :=
  {| amplitude := createComplex 0.265625 0.25; phase := 1 |}.

(** An optimizer whose grid holds the one state [spun]. *)
Definition spinning : World :=
  {| context := two_assets;
     this :=
       {| config := {| particles := 1; iterations := 1; convergenceThreshold := 1e-6 |};
          this_particles := [];
          quantumStates := [[spun]];
          globalBestPosition := [];
          globalBestFitness := neg_infinity |};
     draws := 0 |}.

(** A context whose history is not aligned with its assets: two assets,
    one return series. *)
Definition unrecorded : OptimizationContext :=
  {| assets := [asset; asset];
     constraints := limits {| maxVolatility := 1; maxDrawdown := 1; minSharpeRatio := -10 |};
     marketRegime := regime;
     historicalData :=
       {| returns := [[0.01; 0.02]];
          volatility := [0.1; 0.2];
          correlation := [[1; 0]; [0; 1]] |} |}.

(** A context with no asset. *)
Definition no_assets : OptimizationContext :=
  {| assets := [];
     constraints := limits {| maxVolatility := 1; maxDrawdown := 1; minSharpeRatio := -10 |};
     marketRegime := regime;
     historicalData :=
       {| returns := [[0.01; 0.02]]; volatility := []; correlation := [] |} |}.

(** An optimizer as [optimize] has it when the loop starts: one particle,
    no best recorded. *)
Definition cold : World :=
  {| context := two_assets;
     this :=
       {| config := {| particles := 1; iterations := 3; convergenceThreshold := 1e-8 |};
          this_particles :=
            [ {| position := [0.5; 0.5]; velocity := [0; 0];
                 bestPosition := [0.5; 0.5]; bestFitness := neg_infinity |} ];
          quantumStates :=
            [ [ {| amplitude := createComplex 0.5 0.25; phase := 1 |};
                {| amplitude := createComplex 0.125 0.5; phase := 2 |} ] ];
          globalBestPosition := [];
          globalBestFitness := neg_infinity |};
     draws := 0 |}.



(** The optimizer [cold] with no cap on the iterations. *)
Definition endless : World :=
  {| context := two_assets;
     this :=
       {| config := {| particles := 1; iterations := infinity;
                       convergenceThreshold := 1e-8 |};
          this_particles := this_particles (this cold);
          quantumStates := quantumStates (this cold);
          globalBestPosition := [];
          globalBestFitness := neg_infinity |};
     draws := 0 |}.




End Scenario.

(** * The model at work

    The methods on small inputs, as the engine computes them. *)

Section Examples.

Local Open Scope float_scope.

Example clamp_inside : clamp 0.25 0 1 = 0.25.
Proof. reflexivity. Qed.

Example clamp_above : clamp 1.5 0 1 = 1.
Proof. reflexivity. Qed.

Example clamp_below : clamp (-0.5) 0 1 = 0.
Proof. reflexivity. Qed.

Example Math_min_zeros : Math_min 0 (-0) = (-0) /\ Math_max (-0) 0 = 0.
Proof. split; reflexivity. Qed.

Example normalizeAllocation_sums_to_one : normalizeAllocation [1; 3] = [0.25; 0.75].
Proof. reflexivity. Qed.

(** A vector that sums to zero is normalized to [NaN]s. *)
Example normalizeAllocation_of_zeros : normalizeAllocation [0; 0] = [nan; nan].
Proof. reflexivity. Qed.

Example calculateExpectedReturn_even_split :
  calculateExpectedReturn [0.5; 0.5] [[0.01; 0.02]; [0.03; 0.01]] = Ok 0.0175.
Proof. reflexivity. Qed.

(** A weight without a return series, and an empty return series. *)
Example calculateExpectedReturn_missing_row :
  calculateExpectedReturn [1; 0] [[0.01]] = Throw TypeError
  /\ calculateExpectedReturn [1] [[]] = Throw TypeError.
Proof. split; reflexivity. Qed.

Example calculatePortfolioVolatility_even_split :
  calculatePortfolioVolatility [0.5; 0.5] [0.1; 0.2] [[1; 0]; [0; 1]]
  = Ok 0.1118033988749895.
Proof. reflexivity. Qed.

(** All in the first asset: expected return 0.015, volatility 0.1. *)
Example calculateFitness_first_asset :
  calculateFitness [1; 0] Scenario.two_assets = Ok (-0.05000000000000001).
Proof. reflexivity. Qed.

Example calculateMaxDrawdown_even_split :
  calculateMaxDrawdown [0.5; 0.5] Scenario.two_assets = Ok 0.25000000000000006.
Proof. reflexivity. Qed.

(** A negative particle count passes the constructor and stops [optimize]
    where it allocates its arrays. *)
Example run_negative_particles :
  run Scenario.host 1000
    {| arg_particles := Some (-5); arg_iterations := None;
       arg_convergenceThreshold := None |}
    Scenario.two_assets 0
  = Throw RangeError.
Proof. reflexivity. Qed.

(** So does a particle count that is not an integer, or too large. *)
Example run_fractional_particles :
  run Scenario.host 1000
    {| arg_particles := Some 2.5; arg_iterations := None;
       arg_convergenceThreshold := None |}
    Scenario.two_assets 0
  = Throw RangeError
  /\ Array_ 4294967296 = Throw RangeError
  /\ Array_ infinity = Throw RangeError
  /\ Array_ 3 = Ok 3%nat
  /\ Array_ (-0) = Ok 0%nat.
Proof. repeat split; vm_compute; reflexivity. Qed.

(** The scenario of section 8 of the specification, on the stand-in host:
    50 iterations, 3080 random draws, and no allocation. *)
Example run_scenario :
  exists w',
    run Scenario.host 50 Scenario.arg Scenario.two_assets 0
    = Ok ({| allocation := [];
             expectedReturn := 0;
             confidence := 1;
             metrics := {| metrics_sharpeRatio := neg_infinity;
                           metrics_volatility := 0;
                           metrics_maxDrawdown := 0 |} |}, w')
    /\ draws w' = 3080%nat.
Proof. eexists. split; vm_compute; reflexivity. Qed.

End Examples.

(** * Facts about binary64 arithmetic *)

Module Ieee.

Import Rank.

Local Open Scope float_scope.

Ltac by_spec x :=
  apply Prim2SF_inj;
  rewrite ?mul_spec, ?add_spec, ?sub_spec, ?div_spec, ?sqrt_spec;
  change (Prim2SF nan) with S754_nan;
  unfold SF64mul, SF64add, SF64sub, SF64div, SFmul, SFadd, SFsub, SFdiv;
  destruct (Prim2SF x) as [ [|] | [|] | | [|] m e ]; reflexivity.

Lemma mul_nan_r (x : float) : x * nan = nan.
Proof. by_spec x. Qed.

Lemma mul_nan_l (x : float) : nan * x = nan.
Proof. by_spec x. Qed.

Lemma add_nan_r (x : float) : x + nan = nan.
Proof. by_spec x. Qed.

Lemma add_nan_l (x : float) : nan + x = nan.
Proof. by_spec x. Qed.

Lemma sub_nan_r (x : float) : x - nan = nan.
Proof. by_spec x. Qed.

Lemma sub_nan_l (x : float) : nan - x = nan.
Proof. by_spec x. Qed.

Lemma div_nan_r (x : float) : x / nan = nan.
Proof. by_spec x. Qed.

Lemma div_nan_l (x : float) : nan / x = nan.
Proof. by_spec x. Qed.

Lemma ltb_nan_r (x : float) : (x <? nan) = false.
Proof.
  rewrite ltb_spec. change (Prim2SF nan) with S754_nan.
  unfold SFltb, SFcompare. destruct (Prim2SF x); reflexivity.
Qed.

Lemma ltb_nan_l (x : float) : (nan <? x) = false.
Proof. rewrite ltb_spec. reflexivity. Qed.

Lemma SFcompare_refl (x : spec_float) :
  x <> S754_nan -> SFcompare x x = Some Eq.
Proof.
  destruct x as [ [|] | [|] | | [|] m e ]; simpl; try congruence; intros _;
    rewrite Z.compare_refl, Pos.compare_cont_refl; reflexivity.
Qed.

Lemma is_nan_spec (x : float) : is_nan x = true <-> x = nan.
Proof.
  unfold is_nan. rewrite eqb_spec. split.
  - intros H. apply Prim2SF_inj. change (Prim2SF nan) with S754_nan.
    destruct (Prim2SF x) eqn:E; try reflexivity;
      unfold SFeqb in H; rewrite SFcompare_refl in H by congruence; discriminate.
  - intros ->. reflexivity.
Qed.

Lemma not_nan_spec (x : float) : is_nan x = false <-> Prim2SF x <> S754_nan.
Proof.
  split.
  - intros H E. assert (x = nan) as -> by (apply Prim2SF_inj; exact E). discriminate.
  - intros H. destruct (is_nan x) eqn:E; [|reflexivity].
    apply is_nan_spec in E. subst x. now elim H.
Qed.

Lemma ltb_not_nan_r (x y : float) : (x <? y) = true -> is_nan y = false.
Proof.
  intros H. apply not_nan_spec. intros E. rewrite ltb_spec, E in H.
  unfold SFltb, SFcompare in H. destruct (Prim2SF x); discriminate.
Qed.

Lemma ltb_leb (x y : float) : (x <? y) = true -> (x <=? y) = true.
Proof.
  rewrite ltb_spec, leb_spec. unfold SFltb, SFleb.
  destruct (SFcompare _ _) as [ [ | | ] | ]; congruence.
Qed.

Lemma leb_refl (x : float) : is_nan x = false -> (x <=? x) = true.
Proof.
  intros H. apply not_nan_spec in H. rewrite leb_spec. unfold SFleb.
  now rewrite SFcompare_refl.
Qed.



Lemma is_finite_spec (z : float) :
  is_finite z = match Prim2SF z with
                | S754_nan | S754_infinity _ => false
                | _ => true
                end.
Proof.
  unfold is_finite, is_nan, is_infinity. rewrite !eqb_spec, abs_spec.
  change (Prim2SF infinity) with (S754_infinity false).
  destruct (Prim2SF z) as [ [|] | [|] | | [|] m e ]; try reflexivity;
    unfold SFeqb; rewrite SFcompare_refl by congruence; reflexivity.
Qed.

Lemma is_zero_spec (y : float) :
  is_zero y = true -> exists s, Prim2SF y = S754_zero s.
Proof.
  unfold is_zero. rewrite eqb_spec. change (Prim2SF zero) with (S754_zero false).
  destruct (Prim2SF y) as [ s | [|] | | [|] m e ]; try discriminate.
  intros _. now exists s.
Qed.

(** Dividing by a zero never gives a finite number. *)
Lemma div_zero_not_finite (x y : float) :
  is_zero y = true -> is_finite (x / y) = false.
Proof.
  intros H. destruct (is_zero_spec y H) as [s E].
  rewrite is_finite_spec, div_spec, E. unfold SF64div, SFdiv.
  destruct (Prim2SF x) as [ [|] | [|] | | [|] m e ]; reflexivity.
Qed.


(** Subtracting from a non-finite number never gives a finite one. *)
Lemma sub_not_finite (x y : float) :
  is_finite x = false -> is_finite (x - y) = false.
Proof.
  rewrite !is_finite_spec, sub_spec. unfold SF64sub, SFsub.
  destruct (Prim2SF x) as [ [|] | [|] | | [|] m e ]; try discriminate;
    destruct (Prim2SF y) as [ [|] | [|] | | [|] m' e' ]; reflexivity.
Qed.

Lemma lex_le_spec (a b : Z * Z * Z) : lex a b <> Gt <-> lex_le a b.
Proof.
  unfold lex, lex_le.
  destruct (Z.compare_spec (fst (fst a)) (fst (fst b)));
    destruct (Z.compare_spec (snd (fst a)) (snd (fst b)));
    destruct (Z.compare_spec (snd a) (snd b));
    split; intros; try congruence; try lia.
Qed.

Lemma SFcompare_rank (x y : spec_float) :
  x <> S754_nan -> y <> S754_nan -> SFcompare x y = Some (lex (rank x) (rank y)).
Proof.
  destruct x as [ [|] | [|] | | [|] m e ]; destruct y as [ [|] | [|] | | [|] m' e' ];
    intros Hx Hy; try congruence; try reflexivity.
  unfold SFcompare, lex, rank. cbn [fst snd]. rewrite Z.compare_opp.
  rewrite (Z.compare_antisym e e').
  destruct (Z.compare e e'); cbn [CompOpp Z.compare]; reflexivity.
Qed.

Lemma leb_rank (x y : float) :
  (x <=? y) = true
  <-> Prim2SF x <> S754_nan /\ Prim2SF y <> S754_nan
      /\ lex_le (rank (Prim2SF x)) (rank (Prim2SF y)).
Proof.
  rewrite leb_spec. unfold SFleb. split.
  - intros H.
    assert (Hx : Prim2SF x <> S754_nan) by (intros E; rewrite E in H; discriminate).
    assert (Hy : Prim2SF y <> S754_nan).
    { intros E. rewrite E in H. destruct (Prim2SF x); discriminate. }
    repeat split; try assumption. apply lex_le_spec.
    rewrite (SFcompare_rank _ _ Hx Hy) in H.
    destruct (lex _ _); congruence.
  - intros (Hx & Hy & H). apply lex_le_spec in H.
    rewrite (SFcompare_rank _ _ Hx Hy). destruct (lex _ _); congruence.
Qed.

Lemma leb_trans (x y z : float) :
  (x <=? y) = true -> (y <=? z) = true -> (x <=? z) = true.
Proof.
  rewrite !leb_rank. unfold lex_le. intros (Hx & _ & H1) (_ & Hz & H2).
  repeat split; try assumption. lia.
Qed.

End Ieee.

(** * The constructor *)

Section Constructor.

Local Open Scope float_scope.


(** C6, as the code has it.  Construction always yields an optimizer, and
    each field of its configuration is settled on its own: a supplied
    particle count, iteration cap or threshold other than a zero or NaN is
    stored as given, whatever its sign and whether it is an integer or not;
    a field that is absent, and a supplied +0, -0 or NaN, is replaced by
    the default, 100, 1000 and 1e-6; the search state starts empty with a
    global best fitness of -Infinity. *)
Theorem constructor_stores_config :
  forall arg : ConfigArg,
    (forall p, arg_particles arg = Some p -> truthy p = true ->
               particles (config (constructor arg)) = p)
    /\ (forall i, arg_iterations arg = Some i -> truthy i = true ->
                  iterations (config (constructor arg)) = i)
    /\ (forall t, arg_convergenceThreshold arg = Some t -> truthy t = true ->
                  convergenceThreshold (config (constructor arg)) = t)
    /\ (arg_particles arg = None
        \/ (exists p, arg_particles arg = Some p
                      /\ (is_zero p = true \/ is_nan p = true)) ->
        particles (config (constructor arg)) = 100)
    /\ (arg_iterations arg = None
        \/ (exists i, arg_iterations arg = Some i
                      /\ (is_zero i = true \/ is_nan i = true)) ->
        iterations (config (constructor arg)) = 1000)
    /\ (arg_convergenceThreshold arg = None
        \/ (exists t, arg_convergenceThreshold arg = Some t
                      /\ (is_zero t = true \/ is_nan t = true)) ->
        convergenceThreshold (config (constructor arg)) = 1e-6)
    /\ this_particles (constructor arg) = []
    /\ quantumStates (constructor arg) = []
    /\ globalBestPosition (constructor arg) = []
    /\ globalBestFitness (constructor arg) = neg_infinity.
Proof.
  intros arg.
  assert (Hset : forall (x : option number) (d v : number),
             x = Some v -> truthy v = true -> or_default x d = v).
  { intros x d v -> Hv. unfold or_default. now rewrite Hv. }
  assert (Hdef : forall (x : option number) (d : number),
             x = None \/ (exists v, x = Some v /\ (is_zero v = true \/ is_nan v = true)) ->
             or_default x d = d).
  { intros x d [->|(v & -> & Hv)]; [reflexivity|].
    unfold or_default, truthy. destruct Hv as [-> | ->]; [reflexivity|].
    rewrite orb_true_r. reflexivity. }
  unfold constructor. cbn [config particles iterations convergenceThreshold
    this_particles quantumStates globalBestPosition globalBestFitness].
  split; [intros p; apply Hset|]. split; [intros i; apply Hset|].
  split; [intros t; apply Hset|].
  split; [apply Hdef|]. split; [apply Hdef|]. split; [apply Hdef|].
  repeat split.
Qed.

Lemma constructor_stores_config_witness :
  particles (config (constructor {| arg_particles := Some 10; arg_iterations := Some nan;
                                    arg_convergenceThreshold := None |})) = 10
  /\ iterations (config (constructor {| arg_particles := Some 10;
                                        arg_iterations := Some nan;
                                        arg_convergenceThreshold := None |})) = 1000
  /\ convergenceThreshold
       (config (constructor {| arg_particles := Some 10; arg_iterations := Some nan;
                               arg_convergenceThreshold := None |})) = 1e-6.
Proof.
  destruct (constructor_stores_config
              {| arg_particles := Some 10; arg_iterations := Some nan;
                 arg_convergenceThreshold := None |})
    as (Hp & _ & _ & _ & Hi & Ht & _).
  split; [apply Hp; reflexivity|].
  split; [apply Hi; right; exists nan; split; [reflexivity | right; reflexivity]|].
  apply Ht. left. reflexivity.
Defined.

(** C6, as stated, fails: a negative particle count, a negative iteration
    cap and a negative threshold are accepted and stored, and so are a
    count and a cap that are not integers. *)
Lemma constructor_accepts_negative_config :
  config (constructor {| arg_particles := Some (-5); arg_iterations := Some (-3);
                         arg_convergenceThreshold := Some (-1) |})
  = {| particles := -5; iterations := -3; convergenceThreshold := -1 |}
  /\ config (constructor {| arg_particles := Some 2.5; arg_iterations := Some infinity;
                            arg_convergenceThreshold := Some neg_infinity |})
     = {| particles := 2.5; iterations := infinity; convergenceThreshold := neg_infinity |}.
Proof. split; reflexivity. Qed.



End Constructor.

(** * The fitness function *)

Section Fitness.

Local Open Scope float_scope.

Lemma get_obj_nth {A : Type} (arr : list A) (i : nat) (d : A) :
  (i < List.length arr)%nat -> get_obj arr i = Ok (nth i arr d).
Proof.
  intros H. unfold get_obj.
  destruct (nth_error arr i) eqn:E.
  - now rewrite (nth_error_nth _ _ d E).
  - apply nth_error_None in E. lia.
Qed.

Lemma reduce_add_series (row : list number) :
  (0 < List.length row)%nat -> reduce_add row = Ok (Spec.series_sum row).
Proof. destruct row; simpl; [lia | reflexivity]. Qed.

Lemma expectedReturn_from (returns : list (list number)) :
  forallb (fun row => Nat.ltb 0 (List.length row)) returns = true ->
  forall (rest : list number) (i : nat) (acc : number),
    (i + List.length rest <= List.length returns)%nat ->
    reduce_from (fun sum weight i =>
                   row <-? get_obj returns i;;
                   total <-? reduce_add row;;
                   let assetReturn := total / of_nat (List.length row) in
                   Ok (sum + weight * assetReturn))
                i acc rest
    = Ok (fold_left PrimFloat.add
            (map (fun k => get rest (k - i) * Spec.mean (nth k returns []))
                 (seq i (List.length rest)))
            acc).
Proof.
  intros Hrows. rewrite forallb_forall in Hrows.
  induction rest as [|w rest IH]; intros i acc Hlen; [reflexivity|].
  simpl in Hlen. cbn [reduce_from List.length seq map fold_left].
  rewrite (get_obj_nth returns i []) by lia. cbn [obind].
  assert (Hrow : (0 < List.length (nth i returns []))%nat).
  { apply Nat.ltb_lt, Hrows, nth_In. lia. }
  rewrite (reduce_add_series _ Hrow). cbn [obind].
  rewrite IH by lia. rewrite Nat.sub_diag. cbn [get nth].
  do 2 f_equal. apply map_ext_in. intros k Hk. apply in_seq in Hk.
  unfold get. replace (k - i)%nat with (S (k - S i)) by lia. reflexivity.
Qed.

Lemma calculateExpectedReturn_total (allocation : list number) (returns : list (list number)) :
  forallb (fun row => Nat.ltb 0 (List.length row)) returns = true ->
  (List.length allocation <= List.length returns)%nat ->
  calculateExpectedReturn allocation returns = Ok (Spec.expectedReturn allocation returns).
Proof.
  intros Hrows Hlen. unfold calculateExpectedReturn, reduce.
  rewrite expectedReturn_from by (assumption || lia).
  unfold Spec.expectedReturn, Spec.total. do 2 f_equal.
  apply map_ext. intros k. now rewrite Nat.sub_0_r.
Qed.

Lemma variance_row (allocation volatility : list number) (correlation : list (list number))
  (i : nat) :
  (i < List.length correlation)%nat ->
  forall (js : list nat) (acc : number),
    fold_left (fun acc j =>
                 portfolioVariance <-? acc;;
                 row <-? get_obj correlation i;;
                 Ok (portfolioVariance +
                     get allocation i * get allocation j * get volatility i * get volatility j
                     * get row j))
              js (Ok acc)
    = Ok (fold_left PrimFloat.add
            (map (fun j => get allocation i * get allocation j * get volatility i
                           * get volatility j * get (nth i correlation []) j) js)
            acc).
Proof.
  intros Hi js acc. rewrite (get_obj_nth correlation i []) by assumption.
  cbn [obind]. revert acc.
  induction js as [|j js IH]; intros acc; [reflexivity|].
  cbn [fold_left map obind]. apply IH.
Qed.

Lemma variance_rows (allocation volatility : list number) (correlation : list (list number))
  (js : list nat) :
  forall (rows : list nat) (acc : number),
    (forall i, In i rows -> (i < List.length correlation)%nat) ->
    fold_left (fun acc i =>
      fold_left (fun acc j =>
                   portfolioVariance <-? acc;;
                   row <-? get_obj correlation i;;
                   Ok (portfolioVariance +
                       get allocation i * get allocation j * get volatility i
                       * get volatility j * get row j))
                js acc)
      rows (Ok acc)
    = Ok (fold_left PrimFloat.add
            (flat_map (fun i =>
               map (fun j => get allocation i * get allocation j * get volatility i
                             * get volatility j * get (nth i correlation []) j) js)
               rows)
            acc).
Proof.
  induction rows as [|i rows IH]; intros acc Hrows; [reflexivity|].
  cbn [fold_left flat_map]. rewrite variance_row by (apply Hrows; now left).
  rewrite IH by (intros k Hk; apply Hrows; now right).
  now rewrite fold_left_app.
Qed.

Lemma calculatePortfolioVolatility_total (allocation volatility : list number)
  (correlation : list (list number)) :
  (List.length allocation <= List.length correlation)%nat ->
  calculatePortfolioVolatility allocation volatility correlation
  = Ok (Spec.portfolioVolatility allocation volatility correlation).
Proof.
  intros Hlen. unfold calculatePortfolioVolatility.
  rewrite variance_rows by (intros i Hi; apply in_seq in Hi; lia).
  reflexivity.
Qed.

Lemma calculateFitness_total (allocation : list number) (context : OptimizationContext) :
  rows_available allocation context = true ->
  calculateFitness allocation context = Ok (Spec.fitness allocation context).
Proof.
  unfold rows_available. rewrite !andb_true_iff, !Nat.leb_le. intros [[Hr Hne] Hc].
  unfold calculateFitness.
  rewrite calculateExpectedReturn_total by assumption.
  rewrite calculatePortfolioVolatility_total by assumption.
  reflexivity.
Qed.

(** C2.  Whenever the rows it reads exist, [calculateFitness] returns the
    Sharpe ratio minus the penalty, with the expected return, the portfolio
    volatility, the Sharpe ratio (risk-free rate 0.02) and the penalty as
    the specification defines them. *)
Theorem calculateFitness_is_sharpe_minus_penalty :
  forall (allocation : list number) (context : OptimizationContext),
    rows_available allocation context = true ->
    let data := historicalData context in
    let expectedReturn := Spec.expectedReturn allocation (returns data) in
    let portfolioVolatility :=
      Spec.portfolioVolatility allocation (volatility data) (correlation data) in
    let sharpeRatio := (expectedReturn - 0.02) / portfolioVolatility in
    calculateExpectedReturn allocation (returns data) = Ok expectedReturn
    /\ calculatePortfolioVolatility allocation (volatility data) (correlation data)
       = Ok portfolioVolatility
    /\ calculateFitness allocation context
       = Ok (sharpeRatio
             - Spec.penalty portfolioVolatility sharpeRatio (riskBudget (constraints context))).
Proof.
  intros allocation context H. cbv zeta.
  pose proof (calculateFitness_total _ _ H) as HF.
  unfold rows_available in H. rewrite !andb_true_iff, !Nat.leb_le in H.
  destruct H as [[Hr Hne] Hc].
  split; [now apply calculateExpectedReturn_total|].
  split; [now apply calculatePortfolioVolatility_total|].
  exact HF.
Qed.

Lemma calculateFitness_is_sharpe_minus_penalty_witness :
  rows_available [1; 0] Scenario.two_assets = true
  /\ calculateFitness [1; 0] Scenario.two_assets = Ok (Spec.fitness [1; 0] Scenario.two_assets).
Proof.
  split; [reflexivity|].
  exact (proj2 (proj2
    (calculateFitness_is_sharpe_minus_penalty [1; 0] Scenario.two_assets (eq_refl true)))).
Defined.

(** C5, as stated, fails: on an equal split of two perfectly anti-correlated
    assets the portfolio volatility is 0, and the fitness is returned as
    -Infinity; nothing is thrown. *)
Lemma zero_volatility_divides_silently :
  calculatePortfolioVolatility [0.5; 0.5]
    (volatility (historicalData Scenario.hedged))
    (correlation (historicalData Scenario.hedged)) = Ok 0
  /\ calculateFitness [0.5; 0.5] Scenario.hedged = Ok neg_infinity.
Proof. split; reflexivity. Qed.

(** C5, as the code has it.  When the expected return and the portfolio
    volatility have been computed and the volatility is a zero, the Sharpe
    ratio is the IEEE quotient, an infinity or NaN, and [calculateFitness]
    returns a number that is not finite; no exception is raised. *)
Theorem zero_volatility_fitness_not_finite :
  forall (allocation : list number) (context : OptimizationContext)
         (expectedReturn portfolioVolatility : number),
    calculateExpectedReturn allocation (returns (historicalData context))
    = Ok expectedReturn ->
    calculatePortfolioVolatility allocation (volatility (historicalData context))
      (correlation (historicalData context)) = Ok portfolioVolatility ->
    is_zero portfolioVolatility = true ->
    is_finite ((expectedReturn - 0.02) / portfolioVolatility) = false
    /\ exists fitness,
         calculateFitness allocation context = Ok fitness
         /\ is_finite fitness = false.
Proof.
  intros allocation context er pv Her Hpv Hz.
  pose proof (Ieee.div_zero_not_finite (er - 0.02) pv Hz) as Hs.
  split; [exact Hs|].
  unfold calculateFitness. rewrite Her, Hpv. cbn [obind].
  eexists. split; [reflexivity|]. now apply Ieee.sub_not_finite.
Qed.

Lemma zero_volatility_fitness_not_finite_witness :
  is_finite ((0.0175 - 0.02) / 0) = false
  /\ exists fitness,
       calculateFitness [0.5; 0.5] Scenario.hedged = Ok fitness
       /\ is_finite fitness = false.
Proof.
  apply (zero_volatility_fitness_not_finite [0.5; 0.5] Scenario.hedged 0.0175 0);
    reflexivity.
Defined.

End Fitness.

(** * The evaluation pass *)

Section Evaluation.

Local Open Scope float_scope.

Lemma trackBest_improve (particle : ParticleState) (fitness : number) (w : World) :
  trackBest particle fitness w
  = let step := Spec.improve (globalBestPosition (this w), globalBestFitness (this w))
                             (particle, fitness) in
    Ok (fst step,
        {| context := context w;
           this := {| config := config (this w);
                      this_particles := this_particles (this w);
                      quantumStates := quantumStates (this w);
                      globalBestPosition := fst (snd step);
                      globalBestFitness := snd (snd step) |};
           draws := draws w |}).
Proof.
  destruct w as [c [cfg ps0 qs gp gf] d].
  unfold trackBest, Spec.improve, gt. cbn [fst snd this globalBestFitness globalBestPosition].
  destruct (bestFitness particle <? fitness); [|reflexivity].
  unfold bind, getThis. cbn [this globalBestFitness].
  destruct (gf <? fitness); reflexivity.
Qed.

Lemma evaluate_fold (ps : list ParticleState) :
  forall (i : nat) (w : World),
    mapM_from (fun particle _ => evaluateParticle particle) i ps w
    = match map_from (fun particle _ => calculateFitness (position particle) (context w))
                     i ps with
      | Ok fitnesses =>
          let done := Spec.fold_best (combine ps fitnesses)
                        (globalBestPosition (this w), globalBestFitness (this w)) in
          Ok (fst done,
              {| context := context w;
                 this := {| config := config (this w);
                            this_particles := this_particles (this w);
                            quantumStates := quantumStates (this w);
                            globalBestPosition := fst (snd done);
                            globalBestFitness := snd (snd done) |};
                 draws := draws w |})
      | Throw e => Throw e
      | NoFuel => NoFuel
      end.
Proof.
  induction ps as [|p ps IH]; intros i [c [cfg ps0 qs gp gf] d]; [reflexivity|].
  cbn [mapM_from map_from obind]. unfold bind at 1. unfold evaluateParticle at 1.
  cbn -[calculateFitness mapM_from map_from trackBest Spec.fold_best].
  destruct (calculateFitness (position p) c) as [f| |]; try reflexivity.
  cbn -[calculateFitness mapM_from map_from trackBest Spec.fold_best].
  rewrite trackBest_improve. cbv zeta. unfold bind at 1. rewrite IH.
  cbn [context this config this_particles quantumStates globalBestPosition
       globalBestFitness draws obind].
  destruct (map_from _ (S i) ps) as [fs| |]; try reflexivity.
  cbn [obind combine Spec.fold_best].
  destruct (Spec.improve (gp, gf) (p, f)) as [a [bp bf]]. reflexivity.
Qed.

Lemma evaluateParticles_run (w : World) :
  evaluateParticles w
  = match Spec.evaluate_snapshot (context w) (this w) with
    | Ok o => Ok (tt, {| context := context w; this := o; draws := draws w |})
    | Throw e => Throw e
    | NoFuel => NoFuel
    end.
Proof.
  unfold evaluateParticles, Spec.evaluate_snapshot, mapM.
  unfold bind at 1, getThis. unfold bind at 1. rewrite evaluate_fold.
  destruct (map_from _ _ _) as [fs| |]; cbn [obind]; reflexivity.
Qed.

(** C7.  The evaluation pass, which visits the particles one after the
    other, computing a fitness and updating the bests each time, ends in
    exactly the state of the snapshot semantics: the same personal bests and
    the same global best position and fitness (and so also up to ties); it
    throws exactly when the snapshot does. *)
Theorem evaluateParticles_is_snapshot :
  forall w : World,
    evaluateParticles w
    = match Spec.evaluate_snapshot (context w) (this w) with
      | Ok o => Ok (tt, {| context := context w; this := o; draws := draws w |})
      | Throw e => Throw e
      | NoFuel => NoFuel
      end.
Proof. exact evaluateParticles_run. Qed.

(** The fold never lowers the global best fitness, and never makes it NaN. *)
Lemma fold_best_monotone (candidates : list (ParticleState * number)) :
  forall best : list number * number,
    is_nan (snd best) = false ->
    (snd best <=? snd (snd (Spec.fold_best candidates best))) = true
    /\ is_nan (snd (snd (Spec.fold_best candidates best))) = false.
Proof.
  induction candidates as [|[p f] cs IH]; intros best Hn.
  - split; [now apply Ieee.leb_refl | assumption].
  - cbn [Spec.fold_best snd]. unfold Spec.improve. cbn [fst snd].
    destruct (bestFitness p <? f); [|now apply IH].
    destruct (snd best <? f) eqn:Hlt; cbn [snd]; [|now apply IH].
    destruct (IH (position p, f) (Ieee.ltb_not_nan_r _ _ Hlt)) as [Hle Hn'].
    split; [|exact Hn'].
    eapply Ieee.leb_trans; [apply Ieee.ltb_leb; exact Hlt | exact Hle].
Qed.

Lemma evaluateParticles_frame (w w' : World) (u : unit) :
  evaluateParticles w = Ok (u, w') ->
  context w' = context w
  /\ config (this w') = config (this w)
  /\ quantumStates (this w') = quantumStates (this w)
  /\ (is_nan (globalBestFitness (this w)) = false ->
      (globalBestFitness (this w) <=? globalBestFitness (this w')) = true
      /\ is_nan (globalBestFitness (this w')) = false).
Proof.
  rewrite evaluateParticles_run. unfold Spec.evaluate_snapshot.
  destruct (map_from _ _ _) as [fs| |]; cbn [obind]; try discriminate.
  intros H. inversion H; subst w'. cbn. repeat split.
  - now apply (fold_best_monotone _ (globalBestPosition (this w), globalBestFitness (this w))).
  - now apply (fold_best_monotone _ (globalBestPosition (this w), globalBestFitness (this w))).
Qed.

End Evaluation.

(** * Reasoning about the monad *)

Section Monad.

Lemma only_draws_refl (w : World) : only_draws w w.
Proof. split; reflexivity. Qed.

Lemma only_draws_trans (w1 w2 w3 : World) :
  only_draws w1 w2 -> only_draws w2 w3 -> only_draws w1 w3.
Proof. unfold only_draws. intros [-> ->] [-> ->]. split; reflexivity. Qed.

Lemma bind_run {A B : Type} (m : M A) (k : A -> M B) (w w' : World) (a : A) :
  m w = Ok (a, w') -> bind m k w = k a w'.
Proof. intros H. unfold bind. now rewrite H. Qed.

Lemma bind_inv {A B : Type} (m : M A) (k : A -> M B) (w w'' : World) (b : B) :
  bind m k w = Ok (b, w'') ->
  exists a w', m w = Ok (a, w') /\ k a w' = Ok (b, w'').
Proof.
  unfold bind. destruct (m w) as [[a w']| |]; try discriminate.
  intros H. now exists a, w'.
Qed.

Lemma lift_inv {A : Type} (r : outcome A) (w w' : World) (a : A) :
  lift r w = Ok (a, w') -> r = Ok a /\ w' = w.
Proof. unfold lift. destruct r; try discriminate. intros H. now inversion H. Qed.

Lemma Math_random_only_draws (host : Host) (w w' : World) (x : number) :
  Math_random host w = Ok (x, w') -> only_draws w w'.
Proof. unfold Math_random. intros H. inversion H. split; reflexivity. Qed.

(** Partial correctness: a callback that only draws random numbers keeps
    the optimizer and the context as they are. *)
Lemma mapM_from_only_draws {A B : Type} (f : A -> nat -> M B) (arr : list A) :
  (forall a k w0 b w1, f a k w0 = Ok (b, w1) -> only_draws w0 w1) ->
  forall i w bs w', mapM_from f i arr w = Ok (bs, w') ->
                    only_draws w w' /\ List.length bs = List.length arr.
Proof.
  intros Hf. induction arr as [|a arr IH]; intros i w bs w' H.
  - inversion H. split; [apply only_draws_refl | reflexivity].
  - cbn [mapM_from] in H.
    apply bind_inv in H as (b & w1 & H1 & H).
    apply bind_inv in H as (bs' & w2 & H2 & H).
    inversion H; subst. apply Hf in H1. apply IH in H2 as [H2 Hlen].
    split; [eapply only_draws_trans; eassumption | simpl; now rewrite Hlen].
Qed.

Lemma timesM_only_draws {A : Type} (m : M A) :
  (forall w0 a w1, m w0 = Ok (a, w1) -> only_draws w0 w1) ->
  forall n w l w', timesM n m w = Ok (l, w') -> only_draws w w' /\ List.length l = n.
Proof.
  intros Hm. induction n as [|n IH]; intros w l w' H.
  - inversion H. split; [apply only_draws_refl | reflexivity].
  - cbn [timesM] in H.
    apply bind_inv in H as (a & w1 & H1 & H).
    apply bind_inv in H as (l' & w2 & H2 & H).
    inversion H; subst. apply Hm in H1. apply IH in H2 as [H2 Hlen].
    split; [eapply only_draws_trans; eassumption | simpl; now rewrite Hlen].
Qed.

(** Total correctness: when the callback returns on every element, in any
    world that differs from the first by its draws only, so does the map;
    the results are related to the elements as the callback relates them. *)
Lemma mapM_from_total {A B : Type} (f : A -> nat -> M B) (R : A -> B -> Prop)
  (arr : list A) :
  forall i w,
    (forall k a w0, nth_error arr k = Some a -> only_draws w w0 ->
                    exists b w1, f a (i + k)%nat w0 = Ok (b, w1)
                                 /\ only_draws w0 w1 /\ R a b) ->
    exists bs w', mapM_from f i arr w = Ok (bs, w')
                  /\ only_draws w w' /\ Forall2 R arr bs.
Proof.
  induction arr as [|a arr IH]; intros i w Hf.
  - exists [], w. repeat split; constructor.
  - destruct (Hf 0%nat a w eq_refl (only_draws_refl w)) as (b & w1 & H1 & Hd1 & HR).
    rewrite Nat.add_0_r in H1.
    destruct (IH (S i) w1) as (bs & w2 & H2 & Hd2 & HRs).
    { intros k a' w0 Hk Hd0.
      destruct (Hf (S k) a' w0 Hk (only_draws_trans _ _ _ Hd1 Hd0)) as (b' & w' & E & ? & ?).
      exists b', w'. rewrite Nat.add_succ_r in E. auto. }
    exists (b :: bs), w2. cbn [mapM_from].
    rewrite (bind_run _ _ _ _ _ H1), (bind_run _ _ _ _ _ H2).
    split; [reflexivity|]. split; [eapply only_draws_trans; eassumption|].
    now constructor.
Qed.

Lemma timesM_total {A : Type} (m : M A) (Q : A -> Prop) :
  forall n w,
    (forall w0, only_draws w w0 ->
                exists a w1, m w0 = Ok (a, w1) /\ only_draws w0 w1 /\ Q a) ->
    exists l w', timesM n m w = Ok (l, w')
                 /\ only_draws w w' /\ List.length l = n /\ Forall Q l.
Proof.
  induction n as [|n IH]; intros w Hm.
  - exists [], w. repeat split; constructor.
  - destruct (Hm w (only_draws_refl w)) as (a & w1 & H1 & Hd1 & HQ).
    destruct (IH w1) as (l & w2 & H2 & Hd2 & Hlen & HQs).
    { intros w0 Hd0. apply Hm. eapply only_draws_trans; eassumption. }
    exists (a :: l), w2. cbn [timesM].
    rewrite (bind_run _ _ _ _ _ H1), (bind_run _ _ _ _ _ H2).
    split; [reflexivity|]. split; [eapply only_draws_trans; eassumption|].
    split; [simpl; now rewrite Hlen | now constructor].
Qed.

Lemma map_from_total {A B : Type} (f : A -> nat -> outcome B) (g : A -> B) (arr : list A) :
  forall i,
    (forall k a, nth_error arr k = Some a -> f a (i + k)%nat = Ok (g a)) ->
    map_from f i arr = Ok (map g arr).
Proof.
  induction arr as [|a arr IH]; intros i Hf; [reflexivity|].
  cbn [map_from map]. pose proof (Hf 0%nat a eq_refl) as H0.
  rewrite Nat.add_0_r in H0. rewrite H0. cbn [obind].
  rewrite IH; [reflexivity|].
  intros k a' Hk. specialize (Hf (S k) a' Hk). now rewrite Nat.add_succ_r in Hf.
Qed.

Lemma Forall2_const {A B : Type} (x : B) (arr : list A) (bs : list B) :
  Forall2 (fun _ b => b = x) arr bs -> bs = repeat x (List.length arr).
Proof. induction 1; simpl; congruence. Qed.

Lemma map_const {A B : Type} (x : B) (arr : list A) :
  map (fun _ => x) arr = repeat x (List.length arr).
Proof. induction arr; simpl; congruence. Qed.

End Monad.

Tactic Notation "open_bind" hyp(H) ident(a) ident(w') ident(H1) :=
  apply bind_inv in H as (a & w' & H1 & H).

(** * What each phase may change *)

Section Frames.

Variable host : Host.

Lemma keeps_best_refl (w : World) : keeps_best w w.
Proof. repeat split. Qed.

Lemma keeps_best_trans (w1 w2 w3 : World) :
  keeps_best w1 w2 -> keeps_best w2 w3 -> keeps_best w1 w3.
Proof.
  unfold keeps_best. intros (-> & -> & -> & ->) (-> & -> & -> & ->). repeat split.
Qed.

Lemma only_draws_keeps_best (w w' : World) : only_draws w w' -> keeps_best w w'.
Proof. intros [Hc Ht]. unfold keeps_best. rewrite Hc, Ht. repeat split. Qed.

Lemma evolveState_only_draws (state state' : QuantumState) (w w' : World) :
  evolveState host state w = Ok (state', w') -> only_draws w w'.
Proof.
  unfold evolveState. intros H. open_bind H r w1 H1.
  apply Math_random_only_draws in H1. inversion H; subst. exact H1.
Qed.

Lemma evolveQuantumStates_frame (w w' : World) (u : unit) :
  evolveQuantumStates host w = Ok (u, w') ->
  keeps_best w w'
  /\ this_particles (this w') = this_particles (this w)
  /\ Forall2 (fun row row' => List.length row' = List.length row)
             (quantumStates (this w)) (quantumStates (this w')) .
Proof.
  unfold evolveQuantumStates. intros H.
  open_bind H o w0 H0. inversion H0; subst o w0; clear H0.
  open_bind H qs w1 H1.
  assert (Hrows : forall (a : list QuantumState) (k : nat) w0 b w2,
             mapM (fun state _ => evolveState host state) a w0 = Ok (b, w2) ->
             only_draws w0 w2 /\ List.length b = List.length a).
  { intros a k w0 b w2 E. unfold mapM in E.
    eapply mapM_from_only_draws in E; [exact E|].
    intros ? ? ? ? ?. apply evolveState_only_draws. }
  assert (Hd : only_draws w w1).
  { unfold mapM in H1. eapply mapM_from_only_draws in H1; [apply H1|].
    intros a k w0 b w2 E. eapply Hrows; eassumption. }
  assert (Hshape : forall arr i w0 bs w2,
             mapM_from (fun particleStates (_ : nat) =>
                          mapM (fun state _ => evolveState host state) particleStates)
                       i arr w0 = Ok (bs, w2) ->
             Forall2 (fun row row' => List.length row' = List.length row) arr bs).
  { induction arr as [|a arr IH]; intros i w0 bs w2 E.
    - inversion E. constructor.
    - cbn [mapM_from] in E. open_bind E b w3 E1. open_bind E bs' w4 E2.
      inversion E; subst. constructor; [|eapply IH; eassumption].
      eapply (Hrows a i); eassumption. }
  apply Hshape in H1. destruct Hd as [Hc Ht].
  unfold set_quantumStates in H. open_bind H o w2 H2. inversion H2; subst o w2; clear H2.
  inversion H; subst w'. cbn. rewrite Hc, Ht. repeat split. exact H1.
Qed.

Lemma updateParticle_only_draws (particle particle' : ParticleState) (i : nat)
  (w w' : World) :
  updateParticle host particle i w = Ok (particle', w') ->
  only_draws w w'
  /\ bestPosition particle' = bestPosition particle
  /\ bestFitness particle' = bestFitness particle.
Proof.
  unfold updateParticle. intros H.
  open_bind H o w0 H0. inversion H0; subst o w0; clear H0.
  open_bind H newVelocity w1 H1.
  unfold mapM in H1. eapply mapM_from_only_draws in H1 as [H1 _].
  2:{ intros v j w0 b w2 E. open_bind E r1 w3 E1. open_bind E r2 w4 E2.
      inversion E; subst. eapply only_draws_trans; eapply Math_random_only_draws; eassumption. }
  open_bind H newPosition w2 H2. apply lift_inv in H2 as [_ ->].
  inversion H; subst. repeat split; apply H1.
Qed.

Lemma updateParticles_frame (w w' : World) (u : unit) :
  updateParticles host w = Ok (u, w') ->
  keeps_best w w'
  /\ quantumStates (this w') = quantumStates (this w)
  /\ Forall2 (fun p p' => bestFitness p' = bestFitness p)
             (this_particles (this w)) (this_particles (this w')).
Proof.
  unfold updateParticles. intros H.
  open_bind H o w0 H0. inversion H0; subst o w0; clear H0.
  open_bind H ps w1 H1.
  assert (Hbest : forall arr i w0 bs w2,
             mapM_from (updateParticle host) i arr w0 = Ok (bs, w2) ->
             Forall2 (fun p p' => bestFitness p' = bestFitness p) arr bs).
  { induction arr as [|a arr IH]; intros i w0 bs w2 E.
    - inversion E. constructor.
    - cbn [mapM_from] in E. open_bind E b w3 E1. open_bind E bs' w4 E2.
      inversion E; subst. constructor; [|eapply IH; eassumption].
      apply updateParticle_only_draws in E1. apply E1. }
  pose proof (Hbest _ _ _ _ _ H1) as Hb.
  unfold mapM in H1. eapply mapM_from_only_draws in H1 as [[Hc Ht] _].
  2:{ intros p i w0 p' w2 E. eapply updateParticle_only_draws; eassumption. }
  unfold set_particles in H. open_bind H o w2 H2. inversion H2; subst o w2; clear H2.
  inversion H; subst w'. cbn. rewrite Hc, Ht. repeat split. exact Hb.
Qed.

End Frames.

(** * Monotonicity of the global best *)

Section Monotone.

Local Open Scope float_scope.

Variable host : Host.

Lemma iterate_frame (w w' : World) (u : unit) :
  iterate host w = Ok (u, w') ->
  context w' = context w
  /\ config (this w') = config (this w)
  /\ (is_nan (globalBestFitness (this w)) = false ->
      (globalBestFitness (this w) <=? globalBestFitness (this w')) = true
      /\ is_nan (globalBestFitness (this w')) = false).
Proof.
  unfold iterate. intros H.
  open_bind H u1 w1 H1. open_bind H u2 w2 H2.
  apply evolveQuantumStates_frame in H1 as [(Hc1 & Hg1 & _ & Hf1) _].
  apply updateParticles_frame in H2 as [(Hc2 & Hg2 & _ & Hf2) _].
  apply evaluateParticles_frame in H as (Hc & Hg & _ & Hf).
  rewrite Hf2, Hf1 in Hf. repeat split; try apply Hf; congruence.
Qed.

Lemma iterated_not_nan (k : nat) :
  forall (w wk : World) (u : unit),
    is_nan (globalBestFitness (this w)) = false ->
    iterated host k w = Ok (u, wk) ->
    is_nan (globalBestFitness (this wk)) = false
    /\ (globalBestFitness (this w) <=? globalBestFitness (this wk)) = true.
Proof.
  induction k as [|k IH]; intros w wk u Hn H; cbn [iterated] in H.
  - inversion H; subst. split; [exact Hn | now apply Ieee.leb_refl].
  - open_bind H u1 w1 H1. destruct (IH _ _ _ Hn H1) as [Hn1 Hle1].
    apply iterate_frame in H as (_ & _ & H). destruct (H Hn1) as [Hle Hn'].
    split; [exact Hn' | eapply Ieee.leb_trans; eassumption].
Qed.

(** C3.  Along a run the global best fitness never decreases: whatever the
    number [k] of iterations already made from a state whose global best
    fitness is not NaN (it starts as -Infinity), the value after iteration
    [k + 1] is greater than or equal to the value after iteration [k]. *)
Theorem globalBestFitness_non_decreasing :
  forall (k : nat) (w wk wk1 : World) (u u1 : unit),
    is_nan (globalBestFitness (this w)) = false ->
    iterated host k w = Ok (u, wk) ->
    iterate host wk = Ok (u1, wk1) ->
    (globalBestFitness (this wk) <=? globalBestFitness (this wk1)) = true.
Proof.
  intros k w wk wk1 u u1 Hn Hk H.
  destruct (iterated_not_nan k w wk u Hn Hk) as [Hnk _].
  apply iterate_frame in H as (_ & _ & H). now apply H.
Qed.

End Monotone.

Lemma globalBestFitness_non_decreasing_witness :
  exists wk wk1 : World,
    iterated Scenario.host 1 Scenario.warm = Ok (tt, wk)
    /\ iterate Scenario.host wk = Ok (tt, wk1)
    /\ globalBestFitness (this wk) = (-0.05000000000000001)%float
    /\ (globalBestFitness (this wk) <=? globalBestFitness (this wk1))%float = true.
Proof.
  eexists. eexists. split; [vm_compute; reflexivity|].
  split; [vm_compute; reflexivity|]. split; [reflexivity|].
  apply (globalBestFitness_non_decreasing Scenario.host 1 Scenario.warm _ _ tt tt);
    vm_compute; reflexivity.
Defined.

(** * The passes the loop needs

    Nothing but the loop can end in [NoFuel], and the loop does not when it
    is allowed as many passes as its counter stays below the cap. *)

Section Fuel.

Variable host : Host.

Lemma obind_runs {A B : Type} (r : outcome A) (k : A -> outcome B) :
  runs r -> (forall a, runs (k a)) -> runs (obind r k).
Proof. unfold runs. destruct r; cbn; auto; congruence. Qed.

Lemma get_obj_runs {A : Type} (arr : list A) (i : nat) : runs (get_obj arr i).
Proof. unfold runs, get_obj. destruct (nth_error arr i); congruence. Qed.

Lemma reduce_add_runs (arr : list number) : runs (reduce_add arr).
Proof. unfold runs. destruct arr; cbn; congruence. Qed.

Lemma reduce_from_runs {A Acc : Type} (f : Acc -> A -> nat -> outcome Acc) :
  (forall acc x i, runs (f acc x i)) ->
  forall arr i acc, runs (reduce_from f i acc arr).
Proof.
  intros Hf. induction arr as [|x arr IH]; intros i acc; cbn [reduce_from].
  - unfold runs. congruence.
  - apply obind_runs; auto.
Qed.

Lemma map_from_runs {A B : Type} (f : A -> nat -> outcome B) :
  (forall x i, runs (f x i)) -> forall arr i, runs (map_from f i arr).
Proof.
  intros Hf. induction arr as [|x arr IH]; intros i; cbn [map_from].
  - unfold runs. congruence.
  - apply obind_runs; [apply Hf|]. intros y. apply obind_runs; [apply IH|].
    intros ys. unfold runs. congruence.
Qed.

Lemma fold_left_runs {A B : Type} (step : outcome A -> B -> outcome A) :
  (forall acc b, runs acc -> runs (step acc b)) ->
  forall bs acc, runs acc -> runs (fold_left step bs acc).
Proof. intros Hs. induction bs as [|b bs IH]; intros acc Ha; cbn [fold_left]; auto. Qed.

Lemma calculateExpectedReturn_runs (allocation : list number) (returns : list (list number)) :
  runs (calculateExpectedReturn allocation returns).
Proof.
  unfold calculateExpectedReturn, reduce. apply reduce_from_runs. intros acc x i.
  apply obind_runs; [apply get_obj_runs|]. intros row.
  apply obind_runs; [apply reduce_add_runs|]. intros total. unfold runs. congruence.
Qed.

Lemma calculatePortfolioVolatility_runs (allocation volatility : list number)
  (correlation : list (list number)) :
  runs (calculatePortfolioVolatility allocation volatility correlation).
Proof.
  unfold calculatePortfolioVolatility. apply obind_runs; [|intros v; unfold runs; congruence].
  apply fold_left_runs; [|unfold runs; congruence]. intros acc i Ha.
  apply fold_left_runs; [|exact Ha]. intros acc' j Ha'.
  apply obind_runs; [exact Ha'|]. intros v.
  apply obind_runs; [apply get_obj_runs|]. intros row. unfold runs. congruence.
Qed.

Lemma calculateFitness_runs (allocation : list number) (context : OptimizationContext) :
  runs (calculateFitness allocation context).
Proof.
  unfold calculateFitness. apply obind_runs; [apply calculateExpectedReturn_runs|].
  intros er. apply obind_runs; [apply calculatePortfolioVolatility_runs|].
  intros pv. unfold runs. congruence.
Qed.

Lemma calculateMaxDrawdown_runs (allocation : list number) (context : OptimizationContext) :
  runs (calculateMaxDrawdown allocation context).
Proof.
  unfold calculateMaxDrawdown. apply obind_runs; [apply get_obj_runs|]. intros first.
  apply obind_runs.
  - apply map_from_runs. intros x t. unfold reduce. apply reduce_from_runs.
    intros acc w i. apply obind_runs; [apply get_obj_runs|].
    intros row. unfold runs. congruence.
  - intros rs. destruct (fold_left _ _ _). unfold runs. congruence.
Qed.

Lemma Array_runs (k : number) : runs (Array_ k).
Proof. unfold runs, Array_. destruct (array_length k); congruence. Qed.

Lemma ret_runs {A : Type} (a : A) : runsM (ret a).
Proof. intros w. unfold ret. congruence. Qed.

Lemma bind_runs {A B : Type} (m : M A) (k : A -> M B) :
  runsM m -> (forall a, runsM (k a)) -> runsM (bind m k).
Proof.
  intros Hm Hk w. unfold bind. specialize (Hm w).
  destruct (m w) as [[a w']| |]; [apply Hk | congruence | congruence].
Qed.

Lemma lift_runs {A : Type} (r : outcome A) : runs r -> runsM (lift r).
Proof. intros Hr w. unfold lift. destruct r; congruence. Qed.

Lemma getThis_runs : runsM getThis.
Proof. intros w. unfold getThis. congruence. Qed.

Lemma getContext_runs : runsM getContext.
Proof. intros w. unfold getContext. congruence. Qed.

Lemma setThis_runs (o : QuantumOptimizer) : runsM (setThis o).
Proof. intros w. unfold setThis. congruence. Qed.

Lemma Math_random_runs : runsM (Math_random host).
Proof. intros w. unfold Math_random. congruence. Qed.

Lemma mapM_from_runs {A B : Type} (f : A -> nat -> M B) :
  (forall x i, runsM (f x i)) -> forall arr i, runsM (mapM_from f i arr).
Proof.
  intros Hf. induction arr as [|x arr IH]; intros i; cbn [mapM_from].
  - apply ret_runs.
  - apply bind_runs; [apply Hf|]. intros y. apply bind_runs; [apply IH|].
    intros ys. apply ret_runs.
Qed.

Lemma timesM_runs {A : Type} (m : M A) : runsM m -> forall k, runsM (timesM k m).
Proof.
  intros Hm. induction k as [|k IH]; cbn [timesM].
  - apply ret_runs.
  - apply bind_runs; [exact Hm|]. intros y. apply bind_runs; [exact IH|].
    intros ys. apply ret_runs.
Qed.

Create HintDb runs.

Hint Resolve ret_runs lift_runs getThis_runs getContext_runs setThis_runs
  Math_random_runs Array_runs get_obj_runs calculateFitness_runs
  calculateExpectedReturn_runs calculatePortfolioVolatility_runs
  calculateMaxDrawdown_runs : runs.

Ltac runs :=
  repeat first
    [ apply bind_runs; [|intros ?]
    | apply mapM_from_runs; intros ? ?
    | apply timesM_runs
    | apply map_from_runs; intros ? ?
    | apply obind_runs; [|intros ?]
    | solve [auto with runs]
    | apply lift_runs
    | match goal with |- runsM (if ?b then _ else _) => destruct b end
    | match goal with |- runs (Ok _) => unfold runs; congruence end ].

Lemma iterate_runs : runsM (iterate host).
Proof.
  unfold iterate, evolveQuantumStates, updateParticles, evaluateParticles,
    updateParticle, evaluateParticle, evolveState, trackBest, mapM,
    set_quantumStates, set_particles, set_globalBest.
  runs.
Qed.

Lemma initializeQuantumStates_runs (dimension : nat) :
  runsM (initializeQuantumStates host dimension).
Proof. unfold initializeQuantumStates, set_quantumStates. runs. Qed.

Lemma initializeParticles_runs : runsM (initializeParticles host).
Proof.
  unfold initializeParticles, generateRandomAllocation, set_particles. runs.
Qed.

Lemma search_loop_runs (n : nat) :
  forall (fuel : nat) (iteration : number) (converged : bool) (previous : number)
         (w : World),
    passes_left n iteration (iterations (config (this w))) = true ->
    (n <= fuel)%nat ->
    search_loop host fuel iteration converged previous w <> NoFuel.
Proof.
  induction n as [|n IH]; intros fuel iteration converged previous w Hp Hfuel;
    cbn [passes_left] in Hp.
  - apply negb_true_iff in Hp.
    destruct fuel; cbn [search_loop]; rewrite (bind_run _ _ w w (this w) eq_refl);
      rewrite Hp; cbn [andb]; unfold ret; congruence.
  - apply andb_true_iff in Hp as [Hlt Hp].
    destruct fuel as [|fuel]; [lia|].
    cbn [search_loop]. rewrite (bind_run _ _ w w (this w) eq_refl).
    rewrite Hlt. cbn [andb]. destruct (negb converged); [|unfold ret; congruence].
    unfold bind at 1. destruct (iterate host w) as [[u w1]| |] eqn:H1; try congruence.
    + pose proof (iterate_frame _ _ _ _ H1) as (_ & Hcfg & _).
      rewrite (bind_run _ _ w1 w1 (this w1) eq_refl).
      apply IH; [rewrite Hcfg; exact Hp | lia].
    + now apply iterate_runs in H1.
Qed.

End Fuel.

(** * The search from a fresh optimizer

    [globalBestPosition] starts empty, and [updateParticles] reads it before
    [evaluateParticles] has ever written it: [this.globalBestPosition[j]] is
    [undefined], the social term is [NaN], and so are every velocity and
    every position from the first iteration on.  The fitness of such a
    position is [NaN], which is greater than nothing: no best is ever
    recorded. *)

Section NaN.

Local Open Scope float_scope.

Lemma fold_add_nan (terms : list number) : fold_left PrimFloat.add terms nan = nan.
Proof.
  induction terms as [|t terms IH]; [reflexivity|].
  cbn [fold_left]. now rewrite Ieee.add_nan_l.
Qed.

Lemma total_nan_first (terms : list number) (acc : number) :
  fold_left PrimFloat.add (nan :: terms) acc = nan.
Proof. cbn [fold_left]. rewrite Ieee.add_nan_r. apply fold_add_nan. Qed.

Lemma get_repeat_nan (n j : nat) : get (repeat nan n) j = nan.
Proof. unfold get. apply nth_repeat. Qed.

Lemma get_nil (j : nat) : get [] j = nan.
Proof. unfold get. now destruct j. Qed.

Lemma expectedReturn_nan (n : nat) (returns : list (list number)) :
  Spec.expectedReturn (repeat nan (S n)) returns = nan.
Proof.
  unfold Spec.expectedReturn, Spec.total. rewrite repeat_length.
  cbn [seq map]. rewrite get_repeat_nan, Ieee.mul_nan_l. apply total_nan_first.
Qed.

Lemma portfolioVolatility_nan (n : nat) (vol : list number) (corr : list (list number)) :
  Spec.portfolioVolatility (repeat nan (S n)) vol corr = nan.
Proof.
  unfold Spec.portfolioVolatility, Spec.total. rewrite repeat_length.
  cbn [seq flat_map map app]. rewrite get_repeat_nan, !Ieee.mul_nan_l.
  rewrite total_nan_first. reflexivity.
Qed.

Lemma fitness_nan (n : nat) (context : OptimizationContext) :
  Spec.fitness (repeat nan (S n)) context = nan.
Proof.
  unfold Spec.fitness. rewrite expectedReturn_nan, portfolioVolatility_nan.
  unfold Spec.sharpeRatio. rewrite Ieee.div_nan_r.
  unfold Spec.penalty. rewrite Ieee.ltb_nan_r, Ieee.ltb_nan_l. reflexivity.
Qed.

Lemma valid_context_rows (c : OptimizationContext) (allocation : list number) :
  valid_context c = true ->
  List.length allocation = List.length (assets c) ->
  rows_available allocation c = true.
Proof.
  unfold valid_context, rows_available.
  rewrite !andb_true_iff, !Nat.eqb_eq, !Nat.leb_le.
  intros (((((_ & Hr) & Hne) & _) & Hc) & _) Hlen. repeat split; try assumption; lia.
Qed.

Lemma calculateFitness_nan (c : OptimizationContext) :
  valid_context c = true ->
  calculateFitness (repeat nan (List.length (assets c))) c = Ok nan.
Proof.
  intros Hv. rewrite calculateFitness_total.
  - assert (Hn : (0 < List.length (assets c))%nat).
    { unfold valid_context in Hv. rewrite !andb_true_iff in Hv.
      apply Nat.ltb_lt. apply Hv. }
    destruct (List.length (assets c)); [lia|]. now rewrite fitness_nan.
  - apply valid_context_rows; [assumption | apply repeat_length].
Qed.

Lemma clamp_nan : clamp nan 0 1 = nan.
Proof. reflexivity. Qed.

Lemma normalizeAllocation_nan (n : nat) :
  normalizeAllocation (repeat nan n) = repeat nan n.
Proof.
  unfold normalizeAllocation. generalize (fold_left PrimFloat.add (repeat nan n) 0).
  intros sum. induction n as [|n IH]; [reflexivity|].
  cbn [repeat map]. now rewrite IH, Ieee.div_nan_l.
Qed.

Lemma fold_best_nan (ps : list ParticleState) (best : list number * number) :
  Spec.fold_best (combine ps (map (fun _ => nan) ps)) best = (ps, best).
Proof.
  revert best. induction ps as [|p ps IH]; intros best; [reflexivity|].
  cbn [map combine Spec.fold_best]. unfold Spec.improve. cbn [fst snd].
  rewrite Ieee.ltb_nan_r. cbn [fst snd]. now rewrite IH.
Qed.

End NaN.

Section Fresh.

Local Open Scope float_scope.

Variable host : Host.
Variable c : OptimizationContext.
Hypothesis c_valid : valid_context c = true.

Let n : nat := List.length (assets c).

Lemma evolveQuantumStates_total (w : World) :
  exists w', evolveQuantumStates host w = Ok (tt, w').
Proof.
  unfold evolveQuantumStates.
  destruct (mapM_from_total
              (fun particleStates (_ : nat) =>
                 mapM (fun state _ => evolveState host state) particleStates)
              (fun _ _ => True) (quantumStates (this w)) 0 w) as (qs & w1 & H1 & _ & _).
  { intros k row w0 _ _.
    destruct (mapM_from_total (fun state (_ : nat) => evolveState host state)
                (fun _ _ => True) row 0 w0) as (row' & w1 & H1 & Hd & _).
    { intros j state w2 _ _. unfold evolveState, bind, Math_random, ret.
      eexists. eexists.
      split; [reflexivity|]. split; [split; reflexivity | exact I]. }
    exists row', w1. repeat split; try apply Hd. exact H1. }
  eexists. rewrite (bind_run _ _ w w (this w) eq_refl).
  unfold mapM. rewrite (bind_run _ _ _ _ _ H1). reflexivity.
Qed.

Lemma updateParticle_nan (p : ParticleState) (i : nat) (w : World) :
  globalBestPosition (this w) = [] ->
  (i < List.length (quantumStates (this w)))%nat ->
  Forall (fun row => List.length row = n) (quantumStates (this w)) ->
  unranked n p ->
  exists p' w',
    updateParticle host p i w = Ok (p', w')
    /\ only_draws w w'
    /\ position p' = repeat nan n
    /\ unranked n p'.
Proof.
  intros Hg Hi Hrows (Hp & Hv & Hb). unfold updateParticle.
  rewrite (bind_run _ _ w w (this w) eq_refl).
  destruct (mapM_from_total
    (fun v j =>
       r1 <- Math_random host;;
       r2 <- Math_random host;;
       ret (inertiaWeight * v
            + cognitiveWeight * r1 * (get (bestPosition p) j - get (position p) j)
            + socialWeight * r2 * (get (globalBestPosition (this w)) j - get (position p) j)))
    (fun _ b => b = nan) (velocity p) 0 w) as (vs & w1 & H1 & Hd & Hvs).
  { intros j v w0 _ _. unfold bind, Math_random, ret.
    eexists. eexists. split; [reflexivity|].
    split; [split; reflexivity|].
    now rewrite Hg, get_nil, Ieee.sub_nan_l, Ieee.mul_nan_r, Ieee.add_nan_r. }
  apply Forall2_const in Hvs. rewrite Hv in Hvs. subst vs.
  unfold mapM. rewrite (bind_run _ _ _ _ _ H1).
  rewrite (map_from_total _ (fun _ => nan)).
  - cbn [lift bind]. rewrite map_const, Hp, normalizeAllocation_nan.
    eexists. eexists. split; [reflexivity|]. split; [exact Hd|].
    split; [reflexivity|].
    unfold unranked. cbn. rewrite !repeat_length. auto.
  - intros k a Hk. cbn [Nat.add].
    assert (Hkn : (k < n)%nat).
    { rewrite <- Hp. apply nth_error_Some. congruence. }
    rewrite (get_obj_nth _ i []) by assumption. cbn [obind].
    assert (Hrow : List.length (nth i (quantumStates (this w)) []) = n).
    { rewrite Forall_forall in Hrows. apply Hrows, nth_In, Hi. }
    rewrite (get_obj_nth _ k {| amplitude := createComplex 0 0; phase := 0 |})
      by (rewrite Hrow; exact Hkn).
    cbn [obind]. now rewrite get_repeat_nan, Ieee.add_nan_r, Ieee.add_nan_l, clamp_nan.
Qed.

Lemma updateParticles_nan (w : World) :
  bestless c w ->
  exists w',
    updateParticles host w = Ok (tt, w')
    /\ bestless c w'
    /\ config (this w') = config (this w)
    /\ Forall (fun p => position p = repeat nan n) (this_particles (this w')).
Proof.
  intros (Hc & Hg & Hf & Hps & Hlen & Hrows). unfold updateParticles.
  rewrite (bind_run _ _ w w (this w) eq_refl).
  destruct (mapM_from_total (updateParticle host)
              (fun _ p' => position p' = repeat nan n /\ unranked n p')
              (this_particles (this w)) 0 w) as (ps & w1 & H1 & [Hc1 Ht1] & Hps').
  { intros k p w0 Hk [_ Ht0]. cbn [Nat.add].
    destruct (updateParticle_nan p k w0) as (p' & w1 & E & Hd & Hpos & Hu).
    - now rewrite Ht0.
    - rewrite Ht0, Hlen. apply nth_error_Some. congruence.
    - now rewrite Ht0.
    - rewrite Forall_forall in Hps. eapply Hps, nth_error_In, Hk.
    - exists p', w1. auto. }
  unfold mapM. rewrite (bind_run _ _ _ _ _ H1).
  eexists. split; [reflexivity|].
  assert (Hlen' : List.length ps = List.length (this_particles (this w))).
  { symmetry. eapply Forall2_length, Hps'. }
  assert (Hall : Forall (fun p' => position p' = repeat nan n /\ unranked n p') ps).
  { clear - Hps'. induction Hps'; constructor; auto. }
  unfold bestless. cbn. rewrite Hc1, Ht1.
  repeat split; try assumption; try congruence.
  - eapply Forall_impl; [|exact Hall]. now intros p' [_ ?].
  - eapply Forall_impl; [|exact Hall]. now intros p' [? _].
Qed.

Lemma evaluateParticles_nan (w : World) :
  context w = c ->
  Forall (fun p => position p = repeat nan n) (this_particles (this w)) ->
  evaluateParticles w = Ok (tt, w).
Proof.
  intros Hc Hps. rewrite evaluateParticles_run. unfold Spec.evaluate_snapshot.
  rewrite (map_from_total _ (fun _ => nan)).
  - cbn [obind]. rewrite fold_best_nan. cbn [fst snd].
    destruct w as [c0 [cfg ps qs gp gf] d]. reflexivity.
  - intros k p Hk. rewrite Forall_forall in Hps.
    rewrite (Hps p (nth_error_In _ _ Hk)), Hc. now apply calculateFitness_nan.
Qed.

(** One iteration leaves the search without a best. *)
Lemma iterate_bestless (w : World) :
  bestless c w ->
  exists w', iterate host w = Ok (tt, w')
             /\ bestless c w' /\ config (this w') = config (this w).
Proof.
  intros Hw. unfold iterate.
  destruct (evolveQuantumStates_total w) as (w1 & H1).
  pose proof (evolveQuantumStates_frame _ _ _ _ H1) as ((Hc1 & Hcfg1 & Hg1 & Hf1) & Hp1 & Hq1).
  assert (Hw1 : bestless c w1).
  { destruct Hw as (Hc & Hg & Hf & Hps & Hlen & Hrows).
    unfold bestless. rewrite Hc1, Hg1, Hf1, Hp1. repeat split; try assumption.
    - rewrite <- (Forall2_length Hq1). exact Hlen.
    - clear - Hq1 Hrows. induction Hq1; inversion Hrows; subst; constructor; auto.
      congruence. }
  destruct (updateParticles_nan w1 Hw1) as (w2 & H2 & Hw2 & Hcfg2 & Hnan).
  rewrite (bind_run _ _ _ _ _ H1), (bind_run _ _ _ _ _ H2).
  exists w2. split; [|split; [exact Hw2 | congruence]].
  apply evaluateParticles_nan; [apply Hw2 | exact Hnan].
Qed.

Lemma iterated_front (k : nat) (w : World) :
  iterated host (S k) w = (_ <- iterate host;; iterated host k) w.
Proof.
  revert w. induction k as [|k IH]; intros w.
  - cbn [iterated]. unfold bind, ret.
    destruct (iterate host w) as [[[] w1]|e|]; reflexivity.
  - change (iterated host (S (S k)) w)
      with ((_ <- iterated host (S k);; iterate host) w).
    unfold bind at 1. rewrite IH. unfold bind at 1 2.
    destruct (iterate host w) as [[u w1]|e|]; reflexivity.
Qed.

(** As long as no best is recorded the difference of the global bests is
    NaN at every pass, whatever the threshold: the loop makes the [k]
    passes that its counter allows, and they are the first [k] iterations. *)
Lemma search_loop_bestless (k : nat) :
  forall (fuel : nat) (iteration : number) (w : World),
    bestless c w ->
    passes_left k iteration (iterations (config (this w))) = true ->
    (k <= fuel)%nat ->
    exists w',
      search_loop host fuel iteration false neg_infinity w
      = Ok (counted k iteration, w')
      /\ iterated host k w = Ok (tt, w')
      /\ bestless c w' /\ config (this w') = config (this w).
Proof.
  induction k as [|k IH]; intros fuel iteration w Hw Hp Hfuel;
    cbn [passes_left] in Hp.
  - apply negb_true_iff in Hp. exists w.
    split; [|split; [reflexivity | auto]].
    destruct fuel; cbn [search_loop counted];
      rewrite (bind_run _ _ w w (this w) eq_refl), Hp; reflexivity.
  - apply andb_true_iff in Hp as [Hlt Hp]. destruct fuel as [|fuel]; [lia|].
    destruct (iterate_bestless w Hw) as (w1 & H1 & Hw1 & Hcfg).
    destruct (IH fuel (iteration + 1) w1 Hw1) as (w2 & H2 & Hk & Hw2 & Hcfg2).
    { rewrite Hcfg. exact Hp. }
    { lia. }
    exists w2. split; [|split; [|split; [exact Hw2 | congruence]]].
    + cbn [search_loop counted].
      rewrite (bind_run _ _ w w (this w) eq_refl), Hlt. cbn [andb negb].
      rewrite (bind_run _ _ _ _ _ H1), (bind_run _ _ w1 w1 (this w1) eq_refl).
      assert (Hf : globalBestFitness (this w1) = neg_infinity) by apply Hw1.
      rewrite Hf. unfold lt at 1.
      change (Math_abs (neg_infinity - neg_infinity)) with nan.
      rewrite Ieee.ltb_nan_l. exact H2.
    + rewrite iterated_front, (bind_run _ _ _ _ _ H1). exact Hk.
Qed.

Lemma initializeQuantumStates_total (w : World) (count : nat) :
  array_length (particles (config (this w))) = Some count ->
  exists w',
    initializeQuantumStates host n w = Ok (tt, w')
    /\ keeps_best w w'
    /\ List.length (quantumStates (this w')) = count
    /\ Forall (fun row => List.length row = n) (quantumStates (this w')).
Proof.
  intros Hp. unfold initializeQuantumStates.
  rewrite (bind_run _ _ w w (this w) eq_refl).
  unfold Array_. rewrite Hp. cbn [lift bind].
  match goal with |- context [timesM ?k (timesM n ?m)] =>
    destruct (timesM_total (timesM n m) (fun row => List.length row = n) k w)
      as (qs & w1 & H1 & [Hc Ht] & Hlen & Hrows)
  end.
  { intros w0 _.
    match goal with |- context [timesM n ?m] =>
      destruct (timesM_total m (fun _ => True) n w0) as (row & w1 & H1 & Hd & Hlen & _)
    end.
    { intros w2 _. unfold bind, Math_random, ret. eexists. eexists.
      split; [reflexivity|]. split; [split; reflexivity | exact I]. }
    exists row, w1. auto. }
  rewrite (bind_run _ _ _ _ _ H1). eexists. split; [reflexivity|].
  unfold keeps_best. cbn. rewrite Hc, Ht. repeat split; assumption.
Qed.

Lemma initializeParticles_total (w : World) (count : nat) :
  context w = c ->
  array_length (particles (config (this w))) = Some count ->
  exists w',
    initializeParticles host w = Ok (tt, w')
    /\ keeps_best w w'
    /\ quantumStates (this w') = quantumStates (this w)
    /\ List.length (this_particles (this w')) = count
    /\ Forall (unranked n) (this_particles (this w')).
Proof.
  intros Hctx Hp. unfold initializeParticles.
  rewrite (bind_run _ _ w w (context w) eq_refl), (bind_run _ _ w w (this w) eq_refl).
  unfold Array_. rewrite Hp, Hctx. cbn [lift bind]. fold n.
  match goal with |- context [timesM ?k ?m] =>
    destruct (timesM_total m (unranked n) k w) as (ps & w1 & H1 & [Hc Ht] & Hlen & Hps)
  end.
  { intros w0 _. unfold generateRandomAllocation.
    destruct (timesM_total (Math_random host) (fun _ => True) n w0)
      as (allocation & w1 & H1 & Hd & Hlen & _).
    { intros w2 _. unfold Math_random. eexists. eexists.
      split; [reflexivity|]. split; [split; reflexivity | exact I]. }
    eexists. exists w1. unfold bind at 1 2. rewrite H1. cbn [ret].
    split; [reflexivity|]. split; [exact Hd|].
    unfold unranked, normalizeAllocation. cbn.
    rewrite length_map, repeat_length. auto. }
  rewrite (bind_run _ _ _ _ _ H1). eexists. split; [reflexivity|].
  unfold keeps_best. cbn. rewrite Hc, Ht. repeat split; assumption.
Qed.

Lemma constructOptimizationResult_bestless (w : World) :
  bestless c w ->
  exists r,
    constructOptimizationResult w = Ok (r, w)
    /\ allocation r = []
    /\ metrics_sharpeRatio (metrics r) = neg_infinity.
Proof.
  intros (Hc & Hg & Hf & _). unfold constructOptimizationResult.
  rewrite (bind_run _ _ w w (context w) eq_refl), (bind_run _ _ w w (this w) eq_refl).
  rewrite Hg, Hf, Hc. cbn [calculateExpectedReturn reduce reduce_from lift bind].
  cbn [calculatePortfolioVolatility List.length seq fold_left obind lift].
  unfold calculateMaxDrawdown.
  assert (Hr : (0 < List.length (returns (historicalData c)))%nat).
  { pose proof c_valid as Hv. unfold valid_context in Hv.
    rewrite !andb_true_iff, !Nat.eqb_eq, Nat.ltb_lt in Hv. lia. }
  rewrite (get_obj_nth _ 0 []) by exact Hr. cbn [obind].
  rewrite (map_from_total _ (fun _ => 0)) by reflexivity. cbn [obind].
  destruct (fold_left _ _ _) as [dd pk]. cbn [lift ret].
  eexists. split; [reflexivity|]. split; reflexivity.
Qed.

(** From a fresh optimizer the two initialisations leave a state with no
    best recorded. *)
Lemma initialized_bestless (arg : ConfigArg) (seed count : nat) :
  array_length (particles (config (constructor arg))) = Some count ->
  exists w0,
    (_ <- initializeQuantumStates host n;; initializeParticles host)
      {| context := c; this := constructor arg; draws := seed |} = Ok (tt, w0)
    /\ bestless c w0
    /\ config (this w0) = config (constructor arg).
Proof.
  intros Hp.
  set (w := {| context := c; this := constructor arg; draws := seed |}).
  destruct (initializeQuantumStates_total w count Hp)
    as (w1 & H1 & (Hc1 & Hcfg1 & Hg1 & Hf1) & Hl1 & Hr1).
  rewrite (bind_run _ _ _ _ _ H1).
  destruct (initializeParticles_total w1 count)
    as (w2 & H2 & (Hc2 & Hcfg2 & Hg2 & Hf2) & Hq2 & Hl2 & Hps).
  { now rewrite Hc1. }
  { rewrite Hcfg1. exact Hp. }
  exists w2. split; [exact H2|]. split; [|rewrite Hcfg2, Hcfg1; reflexivity].
  unfold bestless. rewrite Hc2, Hc1, Hg2, Hg1, Hf2, Hf1, Hq2, Hl2, Hl1.
  repeat split; assumption.
Qed.

(** From a fresh optimizer the search makes the [k] passes that its counter
    allows and ends as it began, with no best recorded. *)
Lemma optimize_search_fresh (arg : ConfigArg) (seed count k fuel : nat) :
  array_length (particles (config (constructor arg))) = Some count ->
  passes (iterations (config (constructor arg))) k = true ->
  (k <= fuel)%nat ->
  exists w0 w',
    (_ <- initializeQuantumStates host n;; initializeParticles host)
      {| context := c; this := constructor arg; draws := seed |} = Ok (tt, w0)
    /\ iterated host k w0 = Ok (tt, w')
    /\ optimize_search host fuel {| context := c; this := constructor arg; draws := seed |}
       = Ok (counted k 0, w')
    /\ bestless c w'.
Proof.
  intros Hp Hk Hfuel.
  destruct (initialized_bestless arg seed count Hp) as (w0 & H0 & Hw0 & Hcfg).
  destruct (search_loop_bestless k fuel 0 w0 Hw0) as (w3 & H3 & Hit & Hw3 & _).
  { rewrite Hcfg. exact Hk. }
  { exact Hfuel. }
  exists w0, w3. split; [exact H0|]. split; [exact Hit|]. split; [|exact Hw3].
  unfold optimize_search.
  set (w := {| context := c; this := constructor arg; draws := seed |}) in *.
  rewrite (bind_run _ _ w w (context w) eq_refl). cbn [context w]. fold n.
  revert H0. unfold bind.
  destruct (initializeQuantumStates host n w) as [[u1 w1]|e|]; try discriminate.
  intros H0. rewrite H0. exact H3.
Qed.

Lemma run_fresh (arg : ConfigArg) (seed count k fuel : nat) :
  array_length (particles (config (constructor arg))) = Some count ->
  passes (iterations (config (constructor arg))) k = true ->
  (k <= fuel)%nat ->
  exists r w',
    run host fuel arg c seed = Ok (r, w')
    /\ allocation r = []
    /\ metrics_sharpeRatio (metrics r) = neg_infinity
    /\ context w' = c.
Proof.
  intros Hp Hk Hfuel. unfold run, optimize.
  destruct (optimize_search_fresh arg seed count k fuel Hp Hk Hfuel)
    as (w0 & w' & _ & _ & H & Hw').
  rewrite (bind_run _ _ _ _ _ H).
  destruct (constructOptimizationResult_bestless w' Hw') as (r & Hr & Ha & Hs).
  exists r, w'. repeat split; try assumption. apply Hw'.
Qed.

End Fresh.

(** * The whole call *)

Section Optimize.

Local Open Scope float_scope.

Variable host : Host.

Lemma Math_random_frame (w w' : World) (x : number) :
  Math_random host w = Ok (x, w') -> only_draws w w'.
Proof. apply Math_random_only_draws. Qed.

Lemma initializeQuantumStates_frame (dimension : nat) (w w' : World) (u : unit) :
  initializeQuantumStates host dimension w = Ok (u, w') -> keeps_input w w'.
Proof.
  unfold initializeQuantumStates. intros H.
  open_bind H o w0 H0. inversion H0; subst o w0; clear H0.
  open_bind H k w1 H1. apply lift_inv in H1 as [_ ->].
  open_bind H states w2 H2.
  eapply timesM_only_draws in H2 as [[Hc Ht] _].
  2:{ intros w0 row w3 E. eapply timesM_only_draws in E as [E _]; [exact E|].
      intros w4 state w5 E'. open_bind E' re w6 E1. open_bind E' im w7 E2.
      open_bind E' r w8 E3. inversion E'; subst.
      apply Math_random_frame in E1, E2, E3.
      eapply only_draws_trans; [|exact E3]. eapply only_draws_trans; eassumption. }
  unfold set_quantumStates in H. open_bind H o w3 H3. inversion H3; subst o w3; clear H3.
  inversion H; subst w'. unfold keeps_input. cbn. now rewrite Hc, Ht.
Qed.

Lemma initializeParticles_frame (w w' : World) (u : unit) :
  initializeParticles host w = Ok (u, w') -> keeps_input w w'.
Proof.
  unfold initializeParticles. intros H.
  open_bind H ctx w0 H0. inversion H0; subst ctx w0; clear H0.
  open_bind H o w0 H0. inversion H0; subst o w0; clear H0.
  open_bind H k w1 H1. apply lift_inv in H1 as [_ ->].
  open_bind H ps w2 H2.
  eapply timesM_only_draws in H2 as [[Hc Ht] _].
  2:{ intros w0 p w3 E. open_bind E position w4 E1. inversion E; subst.
      unfold generateRandomAllocation in E1. open_bind E1 allocation w5 E2.
      inversion E1; subst.
      eapply timesM_only_draws in E2 as [E2 _]; [exact E2|].
      intros ? ? ?. apply Math_random_frame. }
  unfold set_particles in H. open_bind H o w3 H3. inversion H3; subst o w3; clear H3.
  inversion H; subst w'. unfold keeps_input. cbn. now rewrite Hc, Ht.
Qed.

Lemma search_loop_frame (fuel : nat) :
  forall (iteration : number) (converged : bool) (previous : number) (w w' : World)
         (k : number),
    search_loop host fuel iteration converged previous w = Ok (k, w') ->
    keeps_input w w'.
Proof.
  induction fuel as [|fuel IH]; intros iteration converged previous w w' k H;
    cbn [search_loop] in H; open_bind H o w0 H0; inversion H0; subst o w0; clear H0;
    destruct (lt iteration (iterations (config (this w))) && negb converged)%bool;
    try discriminate; try (inversion H; subst; split; reflexivity).
  open_bind H u w1 H1. open_bind H o w2 H2. inversion H2; subst o w2; clear H2.
  apply iterate_frame in H1 as (Hc & Hg & _). apply IH in H as [Hc' Hg'].
  split; congruence.
Qed.

Lemma constructOptimizationResult_frame (w w' : World) (r : OptimizationResult) :
  constructOptimizationResult w = Ok (r, w') ->
  w' = w /\ allocation r = globalBestPosition (this w).
Proof.
  unfold constructOptimizationResult. intros H.
  open_bind H ctx w0 H0. inversion H0; subst ctx w0; clear H0.
  open_bind H o w0 H0. inversion H0; subst o w0; clear H0.
  open_bind H er w1 H1. apply lift_inv in H1 as [_ ->].
  open_bind H vol w2 H2. apply lift_inv in H2 as [_ ->].
  open_bind H dd w3 H3. apply lift_inv in H3 as [_ ->].
  inversion H; subst. split; reflexivity.
Qed.

Lemma optimize_frame (fuel : nat) (w w' : World) (r : OptimizationResult) :
  optimize host fuel w = Ok (r, w') -> keeps_input w w'.
Proof.
  unfold optimize, optimize_search. intros H.
  open_bind H k w1 H1. apply constructOptimizationResult_frame in H as [-> _].
  open_bind H1 ctx w0 H0. inversion H0; subst ctx w0; clear H0.
  open_bind H1 u1 w2 H2. open_bind H1 u2 w3 H3.
  apply initializeQuantumStates_frame in H2 as [Hc2 Hg2].
  apply initializeParticles_frame in H3 as [Hc3 Hg3].
  apply search_loop_frame in H1 as [Hc1 Hg1].
  split; congruence.
Qed.

Lemma valid_config_particles (cfg : QuantumConfig) :
  valid_config cfg = true ->
  exists count, array_length (particles cfg) = Some count /\ (0 < count)%nat.
Proof.
  unfold valid_config. destruct (array_length (particles cfg)) as [count|];
    [|discriminate].
  intros H. apply Nat.ltb_lt in H. now exists count.
Qed.


(** C1, the code at its inputs.  For every valid context and configuration
    and every random source, [optimize] returns once its counter has
    reached the cap, and the allocation it returns is the empty vector,
    with -Infinity reported as Sharpe ratio: the elements do not sum to
    1. *)
Theorem optimize_returns_empty_allocation :
  forall (arg : ConfigArg) (ctx : OptimizationContext) (seed n fuel : nat),
    valid_context ctx = true ->
    valid_config (config (constructor arg)) = true ->
    passes (iterations (config (constructor arg))) n = true ->
    (n <= fuel)%nat ->
    exists r w',
      run host fuel arg ctx seed = Ok (r, w')
      /\ allocation r = []
      /\ fold_left PrimFloat.add (allocation r) 0 = 0
      /\ metrics_sharpeRatio (metrics r) = neg_infinity.
Proof.
  intros arg ctx seed n fuel Hctx Hcfg Hn Hfuel.
  apply valid_config_particles in Hcfg as (count & Hp & _).
  destruct (run_fresh host ctx Hctx arg seed count n fuel Hp Hn Hfuel)
    as (r & w' & H & Ha & Hs & _).
  exists r, w'. rewrite Ha. auto.
Qed.


(** C9.  Whenever [optimize] returns, the context it was given is what it
    was before the call, asset list, constraints, market regime and
    historical data alike, and so is the configuration: only the particles,
    the quantum states and the global best of the optimizer, and the random
    source, have changed. *)
Theorem optimize_keeps_context :
  forall (fuel : nat) (w w' : World) (r : OptimizationResult),
    optimize host fuel w = Ok (r, w') ->
    context w' = context w
    /\ assets (context w') = assets (context w)
    /\ constraints (context w') = constraints (context w)
    /\ marketRegime (context w') = marketRegime (context w)
    /\ historicalData (context w') = historicalData (context w)
    /\ config (this w') = config (this w).
Proof.
  intros fuel w w' r H. apply optimize_frame in H as [Hc Hg].
  rewrite Hc. repeat split. exact Hg.
Qed.

End Optimize.

Lemma optimize_returns_empty_allocation_witness :
  exists r w',
    run Scenario.host 50 Scenario.arg Scenario.two_assets 0 = Ok (r, w')
    /\ allocation r = []
    /\ fold_left PrimFloat.add (allocation r) 0%float = 0%float
    /\ metrics_sharpeRatio (metrics r) = neg_infinity.
Proof.
  apply (optimize_returns_empty_allocation
           Scenario.host Scenario.arg Scenario.two_assets 0 50 50);
    [reflexivity | reflexivity | vm_compute; reflexivity | lia].
Defined.



Lemma optimize_keeps_context_witness :
  exists r w',
    run Scenario.host 50 Scenario.arg Scenario.two_assets 0 = Ok (r, w')
    /\ context w' = Scenario.two_assets.
Proof.
  eexists. eexists. split; [vm_compute; reflexivity|].
  eapply proj1.
  eapply (optimize_keeps_context Scenario.host 50
            {| context := Scenario.two_assets; this := constructor Scenario.arg; draws := 0 |}).
  vm_compute. reflexivity.
Defined.

(** * More of binary64

    Two numbers that are not NaN are comparable, [<] is transitive, a
    square root is never negative, and what the difference of a number with
    itself or with -Infinity is; the products with 1 and with 0; which
    numbers are array lengths. *)

Module Binary64.

Import Rank.

Local Open Scope float_scope.

Lemma lex_antisym (a b : Z * Z * Z) : lex b a = CompOpp (lex a b).
Proof.
  unfold lex.
  rewrite (Z.compare_antisym (fst (fst a)) (fst (fst b))).
  destruct (fst (fst a) ?= fst (fst b))%Z; cbn; try reflexivity.
  rewrite (Z.compare_antisym (snd (fst a)) (snd (fst b))).
  destruct (snd (fst a) ?= snd (fst b))%Z; cbn; try reflexivity.
  apply Z.compare_antisym.
Qed.

Lemma lex_lt_trans (a b c : Z * Z * Z) : lex a b = Lt -> lex b c = Lt -> lex a c = Lt.
Proof.
  unfold lex.
  destruct (Z.compare_spec (fst (fst a)) (fst (fst b)));
    destruct (Z.compare_spec (fst (fst b)) (fst (fst c)));
    destruct (Z.compare_spec (fst (fst a)) (fst (fst c)));
    try discriminate; try lia; try reflexivity.
  destruct (Z.compare_spec (snd (fst a)) (snd (fst b)));
    destruct (Z.compare_spec (snd (fst b)) (snd (fst c)));
    destruct (Z.compare_spec (snd (fst a)) (snd (fst c)));
    try discriminate; try lia; try reflexivity.
  rewrite !Z.compare_lt_iff. lia.
Qed.

Lemma ltb_false_leb (x y : float) :
  is_nan x = false -> is_nan y = false -> (x <? y) = false -> (y <=? x) = true.
Proof.
  intros Hx Hy. apply Ieee.not_nan_spec in Hx. apply Ieee.not_nan_spec in Hy.
  rewrite ltb_spec, leb_spec. unfold SFltb, SFleb.
  rewrite (Ieee.SFcompare_rank _ _ Hx Hy), (Ieee.SFcompare_rank _ _ Hy Hx).
  rewrite (lex_antisym (rank (Prim2SF x)) (rank (Prim2SF y))).
  destruct (lex (rank (Prim2SF x)) (rank (Prim2SF y))); cbn; congruence.
Qed.

Lemma leb_not_nan (x y : float) :
  (x <=? y) = true -> is_nan x = false /\ is_nan y = false.
Proof.
  intros H. apply Ieee.leb_rank in H as (Hx & Hy & _).
  split; apply Ieee.not_nan_spec; assumption.
Qed.

Lemma ltb_rank (x y : float) :
  (x <? y) = true
  <-> Prim2SF x <> S754_nan /\ Prim2SF y <> S754_nan
      /\ lex (rank (Prim2SF x)) (rank (Prim2SF y)) = Lt.
Proof.
  rewrite ltb_spec. unfold SFltb. split.
  - intros H.
    assert (Hx : Prim2SF x <> S754_nan) by (intros E; rewrite E in H; discriminate).
    assert (Hy : Prim2SF y <> S754_nan).
    { intros E; rewrite E in H.
      destruct (Prim2SF x) as [ [|] | [|] | | [|] m e ]; discriminate. }
    rewrite (Ieee.SFcompare_rank _ _ Hx Hy) in H.
    repeat split; try assumption.
    destruct (lex _ _); congruence.
  - intros (Hx & Hy & H). rewrite (Ieee.SFcompare_rank _ _ Hx Hy), H. reflexivity.
Qed.

Lemma ltb_trans (x y z : float) :
  (x <? y) = true -> (y <? z) = true -> (x <? z) = true.
Proof.
  rewrite !ltb_rank. intros (Hx & _ & H1) (_ & Hz & H2).
  repeat split; try assumption. eapply lex_lt_trans; eassumption.
Qed.

Lemma sqrt_not_negative (x : float) :
  is_nan (PrimFloat.sqrt x) = true \/ (0 <=? PrimFloat.sqrt x) = true.
Proof.
  destruct (is_nan (PrimFloat.sqrt x)) eqn:Hn; [left; reflexivity | right].
  apply Ieee.not_nan_spec in Hn. revert Hn.
  rewrite leb_spec, sqrt_spec. change (Prim2SF 0) with (S754_zero false).
  unfold SF64sqrt, SFsqrt.
  destruct (Prim2SF x) as [ [|] | [|] | | [|] m e ]; try reflexivity; try congruence.
  destruct (SFsqrt_core_binary prec emax (Z.pos m) e) as [[mz ez] lz].
  unfold binary_round_aux.
  destruct (shr_fexp prec emax mz ez lz) as [mrs' e'].
  destruct (shr_fexp prec emax _ e' loc_Exact) as [mrs'' e''].
  destruct (shr_m mrs''); try congruence; try reflexivity.
  destruct (e'' <=? emax - prec)%Z; reflexivity.
Qed.

Lemma sub_diag (x : float) : is_finite x = true -> x - x = 0.
Proof.
  rewrite Ieee.is_finite_spec. intros Hf.
  apply Prim2SF_inj. rewrite sub_spec. change (Prim2SF 0) with (S754_zero false).
  unfold SF64sub, SFsub.
  destruct (Prim2SF x) as [ [|] | [|] | | s m e ]; try reflexivity; try discriminate.
  rewrite Z.sub_diag. reflexivity.
Qed.

Lemma neg_infinity_sub (y : float) : (neg_infinity <? neg_infinity - y) = false.
Proof.
  rewrite ltb_spec, sub_spec. change (Prim2SF neg_infinity) with (S754_infinity true).
  unfold SF64sub, SFsub, SFltb.
  destruct (Prim2SF y) as [ [|] | [|] | | [|] m e ]; reflexivity.
Qed.

(** *** Multiplying by one and by zero *)





Lemma is_zero_intro (x : float) (s : bool) : Prim2SF x = S754_zero s -> is_zero x = true.
Proof.
  intros E. unfold is_zero. rewrite eqb_spec, E. reflexivity.
Qed.






(** *** Numbers as array lengths *)

Lemma digits2_pos_bounds (m : positive) :
  (2 ^ (Z.pos (digits2_pos m) - 1) <= Z.pos m < 2 ^ Z.pos (digits2_pos m))%Z.
Proof.
  induction m as [m IH|m IH|]; cbn [digits2_pos]; [| |cbn; lia];
    rewrite Pos2Z.inj_succ;
    replace (Z.succ (Z.pos (digits2_pos m)) - 1)%Z
      with (Z.succ (Z.pos (digits2_pos m) - 1))%Z by lia;
    rewrite !Z.pow_succ_r by lia; lia.
Qed.

(** A negative number is not an array length. *)
Lemma array_length_negative (k : float) : (k <? 0) = true -> array_length k = None.
Proof.
  rewrite ltb_spec. unfold array_length, integer_of.
  change (Prim2SF 0) with (S754_zero false).
  destruct (Prim2SF k) as [s|[|]| |[|] m e]; try discriminate; try reflexivity.
  intros _. cbn [cond_Zopp].
  destruct (0 <=? e)%Z eqn:He.
  - apply Z.leb_le in He.
    assert (0 < Z.pos m * 2 ^ e)%Z by (apply Z.mul_pos_pos; [lia | apply Z.pow_pos_nonneg; lia]).
    destruct (Z.leb_spec 0 (- (Z.pos m * 2 ^ e))); [lia | reflexivity].
  - apply Z.leb_gt in He.
    destruct (Z.eqb_spec (Z.pos m mod 2 ^ (- e)) 0) as [Hd|Hd]; [|reflexivity].
    assert (Hpow : (0 < 2 ^ (- e))%Z) by (apply Z.pow_pos_nonneg; lia).
    pose proof (Z.div_mod (Z.pos m) (2 ^ (- e)) ltac:(lia)) as Hdm.
    rewrite Hd in Hdm.
    assert (0 < Z.pos m / 2 ^ (- e))%Z by nia.
    destruct (Z.leb_spec 0 (- (Z.pos m / 2 ^ (- e)))); [lia | reflexivity].
Qed.

(** Neither is a number of 2^32 or more. *)
Lemma array_length_too_long (k : float) :
  (4294967296 <=? k) = true -> array_length k = None.
Proof.
  rewrite leb_spec. unfold array_length, integer_of.
  change (Prim2SF 4294967296) with (S754_finite false 4503599627370496 (-20)).
  pose proof (Prim2SF_valid k) as Hv.
  destruct (Prim2SF k) as [s|[|]| |[|] m e]; try discriminate; try reflexivity.
  cbn [SpecFloat.valid_binary] in Hv. unfold SpecFloat.bounded, SpecFloat.canonical_mantissa in Hv.
  apply andb_true_iff in Hv as [Hc _]. apply Z.eqb_eq in Hc.
  unfold SpecFloat.fexp, SpecFloat.emin in Hc. pose proof (digits2_pos_bounds m) as Hm.
  unfold SFleb, SFcompare. intros H.
  assert (Hbig : (-20 <= e /\ 2 ^ 52 <= Z.pos m)%Z).
  { destruct (Z.compare_spec (-20) e) as [He|He|He]; try discriminate.
    - subst e. split; [lia|].
      rewrite Pos.compare_cont_spec in H. cbn [Pos.switch_Eq] in H.
      destruct (Pos.compare_spec 4503599627370496 m) as [Hp|Hp|Hp];
        try discriminate; lia.
    - split; [lia|].
      assert (Hd : Z.pos (digits2_pos m) = 53%Z) by (unfold prec, emax in Hc; lia).
      rewrite Hd in Hm. change (2 ^ (53 - 1))%Z with (2 ^ 52)%Z in Hm. lia. }
  clear H. destruct Hbig as [He Hm52]. cbn [cond_Zopp].
  destruct (0 <=? e)%Z eqn:He0.
  - apply Z.leb_le in He0.
    assert (1 <= 2 ^ e)%Z by (apply (Z.pow_le_mono_r 2 0 e); lia).
    assert (2 ^ 32 < 2 ^ 52)%Z by (cbn; lia).
    assert (Hz : (2 ^ 32 <= Z.pos m * 2 ^ e)%Z) by nia.
    destruct (Z.ltb_spec (Z.pos m * 2 ^ e) (2 ^ 32)); [lia|].
    rewrite andb_false_r. reflexivity.
  - apply Z.leb_gt in He0.
    destruct (Z.eqb_spec (Z.pos m mod 2 ^ (- e)) 0) as [Hd|Hd]; [|reflexivity].
    assert (Hpow : (0 < 2 ^ (- e) <= 2 ^ 20)%Z).
    { split; [apply Z.pow_pos_nonneg; lia | apply Z.pow_le_mono_r; lia]. }
    pose proof (Z.div_mod (Z.pos m) (2 ^ (- e)) ltac:(lia)) as Hdm.
    rewrite Hd in Hdm.
    assert (H52 : (2 ^ 52 = 2 ^ 32 * 2 ^ 20)%Z) by reflexivity.
    assert (Hz : (2 ^ 32 <= Z.pos m / 2 ^ (- e))%Z) by nia.
    destruct (Z.ltb_spec (Z.pos m / 2 ^ (- e)) (2 ^ 32)); [lia|].
    rewrite andb_false_r. reflexivity.
Qed.

(** A truthy number that is an array length is a positive one. *)
Lemma array_length_truthy (k : float) (count : nat) :
  truthy k = true -> array_length k = Some count -> (0 < count)%nat.
Proof.
  unfold truthy. intros Ht Hlen.
  assert (Hnz : forall s, Prim2SF k <> S754_zero s).
  { intros s E. rewrite (is_zero_intro _ _ E) in Ht. discriminate. }
  revert Hlen. unfold array_length, integer_of.
  destruct (Prim2SF k) as [s|s| |s m e]; try discriminate.
  - destruct (Hnz s eq_refl).
  - clear Hnz.
    assert (Hpos : forall z, (0 < z)%Z ->
              (if ((0 <=? cond_Zopp s z) && (cond_Zopp s z <? 2 ^ 32))%Z
               then Some (Z.to_nat (cond_Zopp s z)) else None) = Some count ->
              (0 < count)%nat).
    { intros z Hz. destruct s; cbn [cond_Zopp].
      - destruct (Z.leb_spec 0 (- z)); [lia | discriminate].
      - destruct ((0 <=? z) && (z <? 2 ^ 32))%Z; [|discriminate].
        intros E. inversion E. lia. }
    destruct (0 <=? e)%Z eqn:He.
    + apply Z.leb_le in He. apply Hpos.
      apply Z.mul_pos_pos; [lia | apply Z.pow_pos_nonneg; lia].
    + apply Z.leb_gt in He.
      destruct (Z.eqb_spec (Z.pos m mod 2 ^ (- e)) 0) as [Hd|Hd]; [|discriminate].
      apply Hpos.
      assert (Hpow : (0 < 2 ^ (- e))%Z) by (apply Z.pow_pos_nonneg; lia).
      pose proof (Z.div_mod (Z.pos m) (2 ^ (- e)) ltac:(lia)) as Hdm.
      rewrite Hd in Hdm. nia.
Qed.

End Binary64.

(** * The quantum states: rotation and rounding

    [evolveQuantumStates] applies the rotation formula to each amplitude,
    in binary64 and with the cosine and the sine of the host.  The
    magnitude is rounded at each step; what is exact is the dependence of
    the confidence on the magnitudes, and the rotation by the cosine 1 and
    the sine 0. *)



Section Rotation.

Local Open Scope float_scope.

Variable host : Host.








End Rotation.


(** * The numeric helpers at their edges

    [clamp], [calculateConfidence] and [normalizeAllocation] on NaN, on an
    empty grid and on a sum of zero. *)

Section Helpers.

Local Open Scope float_scope.

Lemma Math_min_cases (a b : number) :
  is_nan a = false -> is_nan b = false ->
  (Math_min a b = a \/ Math_min a b = b)
  /\ (Math_min a b <=? a) = true /\ (Math_min a b <=? b) = true.
Proof.
  intros Ha Hb. unfold Math_min. rewrite Ha, Hb. cbn [orb].
  destruct (a <? b) eqn:Hab.
  - repeat split; [left; reflexivity | apply Ieee.leb_refl; assumption
                  | apply Ieee.ltb_leb; assumption].
  - destruct (b <? a) eqn:Hba.
    + repeat split; [right; reflexivity | apply Ieee.ltb_leb; assumption
                    | apply Ieee.leb_refl; assumption].
    + destruct (get_sign a).
      * repeat split; [left; reflexivity | apply Ieee.leb_refl; assumption
                      | apply Binary64.ltb_false_leb; assumption].
      * repeat split; [right; reflexivity | apply Binary64.ltb_false_leb; assumption
                      | apply Ieee.leb_refl; assumption].
Qed.

Lemma Math_max_cases (a b : number) :
  is_nan a = false -> is_nan b = false ->
  (Math_max a b = a \/ Math_max a b = b)
  /\ (a <=? Math_max a b) = true /\ (b <=? Math_max a b) = true.
Proof.
  intros Ha Hb. unfold Math_max. rewrite Ha, Hb. cbn [orb].
  destruct (b <? a) eqn:Hba.
  - repeat split; [left; reflexivity | apply Ieee.leb_refl; assumption
                  | apply Ieee.ltb_leb; assumption].
  - destruct (a <? b) eqn:Hab.
    + repeat split; [right; reflexivity | apply Ieee.ltb_leb; assumption
                    | apply Ieee.leb_refl; assumption].
    + destruct (get_sign a).
      * repeat split; [right; reflexivity | apply Binary64.ltb_false_leb; assumption
                      | apply Ieee.leb_refl; assumption].
      * repeat split; [left; reflexivity | apply Ieee.leb_refl; assumption
                      | apply Binary64.ltb_false_leb; assumption].
Qed.

Lemma Math_min_is_nan (a b : number) :
  is_nan (Math_min a b) = is_nan a || is_nan b.
Proof.
  destruct (is_nan a) eqn:Ha; [unfold Math_min; rewrite Ha; reflexivity|].
  destruct (is_nan b) eqn:Hb; [unfold Math_min; rewrite Ha, Hb; reflexivity|].
  destruct (Math_min_cases a b Ha Hb) as ([E | E] & _); rewrite E; cbn; assumption.
Qed.

Lemma Math_max_is_nan (a b : number) :
  is_nan (Math_max a b) = is_nan a || is_nan b.
Proof.
  destruct (is_nan a) eqn:Ha; [unfold Math_max; rewrite Ha; reflexivity|].
  destruct (is_nan b) eqn:Hb; [unfold Math_max; rewrite Ha, Hb; reflexivity|].
  destruct (Math_max_cases a b Ha Hb) as ([E | E] & _); rewrite E; cbn; assumption.
Qed.

Lemma clamp_is_nan (value min max : number) :
  is_nan (clamp value min max) = is_nan value || is_nan min || is_nan max.
Proof.
  unfold clamp. rewrite Math_max_is_nan, Math_min_is_nan.
  destruct (is_nan value), (is_nan min), (is_nan max); reflexivity.
Qed.

Lemma clamp_between (value min max : number) :
  is_nan value = false -> (min <=? max) = true ->
  (min <=? clamp value min max) = true /\ (clamp value min max <=? max) = true.
Proof.
  intros Hv Hle. destruct (Binary64.leb_not_nan _ _ Hle) as (Hlo & Hhi).
  unfold clamp.
  destruct (Math_min_cases max value Hhi Hv) as (_ & Hm & _).
  assert (Hn : is_nan (Math_min max value) = false)
    by (rewrite Math_min_is_nan, Hhi, Hv; reflexivity).
  destruct (Math_max_cases min (Math_min max value) Hlo Hn) as ([E | E] & H1 & _).
  - split; [assumption|]. rewrite E. assumption.
  - split; [assumption|]. rewrite E. assumption.
Qed.

(** X1.  [clamp] keeps a number between its bounds: when the value is not
    NaN and [min <= max], the result is at least [min] and at most [max]. *)
Theorem clamp_within_bounds :
  forall value min max : number,
    is_nan value = false -> (min <=? max) = true ->
    (min <=? clamp value min max) = true /\ (clamp value min max <=? max) = true.
Proof. exact clamp_between. Qed.

Lemma clamp_within_bounds_witness :
  (0 <=? clamp 1.5 0 1) = true /\ (clamp 1.5 0 1 <=? 1) = true.
Proof. apply (clamp_within_bounds 1.5 0 1); reflexivity. Defined.

(** X2.  [clamp] returns NaN exactly when the value or one of the bounds is
    NaN: [Math.min] and [Math.max] let NaN through. *)
Theorem clamp_nan_exactly :
  forall value min max : number,
    is_nan (clamp value min max) = is_nan value || is_nan min || is_nan max.
Proof. exact clamp_is_nan. Qed.

(** X3.  The confidence is NaN or lies between 0 and 1, whatever the
    quantum states are. *)
Theorem calculateConfidence_in_unit_interval :
  forall quantumStates : list (list QuantumState),
    is_nan (calculateConfidence quantumStates) = true
    \/ ((0 <=? calculateConfidence quantumStates) = true
        /\ (calculateConfidence quantumStates <=? 1) = true).
Proof.
  intros qs. unfold calculateConfidence.
  match goal with |- context [clamp ?a _ _] => set (avg := a) end.
  destruct (is_nan avg) eqn:Hn.
  - left. rewrite clamp_is_nan, Hn. reflexivity.
  - right. apply clamp_between; [assumption | reflexivity].
Qed.

Lemma fold_add_absorbs {A : Type} (f : A -> number) (l : list A) :
  fold_left (fun sum a => sum + f a) l nan = nan.
Proof.
  induction l as [|a l IH]; [reflexivity|].
  cbn [fold_left]. rewrite Ieee.add_nan_l. exact IH.
Qed.

Lemma fold_add_poisoned {A : Type} (f : A -> number) (l : list A) :
  (exists a, In a l /\ f a = nan) ->
  forall acc, fold_left (fun sum a => sum + f a) l acc = nan.
Proof.
  induction l as [|b l IH]; intros (a & Hin & Ha) acc; [destruct Hin|].
  cbn [fold_left]. destruct Hin as [-> | Hin].
  - rewrite Ha, Ieee.add_nan_r. apply fold_add_absorbs.
  - apply IH. exists a. split; assumption.
Qed.

Lemma total_poisoned (terms : list number) (acc : number) :
  In nan terms -> fold_left PrimFloat.add terms acc = nan.
Proof.
  intros H. apply (fold_add_poisoned (fun x => x) terms).
  exists nan. split; [assumption | reflexivity].
Qed.

Lemma calculateConfidence_undefined (qs : list (list QuantumState)) :
  qs = [] \/ In [] qs -> calculateConfidence qs = nan.
Proof.
  intros [-> | Hin]; [reflexivity|].
  unfold calculateConfidence.
  rewrite (fold_add_poisoned
             (fun particleStates =>
                fold_left (fun pSum state => pSum + magnitude (amplitude state))
                          particleStates 0 / of_nat (List.length particleStates)) qs).
  - rewrite Ieee.div_nan_l. reflexivity.
  - exists []. split; [assumption | reflexivity].
Qed.

(** X4.  With no particle, or with a particle that has no state (no
    asset), the confidence is NaN: the average is a quotient 0/0. *)
Theorem calculateConfidence_nan_without_states :
  forall quantumStates : list (list QuantumState),
    quantumStates = [] \/ In [] quantumStates ->
    calculateConfidence quantumStates = nan.
Proof. exact calculateConfidence_undefined. Qed.

Lemma calculateConfidence_nan_without_states_witness :
  calculateConfidence [[Scenario.spun]; []] = nan.
Proof.
  apply (calculateConfidence_nan_without_states [[Scenario.spun]; []]).
  right. right. left. reflexivity.
Defined.

Lemma normalizeAllocation_length (allocation : list number) :
  List.length (normalizeAllocation allocation) = List.length allocation.
Proof. unfold normalizeAllocation. apply length_map. Qed.

(** X5.  [normalizeAllocation] does not guard its division: when the
    weights sum to zero, the result has as many components as the input and
    none of them is finite. *)
Theorem normalizeAllocation_zero_sum_not_finite :
  forall allocation : list number,
    is_zero (fold_left PrimFloat.add allocation 0) = true ->
    List.length (normalizeAllocation allocation) = List.length allocation
    /\ Forall (fun x => is_finite x = false) (normalizeAllocation allocation).
Proof.
  intros allocation Hz. split; [apply normalizeAllocation_length|].
  unfold normalizeAllocation. apply Forall_map, Forall_forall.
  intros x _. apply Ieee.div_zero_not_finite. exact Hz.
Qed.

Lemma normalizeAllocation_zero_sum_not_finite_witness :
  List.length (normalizeAllocation [0.5; -0.5; 0]) = 3%nat
  /\ Forall (fun x => is_finite x = false) (normalizeAllocation [0.5; -0.5; 0]).
Proof. apply (normalizeAllocation_zero_sum_not_finite [0.5; -0.5; 0]). reflexivity. Defined.

(** X6.  One NaN weight makes the whole normalised vector NaN: the sum is
    NaN, and so is every quotient. *)
Theorem normalizeAllocation_spreads_nan :
  forall allocation : list number,
    existsb is_nan allocation = true ->
    normalizeAllocation allocation = repeat nan (List.length allocation).
Proof.
  intros allocation H. apply existsb_exists in H as (x & Hin & Hx).
  apply Ieee.is_nan_spec in Hx. subst x.
  unfold normalizeAllocation.
  rewrite (total_poisoned allocation 0 Hin).
  clear Hin. induction allocation as [|a l IH]; [reflexivity|].
  cbn [map repeat List.length]. rewrite Ieee.div_nan_r, IH. reflexivity.
Qed.

Lemma normalizeAllocation_spreads_nan_witness :
  normalizeAllocation [0.25; nan; 0.5] = [nan; nan; nan].
Proof. apply (normalizeAllocation_spreads_nan [0.25; nan; 0.5]). reflexivity. Defined.

End Helpers.

(** * When the fitness function throws, and when it yields NaN

    The methods that read the historical data throw a [TypeError] exactly
    when a row they read as an object is missing; a missing number is NaN
    and throws nothing. *)

Section Rows.

Local Open Scope float_scope.

Lemma get_obj_missing {A : Type} (arr : list A) (i : nat) :
  (List.length arr <= i)%nat -> get_obj arr i = Throw TypeError.
Proof.
  intros H. unfold get_obj. apply nth_error_None in H. rewrite H. reflexivity.
Qed.

Lemma map_from_thrown {A B : Type} (f : A -> nat -> outcome B) (e : JsError)
  (x : A) (rest : list A) (i : nat) :
  f x i = Throw e -> map_from f i (x :: rest) = Throw e.
Proof. intros H. cbn [map_from]. rewrite H. reflexivity. Qed.

Lemma map_from_ok {A B : Type} (f : A -> nat -> outcome B) (arr : list A) :
  (forall x k, exists y, f x k = Ok y) ->
  forall i, exists ys, map_from f i arr = Ok ys.
Proof.
  intros Hf. induction arr as [|x rest IH]; intros i; [exists []; reflexivity|].
  cbn [map_from]. destruct (Hf x i) as (y & ->). cbn [obind].
  destruct (IH (S i)) as (ys & ->). cbn [obind]. eexists. reflexivity.
Qed.

Lemma map_from_length {A B : Type} (f : A -> nat -> outcome B) (arr : list A) :
  forall i ys, map_from f i arr = Ok ys -> List.length ys = List.length arr.
Proof.
  induction arr as [|a arr IH]; intros i ys H.
  - inversion H. reflexivity.
  - cbn [map_from] in H. destruct (f a i); try discriminate. cbn [obind] in H.
    destruct (map_from f (S i) arr) eqn:E; try discriminate. cbn [obind] in H.
    inversion H. cbn. f_equal. eapply IH. exact E.
Qed.

Lemma expectedReturn_exact_from (returns : list (list number)) :
  forall (rest : list number) (i : nat) (acc : number),
    reduce_from (fun sum weight i =>
                   row <-? get_obj returns i;;
                   total <-? reduce_add row;;
                   let assetReturn := total / of_nat (List.length row) in
                   Ok (sum + weight * assetReturn))
                i acc rest
    = if forallb (fun k => Nat.ltb 0 (List.length (nth k returns [])))
                 (seq i (List.length rest))
      then Ok (fold_left PrimFloat.add
                 (map (fun k => get rest (k - i) * Spec.mean (nth k returns []))
                      (seq i (List.length rest)))
                 acc)
      else Throw TypeError.
Proof.
  induction rest as [|w rest IH]; intros i acc; [reflexivity|].
  cbn [reduce_from List.length seq map fold_left forallb].
  unfold get_obj at 1.
  destruct (nth_error returns i) as [row|] eqn:E.
  - rewrite (nth_error_nth _ _ [] E). cbn [obind].
    destruct row as [|x row]; [reflexivity|].
    cbn [reduce_add obind Nat.ltb Nat.leb List.length andb].
    rewrite IH. rewrite Nat.sub_diag. cbn [get nth].
    destruct (forallb _ _); [|reflexivity].
    do 2 f_equal. apply map_ext_in. intros k Hk. apply in_seq in Hk.
    unfold get. replace (k - i)%nat with (S (k - S i)) by lia. reflexivity.
  - rewrite (nth_overflow returns []) by (apply nth_error_None; exact E).
    reflexivity.
Qed.

Lemma calculateExpectedReturn_exact (allocation : list number) (returns : list (list number)) :
  calculateExpectedReturn allocation returns
  = if forallb (fun i => Nat.ltb 0 (List.length (nth i returns [])))
               (seq 0 (List.length allocation))
    then Ok (Spec.expectedReturn allocation returns)
    else Throw TypeError.
Proof.
  unfold calculateExpectedReturn, reduce. rewrite expectedReturn_exact_from.
  destruct (forallb _ _); [|reflexivity].
  unfold Spec.expectedReturn, Spec.total. do 2 f_equal.
  apply map_ext. intros k. now rewrite Nat.sub_0_r.
Qed.

(** X7.  [calculateExpectedReturn] throws a [TypeError] exactly when one
    of the weights has no return series or an empty one ([returns[i]] is
    undefined, or [reduce] without initial value meets []); otherwise it
    returns the weighted sum of the mean returns.  An empty allocation
    gives 0. *)
Theorem calculateExpectedReturn_throws_exactly :
  forall (allocation : list number) (returns : list (list number)),
    calculateExpectedReturn allocation returns
    = if forallb (fun i => Nat.ltb 0 (List.length (nth i returns [])))
                 (seq 0 (List.length allocation))
      then Ok (Spec.expectedReturn allocation returns)
      else Throw TypeError.
Proof. exact calculateExpectedReturn_exact. Qed.

Lemma variance_row_thrown (allocation volatility : list number)
  (correlation : list (list number)) (i : nat) (e : JsError) (js : list nat) :
  fold_left (fun acc j =>
               portfolioVariance <-? acc;;
               row <-? get_obj correlation i;;
               Ok (portfolioVariance +
                   get allocation i * get allocation j * get volatility i * get volatility j
                   * get row j))
            js (Throw e)
  = Throw e.
Proof. induction js as [|j js IH]; [reflexivity | exact IH]. Qed.

Lemma variance_rows_thrown (allocation volatility : list number)
  (correlation : list (list number)) (js : list nat) (e : JsError) (rows : list nat) :
  fold_left (fun acc i =>
    fold_left (fun acc j =>
                 portfolioVariance <-? acc;;
                 row <-? get_obj correlation i;;
                 Ok (portfolioVariance +
                     get allocation i * get allocation j * get volatility i
                     * get volatility j * get row j))
              js acc)
    rows (Throw e)
  = Throw e.
Proof.
  induction rows as [|i rows IH]; [reflexivity|].
  cbn [fold_left]. rewrite variance_row_thrown. exact IH.
Qed.

Lemma variance_row_missing (allocation volatility : list number)
  (correlation : list (list number)) (i : nat) (js : list nat) (acc : number) :
  (List.length correlation <= i)%nat ->
  js <> [] ->
  fold_left (fun acc j =>
               portfolioVariance <-? acc;;
               row <-? get_obj correlation i;;
               Ok (portfolioVariance +
                   get allocation i * get allocation j * get volatility i * get volatility j
                   * get row j))
            js (Ok acc)
  = Throw TypeError.
Proof.
  intros Hi Hjs. destruct js as [|j js]; [congruence|].
  rewrite (get_obj_missing _ _ Hi). cbn [fold_left obind]. clear Hjs.
  induction js as [|j' js IH]; [reflexivity | exact IH].
Qed.

Lemma variance_rows_missing (allocation volatility : list number)
  (correlation : list (list number)) (js : list nat)
  (rows : list nat) (i : nat) (rest : list nat) (acc : number) :
  (forall k, In k rows -> (k < List.length correlation)%nat) ->
  (List.length correlation <= i)%nat ->
  js <> [] ->
  fold_left (fun acc i =>
    fold_left (fun acc j =>
                 portfolioVariance <-? acc;;
                 row <-? get_obj correlation i;;
                 Ok (portfolioVariance +
                     get allocation i * get allocation j * get volatility i
                     * get volatility j * get row j))
              js acc)
    (rows ++ i :: rest) (Ok acc)
  = Throw TypeError.
Proof.
  intros Hrows Hi Hjs. rewrite fold_left_app.
  rewrite variance_rows by assumption.
  cbn [fold_left]. rewrite variance_row_missing by assumption.
  apply variance_rows_thrown.
Qed.

Lemma calculatePortfolioVolatility_exact (allocation volatility : list number)
  (correlation : list (list number)) :
  calculatePortfolioVolatility allocation volatility correlation
  = if Nat.leb (List.length allocation) (List.length correlation)
    then Ok (Spec.portfolioVolatility allocation volatility correlation)
    else Throw TypeError.
Proof.
  destruct (Nat.leb _ _) eqn:Hle.
  - apply Nat.leb_le in Hle.
    unfold calculatePortfolioVolatility.
    rewrite variance_rows by (intros i Hi; apply in_seq in Hi; lia).
    reflexivity.
  - apply Nat.leb_gt in Hle.
    unfold calculatePortfolioVolatility.
    set (n := List.length allocation) in *.
    set (m := List.length correlation) in *.
    assert (Hrows : seq 0 n = seq 0 m ++ m :: seq (S m) (n - S m)).
    { replace n with (m + S (n - S m))%nat at 1 by lia. now rewrite seq_app. }
    assert (Hjs : seq 0 n <> []).
    { destruct n; [lia | discriminate]. }
    set (js := seq 0 n) in Hjs |- * at 1. rewrite Hrows.
    rewrite variance_rows_missing; [reflexivity | | unfold m; lia | assumption].
    intros k Hk. apply in_seq in Hk. unfold m in Hk. lia.
Qed.

(** X8.  [calculatePortfolioVolatility] throws a [TypeError] exactly when
    the correlation matrix has fewer rows than the allocation has weights;
    otherwise it returns the square root of the double sum. *)
Theorem calculatePortfolioVolatility_throws_exactly :
  forall (allocation volatility : list number) (correlation : list (list number)),
    calculatePortfolioVolatility allocation volatility correlation
    = if Nat.leb (List.length allocation) (List.length correlation)
      then Ok (Spec.portfolioVolatility allocation volatility correlation)
      else Throw TypeError.
Proof. exact calculatePortfolioVolatility_exact. Qed.

Lemma calculateFitness_exact (allocation : list number) (context : OptimizationContext) :
  calculateFitness allocation context
  = if rows_for (List.length allocation) context
    then Ok (Spec.fitness allocation context)
    else Throw TypeError.
Proof.
  unfold calculateFitness, rows_for.
  rewrite calculateExpectedReturn_exact, calculatePortfolioVolatility_exact.
  destruct (forallb _ _); [|reflexivity].
  destruct (Nat.leb _ _); reflexivity.
Qed.

(** X9.  [calculateFitness] throws a [TypeError] exactly when, for one of
    the weights, the return series is missing or empty or the correlation
    row is missing; otherwise it returns the fitness.  Whether it throws
    depends on the number of weights only, not on their values. *)
Theorem calculateFitness_throws_exactly :
  forall (allocation : list number) (context : OptimizationContext),
    calculateFitness allocation context
    = if rows_for (List.length allocation) context
      then Ok (Spec.fitness allocation context)
      else Throw TypeError.
Proof. exact calculateFitness_exact. Qed.

Lemma portfolioVolatility_short_volatility (allocation volatility : list number)
  (correlation : list (list number)) :
  (List.length volatility < List.length allocation)%nat ->
  Spec.portfolioVolatility allocation volatility correlation = nan.
Proof.
  intros H. unfold Spec.portfolioVolatility, Spec.total.
  rewrite total_poisoned; [reflexivity|].
  apply in_flat_map. exists (List.length volatility). split; [apply in_seq; lia|].
  apply in_map_iff. exists 0%nat. split; [|apply in_seq; lia].
  unfold get at 3. rewrite (nth_overflow volatility) by lia.
  now rewrite Ieee.mul_nan_r, !Ieee.mul_nan_l.
Qed.

Lemma portfolioVolatility_short_row (allocation volatility : list number)
  (correlation : list (list number)) (i : nat) :
  (i < List.length allocation)%nat ->
  (List.length (nth i correlation []) < List.length allocation)%nat ->
  Spec.portfolioVolatility allocation volatility correlation = nan.
Proof.
  intros Hi H. unfold Spec.portfolioVolatility, Spec.total.
  rewrite total_poisoned; [reflexivity|].
  apply in_flat_map. exists i. split; [apply in_seq; lia|].
  apply in_map_iff. exists (List.length (nth i correlation [])).
  split; [|apply in_seq; lia].
  unfold get at 5. rewrite (nth_overflow (nth i correlation [])) by lia.
  now rewrite Ieee.mul_nan_r.
Qed.

(** X10.  Data that is too short does not make
    [calculatePortfolioVolatility] throw: when the correlation matrix has a
    row per weight but the volatility vector is shorter than the
    allocation, or one of the rows read is, the result is NaN. *)
Theorem calculatePortfolioVolatility_misaligned_is_nan :
  forall (allocation volatility : list number) (correlation : list (list number)),
    (List.length allocation <= List.length correlation)%nat ->
    (List.length volatility < List.length allocation)%nat
    \/ (exists i, (i < List.length allocation)%nat
                  /\ (List.length (nth i correlation []) < List.length allocation)%nat) ->
    calculatePortfolioVolatility allocation volatility correlation = Ok nan.
Proof.
  intros allocation volatility correlation Hrows Hshort.
  rewrite calculatePortfolioVolatility_exact.
  apply Nat.leb_le in Hrows. rewrite Hrows. f_equal.
  destruct Hshort as [H | (i & Hi & H)].
  - apply portfolioVolatility_short_volatility. exact H.
  - exact (portfolioVolatility_short_row _ _ _ i Hi H).
Qed.

Lemma calculatePortfolioVolatility_misaligned_is_nan_witness :
  calculatePortfolioVolatility [0.5; 0.5] [0.1] [[1; 0]; [0; 1]] = Ok nan.
Proof.
  apply (calculatePortfolioVolatility_misaligned_is_nan [0.5; 0.5] [0.1] [[1; 0]; [0; 1]]).
  - cbn. lia.
  - left. cbn. lia.
Defined.

(** X11.  The portfolio volatility is never negative: a value that
    [calculatePortfolioVolatility] returns is NaN or at least 0. *)
Theorem calculatePortfolioVolatility_not_negative :
  forall (allocation volatility : list number) (correlation : list (list number))
         (portfolioVolatility : number),
    calculatePortfolioVolatility allocation volatility correlation = Ok portfolioVolatility ->
    is_nan portfolioVolatility = true \/ (0 <=? portfolioVolatility) = true.
Proof.
  intros allocation volatility correlation v.
  rewrite calculatePortfolioVolatility_exact.
  destruct (Nat.leb _ _); [|discriminate].
  intros H. inversion H. unfold Spec.portfolioVolatility, Math_sqrt.
  apply Binary64.sqrt_not_negative.
Qed.

Lemma calculatePortfolioVolatility_not_negative_witness :
  calculatePortfolioVolatility [0.5; 0.5] [0.1; 0.2] [[1; 0]; [0; 1]]
  = Ok 0.1118033988749895
  /\ (is_nan 0.1118033988749895 = true \/ (0 <=? 0.1118033988749895) = true).
Proof.
  split; [reflexivity|].
  apply (calculatePortfolioVolatility_not_negative
           [0.5; 0.5] [0.1; 0.2] [[1; 0]; [0; 1]] 0.1118033988749895).
  reflexivity.
Defined.

End Rows.

(** * The maximum drawdown *)

Section Drawdown.

Local Open Scope float_scope.

Lemma drawdown_fold (portfolioReturns : list number) :
  forall (maxDrawdown peak : number),
    (0 <=? maxDrawdown) = true ->
    (0 <=? fst (fold_left (fun '(maxDrawdown, peak) ret =>
                  let peak := if gt ret peak then ret else peak in
                  let drawdown := ((peak - ret) / peak)%float in
                  let maxDrawdown :=
                    if gt drawdown maxDrawdown then drawdown else maxDrawdown in
                  (maxDrawdown, peak))
                  portfolioReturns (maxDrawdown, peak))) = true.
Proof.
  induction portfolioReturns as [|ret rest IH]; intros md peak Hmd; [exact Hmd|].
  cbn [fold_left]. apply IH. unfold gt.
  destruct (md <? _) eqn:E; [|exact Hmd].
  apply (Ieee.leb_trans _ _ _ Hmd). apply Ieee.ltb_leb. exact E.
Qed.

(** X12.  The maximum drawdown is never negative and never NaN: the
    running maximum starts at 0 and is only replaced by a greater value. *)
Theorem calculateMaxDrawdown_not_negative :
  forall (allocation : list number) (context : OptimizationContext) (maxDrawdown : number),
    calculateMaxDrawdown allocation context = Ok maxDrawdown ->
    (0 <=? maxDrawdown) = true.
Proof.
  intros allocation context d. unfold calculateMaxDrawdown.
  destruct (get_obj _ 0) as [first| |]; cbn [obind]; try discriminate.
  destruct (map_from _ 0 first) as [portfolioReturns| |]; cbn [obind]; try discriminate.
  pose proof (drawdown_fold portfolioReturns 0 neg_infinity eq_refl) as H.
  destruct (fold_left _ portfolioReturns _) as [md pk].
  intros [= <-]. exact H.
Qed.

Lemma calculateMaxDrawdown_not_negative_witness :
  calculateMaxDrawdown [0.5; 0.5] Scenario.two_assets = Ok 0.25000000000000006
  /\ (0 <=? 0.25000000000000006) = true.
Proof.
  split; [reflexivity|].
  apply (calculateMaxDrawdown_not_negative [0.5; 0.5] Scenario.two_assets).
  reflexivity.
Defined.

Lemma period_return_from (returns : list (list number)) (timeIndex : nat) :
  forall (rest : list number) (i : nat) (acc : number),
    reduce_from (fun sum weight assetIndex =>
                   row <-? get_obj returns assetIndex;;
                   Ok (sum + weight * get row timeIndex))
                i acc rest
    = if Nat.leb (i + List.length rest) (List.length returns)
      then Ok (fold_left PrimFloat.add
                 (map (fun k => get rest (k - i) * get (nth k returns []) timeIndex)
                      (seq i (List.length rest)))
                 acc)
      else if Nat.eqb (List.length rest) 0 then Ok acc else Throw TypeError.
Proof.
  induction rest as [|w rest IH]; intros i acc.
  - cbn. destruct (Nat.leb _ _); reflexivity.
  - cbn [reduce_from List.length seq map fold_left Nat.eqb].
    unfold get_obj at 1.
    destruct (nth_error returns i) as [row|] eqn:E.
    + rewrite (nth_error_nth _ _ [] E). cbn [obind].
      assert (Hi : (i < List.length returns)%nat)
        by (apply nth_error_Some; congruence).
      rewrite IH. rewrite Nat.sub_diag. cbn [get nth].
      replace (S i + List.length rest)%nat with (i + S (List.length rest))%nat by lia.
      destruct (Nat.leb (i + S (List.length rest)) (List.length returns)) eqn:Hle.
      * do 2 f_equal. apply map_ext_in. intros k Hk. apply in_seq in Hk.
        unfold get. replace (k - i)%nat with (S (k - S i)) by lia. reflexivity.
      * destruct rest; [|reflexivity].
        apply Nat.leb_gt in Hle. cbn in Hle. lia.
    + apply nth_error_None in E. cbn [obind].
      destruct (Nat.leb _ _) eqn:Hle; [|reflexivity].
      apply Nat.leb_le in Hle. lia.
Qed.

(** X13.  [calculateMaxDrawdown] throws a [TypeError] in two cases and in
    no other: the returns matrix is empty ([returns[0]] is undefined, even
    for an empty allocation), or its first series has a period and the
    allocation has more weights than the matrix has rows. *)
Theorem calculateMaxDrawdown_throws_exactly :
  forall (allocation : list number) (context : OptimizationContext),
    calculateMaxDrawdown allocation context = Throw TypeError
    <-> returns (historicalData context) = []
        \/ (nth 0 (returns (historicalData context)) [] <> []
            /\ (List.length (returns (historicalData context))
                < List.length allocation)%nat).
Proof.
  intros allocation context. unfold calculateMaxDrawdown.
  destruct (returns (historicalData context)) as [|first others] eqn:Hr.
  - split; [intros _; left; reflexivity | reflexivity].
  - cbn [get_obj nth_error obind nth].
    destruct (Nat.leb (List.length allocation) (List.length (first :: others))) eqn:Hle.
    + destruct (map_from_ok
                  (fun (_ : number) timeIndex =>
                     reduce (fun sum weight assetIndex =>
                               row <-? get_obj (first :: others) assetIndex;;
                               Ok (sum + weight * get row timeIndex))
                            0 allocation) first) with (i := 0%nat) as (ys & ->).
      { intros _ k. unfold reduce. rewrite period_return_from.
        cbn [Nat.add]. rewrite Hle. eexists. reflexivity. }
      cbn [obind]. destruct (fold_left _ ys _) as [md pk].
      apply Nat.leb_le in Hle.
      split; [discriminate | intros [H | [_ H]]; [discriminate | lia]].
    + apply Nat.leb_gt in Hle. destruct first as [|x first].
      * cbn [map_from obind fold_left].
        split; [discriminate | intros [H | [H _]]; [discriminate | congruence]].
      * rewrite (map_from_thrown _ TypeError).
        -- cbn [obind]. split; [intros _; right; split; [discriminate | exact Hle]
                               | reflexivity].
        -- unfold reduce. rewrite period_return_from. cbn [Nat.add].
           apply Nat.leb_gt in Hle. rewrite Hle.
           apply Nat.leb_gt in Hle.
           destruct allocation; [cbn in Hle; lia | reflexivity].
Qed.

Lemma drawdown_of_zeros (first : list number) :
  fold_left (fun '(maxDrawdown, peak) ret =>
               let peak := if gt ret peak then ret else peak in
               let drawdown := ((peak - ret) / peak)%float in
               let maxDrawdown :=
                 if gt drawdown maxDrawdown then drawdown else maxDrawdown in
               (maxDrawdown, peak))
            (map (fun _ : number => 0) first) (0, 0)
  = (0, 0).
Proof. induction first as [|x first IH]; [reflexivity | exact IH]. Qed.

Lemma calculateMaxDrawdown_nil (context : OptimizationContext) (maxDrawdown : number) :
  calculateMaxDrawdown [] context = Ok maxDrawdown -> maxDrawdown = 0.
Proof.
  unfold calculateMaxDrawdown.
  destruct (get_obj _ 0) as [first| |]; cbn [obind]; try discriminate.
  rewrite (map_from_total _ (fun _ => 0)) by reflexivity. cbn [obind].
  destruct first as [|x first]; [intros [= <-]; reflexivity|].
  cbn [map fold_left].
  pose proof (drawdown_of_zeros first) as H.
  match goal with
  | |- (let '(_, _) := ?t in _) = _ -> _ => change t with
      (fold_left (fun '(maxDrawdown, peak) ret =>
               let peak := if gt ret peak then ret else peak in
               let drawdown := ((peak - ret) / peak)%float in
               let maxDrawdown :=
                 if gt drawdown maxDrawdown then drawdown else maxDrawdown in
               (maxDrawdown, peak))
            (map (fun _ : number => 0) first) (0, 0)); rewrite H
  end.
  intros [= <-]. reflexivity.
Qed.

End Drawdown.

(** * Random draws and the shape of the state

    What the two initialisations build, what the evolution and the update
    keep, and how many random numbers each of them draws. *)

Section Draws.

Local Open Scope float_scope.

Variable host : Host.

Lemma Math_random_draws (w w' : World) (x : number) :
  Math_random host w = Ok (x, w') -> draws w' = S (draws w).
Proof. unfold Math_random. intros H. inversion H. reflexivity. Qed.

Lemma timesM_draws {A : Type} (m : M A) (d : nat) :
  (forall w0 a w1, m w0 = Ok (a, w1) -> draws w1 = (draws w0 + d)%nat) ->
  forall n w l w', timesM n m w = Ok (l, w') -> draws w' = (draws w + n * d)%nat.
Proof.
  intros Hm. induction n as [|n IH]; intros w l w' H.
  - inversion H. cbn. lia.
  - cbn [timesM] in H. open_bind H a w1 H1. open_bind H l' w2 H2.
    inversion H; subst. apply Hm in H1. apply IH in H2. cbn. lia.
Qed.

Lemma mapM_from_draws {A B : Type} (f : A -> nat -> M B) (d : A -> nat) :
  (forall a k w0 b w1, f a k w0 = Ok (b, w1) -> draws w1 = (draws w0 + d a)%nat) ->
  forall arr i w bs w',
    mapM_from f i arr w = Ok (bs, w') -> draws w' = (draws w + list_sum (map d arr))%nat.
Proof.
  intros Hf. induction arr as [|a arr IH]; intros i w bs w' H.
  - inversion H. cbn. lia.
  - cbn [mapM_from] in H. open_bind H b w1 H1. open_bind H bs' w2 H2.
    inversion H; subst. apply Hf in H1. apply IH in H2.
    rewrite H2, H1.
    change (list_sum (map d (a :: arr))) with (d a + list_sum (map d arr))%nat. lia.
Qed.

Lemma list_sum_const {A : Type} (d : nat) (arr : list A) :
  list_sum (map (fun _ => d) arr) = (List.length arr * d)%nat.
Proof.
  induction arr as [|a arr IH]; [reflexivity|].
  change (list_sum (map (fun _ => d) (a :: arr)))
    with (d + list_sum (map (fun _ : A => d) arr))%nat.
  rewrite IH. cbn [List.length]. lia.
Qed.

Lemma list_sum_lengths {A : Type} (rows : list (list A)) :
  list_sum (map (@List.length A) rows) = List.length (concat rows).
Proof.
  induction rows as [|row rows IH]; [reflexivity|].
  change (list_sum (map (@List.length A) (row :: rows)))
    with (List.length row + list_sum (map (@List.length A) rows))%nat.
  cbn [concat]. rewrite length_app, IH. reflexivity.
Qed.

Lemma timesM_Math_random (n : nat) :
  forall w, exists w',
    timesM n (Math_random host) w
    = Ok (map (Math_random_at host) (seq (draws w) n), w')
    /\ only_draws w w' /\ draws w' = (draws w + n)%nat.
Proof.
  induction n as [|n IH]; intros w.
  - exists w. cbn. rewrite Nat.add_0_r. repeat split.
  - cbn [timesM seq map].
    set (w1 := {| context := context w; this := this w; draws := S (draws w) |}).
    destruct (IH w1) as (w' & H & [Hc Ht] & Hd).
    exists w'. rewrite (bind_run _ _ w w1 (Math_random_at host (draws w)) eq_refl).
    rewrite (bind_run _ _ _ _ _ H).
    split; [reflexivity|]. split; [split; assumption|].
    rewrite Hd. cbn. lia.
Qed.

Lemma generateRandomAllocation_exact (size : nat) (constraints : OptimizationConstraints)
  (w : World) :
  exists w',
    generateRandomAllocation host size constraints w
    = Ok (normalizeAllocation (map (Math_random_at host) (seq (draws w) size)), w')
    /\ only_draws w w' /\ draws w' = (draws w + size)%nat.
Proof.
  destruct (timesM_Math_random size w) as (w' & H & Hd & Hn).
  exists w'. unfold generateRandomAllocation.
  rewrite (bind_run _ _ _ _ _ H). repeat split; apply Hd || exact Hn.
Qed.

Lemma Array_length (k : number) (count : nat) :
  array_length k = Some count -> Array_ k = Ok count.
Proof. intros H. unfold Array_. rewrite H. reflexivity. Qed.

Lemma Array_no_length (k : number) : array_length k = None -> Array_ k = Throw RangeError.
Proof. intros H. unfold Array_. rewrite H. reflexivity. Qed.

(** X14.  With a particle count that is an integer [P] in [0, 2^32),
    [initializeQuantumStates] replaces the grid by one of [P] rows of
    [dimension] states each, drawing three random numbers per state; the
    particles, the global best, the configuration and the context are as
    before. *)
Theorem initializeQuantumStates_fills_grid :
  forall (dimension : nat) (w : World) (count : nat),
    array_length (particles (config (this w))) = Some count ->
    exists w',
      initializeQuantumStates host dimension w = Ok (tt, w')
      /\ keeps_best w w'
      /\ this_particles (this w') = this_particles (this w)
      /\ List.length (quantumStates (this w')) = count
      /\ Forall (fun row => List.length row = dimension) (quantumStates (this w'))
      /\ draws w' = (draws w + count * (dimension * 3))%nat.
Proof.
  intros dimension w count Hp. unfold initializeQuantumStates.
  rewrite (bind_run _ _ w w (this w) eq_refl).
  rewrite (Array_length _ _ Hp). cbn [lift bind].
  match goal with |- context [timesM ?k (timesM dimension ?m)] =>
    destruct (timesM_total (timesM dimension m) (fun row => List.length row = dimension) k w)
      as (qs & w1 & H1 & [Hc Ht] & Hlen & Hrows);
    [| pose proof (timesM_draws (timesM dimension m) (dimension * 3)) as Hdraws;
       pose proof (timesM_draws m 3) as Hcell ]
  end.
  { intros w0 _.
    match goal with |- context [timesM dimension ?m] =>
      destruct (timesM_total m (fun _ => True) dimension w0)
        as (row & w1 & H1 & Hd & Hlen & _)
    end.
    { intros w2 _. unfold bind, Math_random, ret. eexists. eexists.
      split; [reflexivity|]. split; [split; reflexivity | exact I]. }
    exists row, w1. auto. }
  rewrite (bind_run _ _ _ _ _ H1). eexists. split; [reflexivity|].
  apply Hdraws in H1.
  2:{ intros w0 a w2 E. apply Hcell in E; [exact E|].
      intros w3 s w4 E'. open_bind E' re w5 E1. open_bind E' im w6 E2.
      open_bind E' r w7 E3. inversion E'; subst.
      apply Math_random_draws in E1, E2, E3. lia. }
  unfold keeps_best. cbn. rewrite Hc, Ht. repeat split; assumption.
Qed.

(** X15.  With a particle count that is an integer [P] in [0, 2^32),
    [initializeParticles] replaces the swarm by [P] particles: each has one
    weight per asset, a velocity of zeros, its position as personal best
    and -Infinity as personal best fitness.  It draws one random number per
    weight and leaves the quantum states and the global best (which a
    previous call may have set) as they were. *)
Theorem initializeParticles_makes_swarm :
  forall (w : World) (count : nat),
    array_length (particles (config (this w))) = Some count ->
    exists w',
      initializeParticles host w = Ok (tt, w')
      /\ keeps_best w w'
      /\ quantumStates (this w') = quantumStates (this w)
      /\ List.length (this_particles (this w')) = count
      /\ Forall (newborn (List.length (assets (context w)))) (this_particles (this w'))
      /\ draws w' = (draws w + count * List.length (assets (context w)))%nat.
Proof.
  intros w count Hp. unfold initializeParticles.
  rewrite (bind_run _ _ w w (context w) eq_refl), (bind_run _ _ w w (this w) eq_refl).
  rewrite (Array_length _ _ Hp). cbn [lift bind].
  set (n := List.length (assets (context w))).
  match goal with |- context [timesM ?k ?m] =>
    destruct (timesM_total m (newborn n) k w) as (ps & w1 & H1 & [Hc Ht] & Hlen & Hps);
    [| pose proof (timesM_draws m n) as Hdraws ]
  end.
  { intros w0 _.
    destruct (generateRandomAllocation_exact n (constraints (context w)) w0)
      as (w1 & H1 & Hd & _).
    eexists. exists w1. rewrite (bind_run _ _ _ _ _ H1). cbn [ret].
    split; [reflexivity|]. split; [exact Hd|].
    unfold newborn. cbn. rewrite normalizeAllocation_length, length_map, length_seq.
    repeat split. }
  rewrite (bind_run _ _ _ _ _ H1). eexists. split; [reflexivity|].
  apply Hdraws in H1.
  2:{ intros w0 a w2 E. open_bind E position w3 E1.
      destruct (generateRandomAllocation_exact n (constraints (context w)) w0)
        as (w4 & E2 & _ & Hd).
      rewrite E1 in E2. inversion E2; subst. inversion E; subst. exact Hd. }
  unfold keeps_best. cbn. rewrite Hc, Ht. repeat split; assumption.
Qed.

Lemma initializeQuantumStates_invalid (dimension : nat) (w : World) :
  array_length (particles (config (this w))) = None ->
  initializeQuantumStates host dimension w = Throw RangeError.
Proof.
  intros Hp. unfold initializeQuantumStates.
  rewrite (bind_run _ _ w w (this w) eq_refl).
  unfold bind, lift. rewrite (Array_no_length _ Hp). reflexivity.
Qed.

(** X16.  A particle count that is negative or at least 2^32, or in any
    other way not an integer in [0, 2^32) (a fraction, an infinity), which
    the constructor stores without complaint, makes [optimize] throw a
    [RangeError]: [Array(this.config.particles)] is its first action. *)
Theorem optimize_rejects_particle_count :
  forall (fuel : nat) (w : World),
    (particles (config (this w)) <? 0) = true
    \/ (4294967296 <=? particles (config (this w))) = true
    \/ array_length (particles (config (this w))) = None ->
    optimize host fuel w = Throw RangeError.
Proof.
  intros fuel w Hp.
  assert (Hnone : array_length (particles (config (this w))) = None).
  { destruct Hp as [Hp|[Hp|Hp]];
      [apply Binary64.array_length_negative | apply Binary64.array_length_too_long |];
      exact Hp. }
  unfold optimize, optimize_search.
  unfold bind at 1 2. cbn [getContext]. unfold bind at 1.
  rewrite (initializeQuantumStates_invalid _ _ Hnone). reflexivity.
Qed.

Lemma evolveState_draws (state state' : QuantumState) (w w' : World) :
  evolveState host state w = Ok (state', w') -> draws w' = (draws w + 1)%nat.
Proof.
  unfold evolveState. intros H. open_bind H r w1 H1.
  apply Math_random_draws in H1. inversion H; subst. lia.
Qed.

Lemma evolveQuantumStates_draws (w w' : World) (u : unit) :
  evolveQuantumStates host w = Ok (u, w') ->
  draws w' = (draws w + List.length (concat (quantumStates (this w))))%nat.
Proof.
  unfold evolveQuantumStates. intros H.
  open_bind H o w0 H0. inversion H0; subst o w0; clear H0.
  open_bind H qs w1 H1.
  unfold mapM in H1.
  apply (mapM_from_draws _ (@List.length QuantumState)) in H1.
  - unfold set_quantumStates in H. open_bind H o w2 H2.
    inversion H2; subst o w2; clear H2. inversion H; subst w'. cbn.
    rewrite H1, list_sum_lengths. reflexivity.
  - intros row k w0 row' w2 E. unfold mapM in E.
    apply (mapM_from_draws _ (fun _ => 1%nat)) in E.
    + rewrite E, list_sum_const. lia.
    + intros s j w3 s' w4 E'. eapply evolveState_draws; eassumption.
Qed.

(** X17.  [evolveQuantumStates] never throws.  It keeps the shape of the
    grid, the particles, the global best, the configuration and the
    context, and draws exactly one random number per state. *)
Theorem evolveQuantumStates_never_throws :
  forall w : World,
    exists w',
      evolveQuantumStates host w = Ok (tt, w')
      /\ keeps_best w w'
      /\ this_particles (this w') = this_particles (this w)
      /\ Forall2 (fun row row' => List.length row' = List.length row)
                 (quantumStates (this w)) (quantumStates (this w'))
      /\ draws w' = (draws w + List.length (concat (quantumStates (this w))))%nat.
Proof.
  intros w. destruct (evolveQuantumStates_total host w) as (w' & H).
  exists w'. split; [exact H|].
  pose proof (evolveQuantumStates_draws _ _ _ H) as Hd.
  apply evolveQuantumStates_frame in H as (Hk & Hp & Hs).
  repeat split; try assumption; apply Hk.
Qed.

Lemma updateParticle_same_best (particle particle' : ParticleState) (i : nat)
  (w w' : World) :
  updateParticle host particle i w = Ok (particle', w') ->
  only_draws w w'
  /\ same_best particle particle'
  /\ draws w' = (draws w + 2 * List.length (velocity particle))%nat.
Proof.
  unfold updateParticle. intros H.
  open_bind H o w0 H0. inversion H0; subst o w0; clear H0.
  open_bind H newVelocity w1 H1.
  unfold mapM in H1.
  pose proof H1 as Hd.
  apply (mapM_from_draws _ (fun _ => 2%nat)) in Hd.
  2:{ intros v j w0 b w2 E. open_bind E r1 w3 E1. open_bind E r2 w4 E2.
      inversion E; subst.
      apply Math_random_draws in E1, E2. lia. }
  eapply mapM_from_only_draws in H1 as [H1 Hlen].
  2:{ intros v j w0 b w2 E. open_bind E r1 w3 E1. open_bind E r2 w4 E2.
      inversion E; subst. eapply only_draws_trans; eapply Math_random_only_draws; eassumption. }
  open_bind H newPosition w2 H2. apply lift_inv in H2 as [H2 ->].
  apply map_from_length in H2.
  inversion H; subst. unfold same_best. cbn.
  rewrite normalizeAllocation_length, list_sum_const in *.
  repeat split; try apply H1; try assumption. lia.
Qed.

Lemma updateParticles_same_best (w w' : World) (u : unit) :
  updateParticles host w = Ok (u, w') ->
  keeps_best w w'
  /\ quantumStates (this w') = quantumStates (this w)
  /\ Forall2 same_best (this_particles (this w)) (this_particles (this w'))
  /\ draws w'
     = (draws w + 2 * List.length (concat (map velocity (this_particles (this w)))))%nat.
Proof.
  unfold updateParticles. intros H.
  open_bind H o w0 H0. inversion H0; subst o w0; clear H0.
  open_bind H ps w1 H1.
  assert (Hbest : forall arr i w0 bs w2,
             mapM_from (updateParticle host) i arr w0 = Ok (bs, w2) ->
             Forall2 same_best arr bs).
  { induction arr as [|a arr IH]; intros i w0 bs w2 E.
    - inversion E. constructor.
    - cbn [mapM_from] in E. open_bind E b w3 E1. open_bind E bs' w4 E2.
      inversion E; subst. constructor; [|eapply IH; eassumption].
      apply updateParticle_same_best in E1. apply E1. }
  pose proof (Hbest _ _ _ _ _ H1) as Hb.
  unfold mapM in H1. pose proof H1 as Hd.
  apply (mapM_from_draws _ (fun p => (2 * List.length (velocity p))%nat)) in Hd.
  2:{ intros p i w0 p' w2 E. eapply updateParticle_same_best; eassumption. }
  eapply mapM_from_only_draws in H1 as [[Hc Ht] _].
  2:{ intros p i w0 p' w2 E. eapply updateParticle_same_best; eassumption. }
  unfold set_particles in H. open_bind H o w2 H2. inversion H2; subst o w2; clear H2.
  inversion H; subst w'. cbn. rewrite Hc, Ht. repeat split; [exact Hb|].
  rewrite Hd. f_equal.
  rewrite <- list_sum_lengths, map_map.
  generalize (this_particles (this w)). intros l.
  induction l as [|p l IH]; [reflexivity|].
  change (list_sum (map (fun p => (2 * List.length (velocity p))%nat) (p :: l)))
    with (2 * List.length (velocity p)
          + list_sum (map (fun p => (2 * List.length (velocity p))%nat) l))%nat.
  change (list_sum (map (fun x => List.length (velocity x)) (p :: l)))
    with (List.length (velocity p)
          + list_sum (map (fun x => List.length (velocity x)) l))%nat.
  rewrite IH. lia.
Qed.

(** X18.  [updateParticles] moves the particles and nothing else: every
    particle keeps its personal best position and fitness and its
    dimensions; the quantum states, the global best, the configuration and
    the context are as before. *)
Theorem updateParticles_keeps_personal_bests :
  forall (w w' : World) (u : unit),
    updateParticles host w = Ok (u, w') ->
    keeps_best w w'
    /\ quantumStates (this w') = quantumStates (this w)
    /\ Forall2 same_best (this_particles (this w)) (this_particles (this w')).
Proof.
  intros w w' u H. apply updateParticles_same_best in H as (Hk & Hq & Hb & _).
  repeat split; try assumption; apply Hk.
Qed.

(** X19.  As long as no global best is recorded ([globalBestPosition] is
    still []), [updateParticles] returns and sets every position to NaN in
    all its coordinates: the social term reads [undefined]. *)
Theorem updateParticles_without_global_best :
  forall (c : OptimizationContext) (w : World),
    bestless c w ->
    exists w',
      updateParticles host w = Ok (tt, w')
      /\ bestless c w'
      /\ Forall (fun p => position p = repeat nan (List.length (assets c)))
                (this_particles (this w')).
Proof.
  intros c w Hw. destruct (updateParticles_nan host c w Hw) as (w' & H & Hw' & _ & Hn).
  exists w'. split; [exact H | split; [exact Hw' | exact Hn]].
Qed.

Lemma evaluateParticles_draws (w w' : World) (u : unit) :
  evaluateParticles w = Ok (u, w') -> draws w' = draws w.
Proof.
  rewrite evaluateParticles_run.
  destruct (Spec.evaluate_snapshot (context w) (this w)); try discriminate.
  intros H. inversion H. reflexivity.
Qed.

(** X20.  One iteration draws one random number per quantum state
    (evolution) and two per velocity component (update); the evaluation
    draws none. *)
Theorem iterate_random_draws :
  forall (w w' : World) (u : unit),
    iterate host w = Ok (u, w') ->
    draws w'
    = (draws w + List.length (concat (quantumStates (this w)))
       + 2 * List.length (concat (map velocity (this_particles (this w)))))%nat.
Proof.
  intros w w' u. unfold iterate. intros H.
  open_bind H u1 w1 H1. open_bind H u2 w2 H2.
  pose proof (evolveQuantumStates_draws _ _ _ H1) as D1.
  apply evolveQuantumStates_frame in H1 as (_ & Hp & _).
  apply updateParticles_same_best in H2 as (_ & _ & _ & D2).
  apply evaluateParticles_draws in H.
  rewrite H, D2, D1, Hp. reflexivity.
Qed.

End Draws.

Lemma initializeQuantumStates_fills_grid_witness :
  exists w',
    initializeQuantumStates Scenario.host 2 Scenario.spinning = Ok (tt, w')
    /\ keeps_best Scenario.spinning w'
    /\ this_particles (this w') = []
    /\ List.length (quantumStates (this w')) = 1%nat
    /\ Forall (fun row => List.length row = 2%nat) (quantumStates (this w'))
    /\ draws w' = 6%nat.
Proof.
  apply (initializeQuantumStates_fills_grid Scenario.host 2 Scenario.spinning 1).
  reflexivity.
Defined.

Lemma initializeParticles_makes_swarm_witness :
  exists w',
    initializeParticles Scenario.host Scenario.warm = Ok (tt, w')
    /\ keeps_best Scenario.warm w'
    /\ quantumStates (this w') = quantumStates (this Scenario.warm)
    /\ List.length (this_particles (this w')) = 2%nat
    /\ Forall (newborn 2) (this_particles (this w'))
    /\ draws w' = 4%nat.
Proof.
  apply (initializeParticles_makes_swarm Scenario.host Scenario.warm 2).
  reflexivity.
Defined.

Lemma optimize_rejects_particle_count_witness :
  optimize Scenario.host 50
    {| context := Scenario.two_assets;
       this := constructor {| arg_particles := Some (-5)%float; arg_iterations := None;
                              arg_convergenceThreshold := None |};
       draws := 0 |}
  = Throw RangeError
  /\ optimize Scenario.host 50
       {| context := Scenario.two_assets;
          this := constructor {| arg_particles := Some 4294967296%float;
                                 arg_iterations := None;
                                 arg_convergenceThreshold := None |};
          draws := 0 |}
     = Throw RangeError
  /\ optimize Scenario.host 50
       {| context := Scenario.two_assets;
          this := constructor {| arg_particles := Some 2.5%float; arg_iterations := None;
                                 arg_convergenceThreshold := None |};
          draws := 0 |}
     = Throw RangeError.
Proof.
  split; [|split]; apply (optimize_rejects_particle_count Scenario.host).
  - left. reflexivity.
  - right. left. reflexivity.
  - right. right. reflexivity.
Defined.

Lemma updateParticles_keeps_personal_bests_witness :
  exists w',
    updateParticles Scenario.host Scenario.warm = Ok (tt, w')
    /\ keeps_best Scenario.warm w'
    /\ quantumStates (this w') = quantumStates (this Scenario.warm)
    /\ Forall2 same_best (this_particles (this Scenario.warm)) (this_particles (this w')).
Proof.
  eexists. split; [vm_compute; reflexivity|].
  apply (updateParticles_keeps_personal_bests Scenario.host Scenario.warm _ tt).
  vm_compute. reflexivity.
Defined.

Lemma updateParticles_without_global_best_witness :
  exists w',
    updateParticles Scenario.host Scenario.cold = Ok (tt, w')
    /\ bestless Scenario.two_assets w'
    /\ Forall (fun p => position p = repeat nan 2) (this_particles (this w')).
Proof.
  apply (updateParticles_without_global_best Scenario.host Scenario.two_assets Scenario.cold).
  unfold bestless, unranked. cbn. repeat split; repeat constructor.
Defined.

Lemma iterate_random_draws_witness :
  exists w',
    iterate Scenario.host Scenario.warm = Ok (tt, w')
    /\ draws w'
       = (draws Scenario.warm
          + List.length (concat (quantumStates (this Scenario.warm)))
          + 2 * List.length (concat (map velocity (this_particles (this Scenario.warm)))))%nat
    /\ draws w' = 12%nat.
Proof.
  eexists. split; [vm_compute; reflexivity|]. split; [|reflexivity].
  apply (iterate_random_draws Scenario.host Scenario.warm _ tt).
  vm_compute. reflexivity.
Defined.

(** * The evaluation pass, particle by particle *)

Section Ranking.

Local Open Scope float_scope.

Lemma map_from_fitness (c : OptimizationContext) (ps : list ParticleState) :
  forall i fitnesses,
    map_from (fun particle _ => calculateFitness (position particle) c) i ps = Ok fitnesses ->
    Forall2 (fun p f => calculateFitness (position p) c = Ok f) ps fitnesses.
Proof.
  induction ps as [|p ps IH]; intros i fs H.
  - inversion H. constructor.
  - cbn [map_from] in H.
    destruct (calculateFitness (position p) c) eqn:E; try discriminate. cbn [obind] in H.
    destruct (map_from _ (S i) ps) eqn:E'; try discriminate. cbn [obind] in H.
    inversion H; subst. constructor; [exact E | eapply IH; exact E'].
Qed.

Lemma fold_best_ranked (c : OptimizationContext) (ps : list ParticleState)
  (fitnesses : list number) :
  Forall2 (fun p f => calculateFitness (position p) c = Ok f) ps fitnesses ->
  forall best, Forall2 (ranked c) ps (fst (Spec.fold_best (combine ps fitnesses) best)).
Proof.
  induction 1 as [|p f ps fs Hf _ IH]; intros best; [constructor|].
  cbn [combine Spec.fold_best fst]. constructor; [|apply IH].
  unfold Spec.improve, ranked, gt. cbn [fst snd].
  destruct (bestFitness p <? f) eqn:E; cbn [fst position velocity].
  - repeat split. exists f. rewrite E. cbn. repeat split. exact Hf.
  - repeat split. exists f. rewrite E. repeat split. exact Hf.
Qed.

Lemma fold_best_from (candidates : list (ParticleState * number)) :
  forall best,
    snd (Spec.fold_best candidates best) = best
    \/ exists p f,
         In (p, f) candidates
         /\ snd (Spec.fold_best candidates best) = (position p, f)
         /\ (bestFitness p <? f) = true
         /\ (snd best <? f) = true.
Proof.
  induction candidates as [|[p f] rest IH]; intros best; [left; reflexivity|].
  cbn [Spec.fold_best snd].
  assert (Hkeep : snd (Spec.fold_best rest best) = best
                  \/ exists p' f',
                       In (p', f') ((p, f) :: rest)
                       /\ snd (Spec.fold_best rest best) = (position p', f')
                       /\ (bestFitness p' <? f') = true
                       /\ (snd best <? f') = true).
  { destruct (IH best) as [E | (p' & f' & Hin & E & H1 & H2)]; [left; exact E|].
    right. exists p', f'. split; [right; exact Hin|]. auto. }
  unfold Spec.improve. cbn [fst snd].
  destruct (bestFitness p <? f) eqn:E1; cbn [snd]; [|exact Hkeep].
  destruct (snd best <? f) eqn:E2; [|exact Hkeep].
  right. destruct (IH (position p, f)) as [E | (p' & f' & Hin & E & H1 & H2)].
  - exists p, f. split; [left; reflexivity|]. auto.
  - exists p', f'. split; [right; exact Hin|]. split; [exact E|]. split; [exact H1|].
    cbn [snd] in H2. eapply Binary64.ltb_trans; eassumption.
Qed.

Lemma fold_best_dominates (candidates : list (ParticleState * number)) :
  forall best,
    Forall (fun c => (bestFitness (fst c) <=? snd best) = true) candidates ->
    Forall (fun p' => (bestFitness p' <=? snd (snd (Spec.fold_best candidates best))) = true)
           (fst (Spec.fold_best candidates best)).
Proof.
  induction candidates as [|[p f] rest IH]; intros best H; [constructor|].
  inversion H as [|? ? Hhead Hrest]; subst. cbn [fst] in Hhead.
  destruct (Binary64.leb_not_nan _ _ Hhead) as [_ Hg].
  cbn [Spec.fold_best fst snd].
  set (step := Spec.improve best (p, f)).
  assert (Hstep : (bestFitness (fst step) <=? snd (snd step)) = true
                  /\ (snd best <=? snd (snd step)) = true).
  { unfold step, Spec.improve. cbn [fst snd].
    destruct (bestFitness p <? f) eqn:E1; cbn [fst snd bestFitness].
    - pose proof (Ieee.ltb_not_nan_r _ _ E1) as Hf.
      destruct (snd best <? f) eqn:E2; cbn [snd].
      + split; [apply Ieee.leb_refl; exact Hf | apply Ieee.ltb_leb; exact E2].
      + split; [apply Binary64.ltb_false_leb; assumption | apply Ieee.leb_refl; exact Hg].
    - split; [exact Hhead | apply Ieee.leb_refl; exact Hg]. }
  destruct Hstep as [Hp Hb].
  destruct (Binary64.leb_not_nan _ _ Hb) as [_ Hn].
  constructor.
  - eapply Ieee.leb_trans; [exact Hp|].
    apply (fold_best_monotone rest (snd step) Hn).
  - apply IH. eapply Forall_impl; [|exact Hrest].
    intros c Hc. cbn beta in Hc. eapply Ieee.leb_trans; eassumption.
Qed.

Lemma fold_best_unimproved (candidates : list (ParticleState * number)) :
  forall best,
    Forall (fun c => (bestFitness (fst c) <? snd c) = false) candidates ->
    Spec.fold_best candidates best = (map fst candidates, best).
Proof.
  induction candidates as [|[p f] rest IH]; intros best H; [reflexivity|].
  inversion H as [|? ? Hhead Hrest]; subst. cbn [fst snd] in Hhead.
  cbn [Spec.fold_best map fst]. unfold Spec.improve. cbn [fst snd].
  rewrite Hhead. cbn [fst snd]. rewrite (IH best Hrest). reflexivity.
Qed.

Lemma Forall_combine_fst {A B : Type} (P : A -> Prop) (xs : list A) (ys : list B) :
  Forall P xs -> Forall (fun c => P (fst c)) (combine xs ys).
Proof.
  intros H. revert ys. induction H as [|x xs Hx _ IH]; intros ys; [constructor|].
  destruct ys as [|y ys]; [constructor|]. cbn [combine]. constructor; [exact Hx | apply IH].
Qed.

Lemma In_combine_Forall2 {A B : Type} (R : A -> B -> Prop) (xs : list A) (ys : list B)
  (x : A) (y : B) :
  Forall2 R xs ys -> In (x, y) (combine xs ys) -> In x xs /\ R x y.
Proof.
  induction 1 as [|a b xs ys Hab _ IH]; intros Hin; [destruct Hin|].
  destruct Hin as [E | Hin].
  - inversion E; subst. split; [left; reflexivity | exact Hab].
  - destruct (IH Hin). split; [right; assumption | assumption].
Qed.

Lemma map_fst_combine {A B : Type} (xs : list A) (ys : list B) :
  List.length xs = List.length ys -> map fst (combine xs ys) = xs.
Proof.
  revert ys. induction xs as [|x xs IH]; intros [|y ys] H; try discriminate; [reflexivity|].
  cbn. f_equal. apply IH. now inversion H.
Qed.

(** The state after [evaluateParticles], taken apart. *)
Lemma evaluateParticles_inv (w w' : World) (u : unit) :
  evaluateParticles w = Ok (u, w') ->
  exists fitnesses,
    Forall2 (fun p f => calculateFitness (position p) (context w) = Ok f)
            (this_particles (this w)) fitnesses
    /\ let done := Spec.fold_best (combine (this_particles (this w)) fitnesses)
                     (globalBestPosition (this w), globalBestFitness (this w)) in
       w' = {| context := context w;
               this := {| config := config (this w);
                          this_particles := fst done;
                          quantumStates := quantumStates (this w);
                          globalBestPosition := fst (snd done);
                          globalBestFitness := snd (snd done) |};
               draws := draws w |}.
Proof.
  rewrite evaluateParticles_run. unfold Spec.evaluate_snapshot.
  destruct (map_from _ 0 (this_particles (this w))) as [fs| |] eqn:E;
    cbn [obind]; try discriminate.
  intros H. exists fs. split; [eapply map_from_fitness; exact E|].
  inversion H. reflexivity.
Qed.

Lemma evaluateParticles_ranked (w w' : World) (u : unit) :
  evaluateParticles w = Ok (u, w') ->
  Forall2 (ranked (context w)) (this_particles (this w)) (this_particles (this w'))
  /\ quantumStates (this w') = quantumStates (this w)
  /\ draws w' = draws w.
Proof.
  intros H. apply evaluateParticles_inv in H as (fs & Hfs & ->). cbn.
  repeat split. apply fold_best_ranked. exact Hfs.
Qed.

(** X21.  [evaluateParticles] does not move a particle: position and
    velocity stay, and the personal best becomes the position and its
    fitness when that fitness is greater than the personal best fitness,
    and stays otherwise.  The quantum states are untouched and no random
    number is drawn. *)
Theorem evaluateParticles_ranks_particles :
  forall (w w' : World) (u : unit),
    evaluateParticles w = Ok (u, w') ->
    Forall2 (ranked (context w)) (this_particles (this w)) (this_particles (this w'))
    /\ quantumStates (this w') = quantumStates (this w)
    /\ draws w' = draws w.
Proof. exact evaluateParticles_ranked. Qed.

Lemma evaluateParticles_ranks_particles_witness :
  exists w',
    evaluateParticles Scenario.warm = Ok (tt, w')
    /\ Forall2 (ranked Scenario.two_assets)
               (this_particles (this Scenario.warm)) (this_particles (this w'))
    /\ quantumStates (this w') = quantumStates (this Scenario.warm)
    /\ draws w' = 0%nat.
Proof.
  eexists. split; [vm_compute; reflexivity|].
  apply (evaluateParticles_ranks_particles Scenario.warm _ tt).
  vm_compute. reflexivity.
Defined.

(** X22.  After [evaluateParticles] the global best is either what it
    was, or the position of one of the particles together with the fitness
    of that position, which is then greater than the fitness recorded
    before and than that particle's personal best. *)
Theorem evaluateParticles_global_best_source :
  forall (w w' : World) (u : unit),
    evaluateParticles w = Ok (u, w') ->
    (globalBestPosition (this w') = globalBestPosition (this w)
     /\ globalBestFitness (this w') = globalBestFitness (this w))
    \/ exists p,
         In p (this_particles (this w))
         /\ globalBestPosition (this w') = position p
         /\ calculateFitness (position p) (context w) = Ok (globalBestFitness (this w'))
         /\ gt (globalBestFitness (this w')) (bestFitness p) = true
         /\ gt (globalBestFitness (this w')) (globalBestFitness (this w)) = true.
Proof.
  intros w w' u H. apply evaluateParticles_inv in H as (fs & Hfs & ->). cbn.
  destruct (fold_best_from (combine (this_particles (this w)) fs)
              (globalBestPosition (this w), globalBestFitness (this w)))
    as [-> | (p & f & Hin & -> & H1 & H2)].
  - left. split; reflexivity.
  - right. exists p. cbn [fst snd] in *.
    destruct (In_combine_Forall2 _ _ _ _ _ Hfs Hin) as [Hp Hf].
    unfold gt. repeat split; assumption.
Qed.

Lemma evaluateParticles_global_best_source_witness :
  exists w',
    evaluateParticles Scenario.warm = Ok (tt, w')
    /\ globalBestPosition (this w') = [0.25; 0.75]
    /\ ((globalBestPosition (this w') = globalBestPosition (this Scenario.warm)
         /\ globalBestFitness (this w') = globalBestFitness (this Scenario.warm))
        \/ exists p,
             In p (this_particles (this Scenario.warm))
             /\ globalBestPosition (this w') = position p
             /\ calculateFitness (position p) (context Scenario.warm)
                = Ok (globalBestFitness (this w'))
             /\ gt (globalBestFitness (this w')) (bestFitness p) = true
             /\ gt (globalBestFitness (this w')) (globalBestFitness (this Scenario.warm))
                = true).
Proof.
  eexists. split; [vm_compute; reflexivity|]. split; [reflexivity|].
  apply (evaluateParticles_global_best_source Scenario.warm _ tt).
  vm_compute. reflexivity.
Defined.

Lemma evaluateParticles_dominated (w w' : World) (u : unit) :
  evaluateParticles w = Ok (u, w') -> dominated (this w) -> dominated (this w').
Proof.
  intros H Hd. apply evaluateParticles_inv in H as (fs & Hfs & ->).
  unfold dominated in *. cbn.
  apply (fold_best_dominates (combine (this_particles (this w)) fs)
           (globalBestPosition (this w), globalBestFitness (this w))).
  apply (Forall_combine_fst
           (fun p => (bestFitness p <=? globalBestFitness (this w)) = true)).
  exact Hd.
Qed.

Variable host : Host.

(** X23.  An iteration keeps the global best fitness at least as great as
    every personal best fitness: if it is so before the iteration, it is so
    after it. *)
Theorem global_best_dominates_personal_bests :
  forall (w w' : World) (u : unit),
    iterate host w = Ok (u, w') -> dominated (this w) -> dominated (this w').
Proof.
  intros w w' u. unfold iterate. intros H Hd.
  open_bind H u1 w1 H1. open_bind H u2 w2 H2.
  apply evolveQuantumStates_frame in H1 as ((_ & _ & _ & Hg1) & Hp1 & _).
  apply updateParticles_same_best in H2 as ((_ & _ & _ & Hg2) & _ & Hb & _).
  apply (evaluateParticles_dominated _ _ _ H).
  unfold dominated in *. rewrite Hg2, Hg1. rewrite Hp1 in Hb.
  clear - Hb Hd. induction Hb as [|p p' ps ps' Hp _ IH]; [constructor|].
  inversion Hd; subst. constructor; [|apply IH; assumption].
  destruct Hp as (_ & -> & _). assumption.
Qed.

End Ranking.

Lemma global_best_dominates_personal_bests_witness :
  exists w',
    iterate Scenario.host Scenario.warm = Ok (tt, w')
    /\ dominated (this Scenario.warm)
    /\ dominated (this w').
Proof.
  eexists. split; [vm_compute; reflexivity|].
  assert (H : dominated (this Scenario.warm)) by (repeat constructor).
  split; [exact H|].
  apply (global_best_dominates_personal_bests Scenario.host Scenario.warm _ tt);
    [vm_compute; reflexivity | exact H].
Defined.

(** * The loop and the whole call, on every input *)

Section Search.

Local Open Scope float_scope.

Variable host : Host.

Lemma search_loop_bound (fuel : nat) :
  forall (n : nat) (iteration : number) (converged : bool) (previous : number)
         (w w' : World) (k : number),
    passes_left n iteration (iterations (config (this w))) = true ->
    search_loop host fuel iteration converged previous w = Ok (k, w') ->
    exists j, (j <= n)%nat /\ k = counted j iteration.
Proof.
  induction fuel as [|fuel IH]; intros n iteration converged previous w w' k Hp H;
    cbn [search_loop] in H; open_bind H o w0 H0; inversion H0; subst o w0; clear H0;
    destruct (lt iteration (iterations (config (this w)))) eqn:Hlt; cbn [andb] in H;
    try (destruct (negb converged)); try discriminate;
    try (inversion H; subst; exists 0%nat; split; [lia | reflexivity]).
  open_bind H u w1 H1. open_bind H o w2 H2. inversion H2; subst o w2; clear H2.
  destruct n as [|n]; cbn [passes_left] in Hp; rewrite Hlt in Hp; [discriminate|].
  cbn [andb] in Hp.
  apply iterate_frame in H1 as (_ & Hcfg & _).
  apply (IH n) in H; [|rewrite Hcfg; exact Hp].
  destruct H as (j & Hj & ->). exists (S j). split; [lia | reflexivity].
Qed.

(** X24.  Where the counter reaches the cap, the search ends.  When the
    counter 0, 1, 2, ... of [iteration++] stays below the cap [n] times and
    then no longer, [optimize], up to the end of its loop, returns or throws
    within [n] passes, and the counter it ends with is what [j] increments
    make of 0, for a [j] of at most [n].  Nothing is said of a cap the
    counter never reaches. *)
Theorem search_within_iteration_cap :
  forall (n fuel : nat) (w : World),
    passes (iterations (config (this w))) n = true ->
    (n <= fuel)%nat ->
    optimize_search host fuel w <> NoFuel
    /\ forall (k : number) (w' : World),
         optimize_search host fuel w = Ok (k, w') ->
         exists j, (j <= n)%nat /\ k = counted j 0.
Proof.
  intros n fuel w Hn Hfuel. split.
  - unfold optimize_search. rewrite (bind_run _ _ w w (context w) eq_refl).
    unfold bind.
    destruct (initializeQuantumStates host (List.length (assets (context w))) w)
      as [[u1 w1]|e|] eqn:H1;
      [|discriminate | destruct (initializeQuantumStates_runs host _ w H1)].
    destruct (initializeParticles host w1) as [[u2 w2]|e|] eqn:H2;
      [|discriminate | destruct (initializeParticles_runs host w1 H2)].
    apply initializeQuantumStates_frame in H1 as [_ Hg1].
    apply initializeParticles_frame in H2 as [_ Hg2].
    apply (search_loop_runs host n); [|exact Hfuel].
    rewrite Hg2, Hg1. exact Hn.
  - unfold optimize_search. intros k w' H.
    open_bind H ctx w0 H0. inversion H0; subst ctx w0; clear H0.
    open_bind H u1 w2 H2. open_bind H u2 w3 H3.
    apply initializeQuantumStates_frame in H2 as [_ Hg2].
    apply initializeParticles_frame in H3 as [_ Hg3].
    apply (search_loop_bound _ n) in H; [exact H|].
    rewrite Hg3, Hg2. exact Hn.
Qed.

(** X25.  Stagnation stops the search: when a pass of the loop leaves the
    global best fitness at the finite value it had after the previous pass,
    and the convergence threshold is positive, the loop ends with that
    pass. *)
Theorem search_stops_on_stagnation :
  forall (fuel : nat) (iteration previous : number) (w w1 : World) (u : unit),
    lt iteration (iterations (config (this w))) = true ->
    iterate host w = Ok (u, w1) ->
    globalBestFitness (this w1) = previous ->
    is_finite previous = true ->
    (0 <? convergenceThreshold (config (this w))) = true ->
    search_loop host (S fuel) iteration false previous w = Ok (iteration + 1, w1).
Proof.
  intros fuel iteration previous w w1 u Hlt H1 Hsame Hfin Hpos. cbn [search_loop].
  rewrite (bind_run _ _ w w (this w) eq_refl), Hlt.
  cbn [andb negb].
  rewrite (bind_run _ _ _ _ _ H1), (bind_run _ _ w1 w1 (this w1) eq_refl).
  pose proof (iterate_frame _ _ _ _ H1) as (_ & Hcfg & _).
  rewrite Hsame, (Binary64.sub_diag _ Hfin), Hcfg. unfold lt at 1.
  change (Math_abs 0) with 0. rewrite Hpos.
  destruct fuel; cbn [search_loop]; rewrite (bind_run _ _ w1 w1 (this w1) eq_refl);
    rewrite andb_false_r; reflexivity.
Qed.

Lemma search_loop_best (fuel : nat) :
  forall (iteration : number) (converged : bool) (previous : number) (w w' : World)
         (k : number),
    search_loop host fuel iteration converged previous w = Ok (k, w') ->
    is_nan (globalBestFitness (this w)) = false ->
    (globalBestFitness (this w) <=? globalBestFitness (this w')) = true.
Proof.
  induction fuel as [|fuel IH]; intros iteration converged previous w w' k H Hn;
    cbn [search_loop] in H; open_bind H o w0 H0; inversion H0; subst o w0; clear H0;
    destruct (lt iteration (iterations (config (this w))) && negb converged)%bool;
    try discriminate; try (inversion H; subst; apply Ieee.leb_refl; exact Hn).
  open_bind H u w1 H1. open_bind H o w2 H2. inversion H2; subst o w2; clear H2.
  apply iterate_frame in H1 as (_ & _ & H1). destruct (H1 Hn) as [Hle Hn1].
  eapply Ieee.leb_trans; [exact Hle|]. eapply IH; eassumption.
Qed.

Lemma initializeQuantumStates_keeps_best (dimension : nat) (w w' : World) (u : unit) :
  initializeQuantumStates host dimension w = Ok (u, w') -> keeps_best w w'.
Proof.
  unfold initializeQuantumStates. intros H.
  open_bind H o w0 H0. inversion H0; subst o w0; clear H0.
  open_bind H k w1 H1. apply lift_inv in H1 as [_ ->].
  open_bind H states w2 H2.
  eapply timesM_only_draws in H2 as [[Hc Ht] _].
  2:{ intros w0 row w3 E. eapply timesM_only_draws in E as [E _]; [exact E|].
      intros w4 state w5 E'. open_bind E' re w6 E1. open_bind E' im w7 E2.
      open_bind E' r w8 E3. inversion E'; subst.
      apply Math_random_only_draws in E1, E2, E3.
      eapply only_draws_trans; [|exact E3]. eapply only_draws_trans; eassumption. }
  unfold set_quantumStates in H. open_bind H o w3 H3. inversion H3; subst o w3; clear H3.
  inversion H; subst w'. unfold keeps_best. cbn. rewrite Hc, Ht. repeat split.
Qed.

Lemma initializeParticles_keeps_best (w w' : World) (u : unit) :
  initializeParticles host w = Ok (u, w') -> keeps_best w w'.
Proof.
  unfold initializeParticles. intros H.
  open_bind H ctx w0 H0. inversion H0; subst ctx w0; clear H0.
  open_bind H o w0 H0. inversion H0; subst o w0; clear H0.
  open_bind H k w1 H1. apply lift_inv in H1 as [_ ->].
  open_bind H ps w2 H2.
  eapply timesM_only_draws in H2 as [[Hc Ht] _].
  2:{ intros w0 p w3 E. open_bind E position w4 E1. inversion E; subst.
      unfold generateRandomAllocation in E1. open_bind E1 allocation w5 E2.
      inversion E1; subst.
      eapply timesM_only_draws in E2 as [E2 _]; [exact E2|].
      intros ? ? ?. apply Math_random_only_draws. }
  unfold set_particles in H. open_bind H o w3 H3. inversion H3; subst o w3; clear H3.
  inversion H; subst w'. unfold keeps_best. cbn. rewrite Hc, Ht. repeat split.
Qed.

Lemma constructOptimizationResult_reports (w w' : World) (r : OptimizationResult) :
  constructOptimizationResult w = Ok (r, w') ->
  w' = w
  /\ allocation r = globalBestPosition (this w)
  /\ metrics_sharpeRatio (metrics r) = globalBestFitness (this w)
  /\ confidence r = calculateConfidence (quantumStates (this w))
  /\ calculateExpectedReturn (globalBestPosition (this w))
       (returns (historicalData (context w))) = Ok (expectedReturn r)
  /\ calculatePortfolioVolatility (globalBestPosition (this w))
       (volatility (historicalData (context w)))
       (correlation (historicalData (context w))) = Ok (metrics_volatility (metrics r))
  /\ calculateMaxDrawdown (globalBestPosition (this w)) (context w)
     = Ok (metrics_maxDrawdown (metrics r)).
Proof.
  unfold constructOptimizationResult. intros H.
  open_bind H ctx w0 H0. inversion H0; subst ctx w0; clear H0.
  open_bind H o w0 H0. inversion H0; subst o w0; clear H0.
  open_bind H er w1 H1. apply lift_inv in H1 as [H1 ->].
  open_bind H vol w2 H2. apply lift_inv in H2 as [H2 ->].
  open_bind H dd w3 H3. apply lift_inv in H3 as [H3 ->].
  inversion H; subst. cbn. repeat split; assumption.
Qed.

(** X26.  [optimize] does not reset the global best: called on an
    optimizer whose global best fitness is a number, it reports a
    [sharpeRatio] that is at least that fitness, and what it reports as
    [allocation] and [sharpeRatio] is the global best it leaves in the
    optimizer. *)
Theorem optimize_keeps_earlier_best :
  forall (fuel : nat) (w w' : World) (r : OptimizationResult),
    optimize host fuel w = Ok (r, w') ->
    is_nan (globalBestFitness (this w)) = false ->
    (globalBestFitness (this w) <=? metrics_sharpeRatio (metrics r)) = true
    /\ metrics_sharpeRatio (metrics r) = globalBestFitness (this w')
    /\ allocation r = globalBestPosition (this w').
Proof.
  intros fuel w w' r. unfold optimize, optimize_search. intros H Hn.
  open_bind H k w1 H1.
  apply constructOptimizationResult_reports in H as (-> & Ha & Hs & _).
  open_bind H1 ctx w0 H0. inversion H0; subst ctx w0; clear H0.
  open_bind H1 u1 w2 H2. open_bind H1 u2 w3 H3.
  apply initializeQuantumStates_keeps_best in H2 as (_ & _ & _ & Hf2).
  apply initializeParticles_keeps_best in H3 as (_ & _ & _ & Hf3).
  apply search_loop_best in H1; [|rewrite Hf3, Hf2; exact Hn].
  rewrite Hf3, Hf2 in H1. rewrite Hs. repeat split; assumption.
Qed.

Lemma evaluateParticles_missing (w : World) (p : ParticleState) (ps : list ParticleState) :
  this_particles (this w) = p :: ps ->
  rows_for (List.length (position p)) (context w) = false ->
  evaluateParticles w = Throw TypeError.
Proof.
  intros Hps Hrows. rewrite evaluateParticles_run. unfold Spec.evaluate_snapshot.
  rewrite Hps. rewrite (map_from_thrown _ TypeError); [reflexivity|].
  rewrite calculateFitness_exact, Hrows. reflexivity.
Qed.

Lemma evolveQuantumStates_bestless (c : OptimizationContext) (w w' : World) (u : unit) :
  bestless c w -> evolveQuantumStates host w = Ok (u, w') -> bestless c w'.
Proof.
  intros Hw H1.
  pose proof (evolveQuantumStates_frame _ _ _ _ H1) as ((Hc1 & Hcfg1 & Hg1 & Hf1) & Hp1 & Hq1).
  destruct Hw as (Hc & Hg & Hf & Hps & Hlen & Hrows).
  unfold bestless. rewrite Hc1, Hg1, Hf1, Hp1. repeat split; try assumption.
  - rewrite <- (Forall2_length Hq1). exact Hlen.
  - clear - Hq1 Hrows. induction Hq1; inversion Hrows; subst; constructor; auto.
    congruence.
Qed.

Lemma iterate_missing (c : OptimizationContext) (w : World) :
  bestless c w ->
  this_particles (this w) <> [] ->
  rows_for (List.length (assets c)) c = false ->
  iterate host w = Throw TypeError.
Proof.
  intros Hw Hne Hrows. unfold iterate.
  destruct (evolveQuantumStates_total host w) as (w1 & H1).
  pose proof (evolveQuantumStates_bestless c _ _ _ Hw H1) as Hw1.
  pose proof (evolveQuantumStates_frame _ _ _ _ H1) as (_ & Hp1 & _).
  destruct (updateParticles_nan host c w1 Hw1) as (w2 & H2 & Hw2 & _ & Hnan).
  rewrite (bind_run _ _ _ _ _ H1), (bind_run _ _ _ _ _ H2).
  pose proof (updateParticles_same_best _ _ _ _ H2) as (_ & _ & Hb & _).
  rewrite Hp1 in Hb.
  destruct (this_particles (this w2)) as [|p ps] eqn:Hps.
  - inversion Hb as [E1 E2|]. congruence.
  - apply (evaluateParticles_missing w2 p ps Hps).
    inversion Hnan as [|? ? Hp _]; subst. rewrite Hp, repeat_length.
    destruct Hw2 as (-> & _). exact Hrows.
Qed.

Lemma fresh_bestless (arg : ConfigArg) (c : OptimizationContext) (seed count : nat) :
  array_length (particles (config (constructor arg))) = Some count ->
  exists w1 w2,
    initializeQuantumStates host (List.length (assets c))
      {| context := c; this := constructor arg; draws := seed |} = Ok (tt, w1)
    /\ initializeParticles host w1 = Ok (tt, w2)
    /\ bestless c w2
    /\ config (this w2) = config (constructor arg)
    /\ List.length (this_particles (this w2)) = count.
Proof.
  intros Hp.
  set (w := {| context := c; this := constructor arg; draws := seed |}).
  destruct (initializeQuantumStates_total host c w count)
    as (w1 & H1 & (Hc1 & Hcfg1 & Hg1 & Hf1) & Hl1 & Hr1); [exact Hp|].
  destruct (initializeParticles_total host c w1 count)
    as (w2 & H2 & (Hc2 & Hcfg2 & Hg2 & Hf2) & Hq2 & Hl2 & Hps).
  { now rewrite Hc1. }
  { rewrite Hcfg1. exact Hp. }
  exists w1, w2. split; [exact H1|]. split; [exact H2|].
  split; [|split; [rewrite Hcfg2, Hcfg1; reflexivity | exact Hl2]].
  unfold bestless. rewrite Hc2, Hc1, Hg2, Hg1, Hf2, Hf1, Hq2, Hl2, Hl1.
  repeat split; assumption.
Qed.

(** X27.  History that is not aligned with the assets makes [optimize]
    throw: on a fresh optimizer with a particle count that is an integer in
    [1, 2^32) and an iteration cap above 0, when one of the assets has no
    return series, or an empty one, or no correlation row, the call throws
    a [TypeError] (in the first evaluation). *)
Theorem run_throws_on_missing_rows :
  forall (fuel : nat) (arg : ConfigArg) (c : OptimizationContext) (seed : nat),
    valid_config (config (constructor arg)) = true ->
    lt 0 (iterations (config (constructor arg))) = true ->
    (0 < fuel)%nat ->
    rows_for (List.length (assets c)) c = false ->
    run host fuel arg c seed = Throw TypeError.
Proof.
  intros fuel arg c seed Hp Hi Hfuel Hrows. unfold run, optimize, optimize_search.
  apply valid_config_particles in Hp as (count & Hp & Hcount).
  destruct (fresh_bestless arg c seed count Hp) as (w1 & w2 & H1 & H2 & Hw2 & Hcfg & Hlen).
  set (w := {| context := c; this := constructor arg; draws := seed |}) in *.
  unfold bind at 1.
  rewrite (bind_run _ _ w w (context w) eq_refl). cbn [context w].
  rewrite (bind_run _ _ _ _ _ H1), (bind_run _ _ _ _ _ H2).
  assert (Hne : this_particles (this w2) <> []).
  { intros E. rewrite E in Hlen. cbn [List.length] in Hlen. lia. }
  destruct fuel as [|fuel]; [lia|].
  cbn [search_loop]. rewrite (bind_run _ _ w2 w2 (this w2) eq_refl).
  rewrite Hcfg, Hi. cbn [andb negb]. unfold bind at 1.
  rewrite (iterate_missing c w2 Hw2 Hne Hrows). reflexivity.
Qed.

Lemma fitness_of_nans (n : nat) (c : OptimizationContext) :
  (neg_infinity <? Spec.fitness (repeat nan n) c) = false.
Proof.
  destruct n as [|n]; [|rewrite fitness_nan; reflexivity].
  unfold Spec.fitness, Spec.expectedReturn, Spec.portfolioVolatility.
  cbn [repeat List.length seq map flat_map Spec.total fold_left].
  change (Spec.sharpeRatio 0 (Math_sqrt 0)) with neg_infinity.
  apply Binary64.neg_infinity_sub.
Qed.

Lemma evaluateParticles_unimproved (c : OptimizationContext) (w w' : World) (u : unit) :
  context w = c ->
  Forall (fun p => position p = repeat nan (List.length (assets c))
                   /\ bestFitness p = neg_infinity) (this_particles (this w)) ->
  evaluateParticles w = Ok (u, w') ->
  w' = w.
Proof.
  intros Hc Hps H. apply evaluateParticles_inv in H as (fs & Hfs & ->).
  rewrite fold_best_unimproved.
  - cbn [fst snd]. rewrite map_fst_combine by (eapply Forall2_length; exact Hfs).
    destruct w as [c0 [cfg ps qs gp gf] d]. reflexivity.
  - clear - Hc Hps Hfs. induction Hfs as [|p f ps fs Hf _ IH]; [constructor|].
    inversion Hps as [|? ? [Hpos Hbest] Hrest]; subst.
    cbn [combine]. constructor; [|apply IH; exact Hrest].
    cbn [fst snd]. rewrite Hbest.
    rewrite calculateFitness_exact in Hf.
    destruct (rows_for _ _); [|discriminate].
    inversion Hf. rewrite Hpos. apply fitness_of_nans.
Qed.

Lemma iterate_stays_bestless (c : OptimizationContext) (w w' : World) (u : unit) :
  bestless c w -> iterate host w = Ok (u, w') ->
  bestless c w'
  /\ List.length (this_particles (this w')) = List.length (this_particles (this w)).
Proof.
  intros Hw H. unfold iterate in H.
  open_bind H u1 w1 H1. open_bind H u2 w2 H2.
  pose proof (evolveQuantumStates_bestless c _ _ _ Hw H1) as Hw1.
  pose proof (evolveQuantumStates_frame _ _ _ _ H1) as (_ & Hp1 & _).
  pose proof (updateParticles_same_best _ _ _ _ H2) as (_ & _ & Hb & _).
  destruct (updateParticles_nan host c w1 Hw1) as (w2' & H2' & Hw2 & _ & Hnan).
  rewrite H2 in H2'. inversion H2'; subst w2'.
  apply evaluateParticles_unimproved with (c := c) in H.
  - subst w'. split; [exact Hw2|].
    rewrite <- (Forall2_length Hb), Hp1. reflexivity.
  - apply Hw2.
  - destruct Hw2 as (_ & _ & _ & Hun & _).
    clear - Hnan Hun. induction Hnan; inversion Hun; subst; constructor; auto.
    split; [assumption|]. match goal with H : unranked _ _ |- _ => apply H end.
Qed.

Lemma search_loop_stays_bestless (c : OptimizationContext) (fuel : nat) :
  forall (iteration : number) (converged : bool) (previous : number) (w w' : World)
         (k : number),
    bestless c w ->
    search_loop host fuel iteration converged previous w = Ok (k, w') ->
    bestless c w'
    /\ List.length (this_particles (this w')) = List.length (this_particles (this w)).
Proof.
  induction fuel as [|fuel IH]; intros iteration converged previous w w' k Hw H;
    cbn [search_loop] in H; open_bind H o w0 H0; inversion H0; subst o w0; clear H0;
    destruct (lt iteration (iterations (config (this w))) && negb converged)%bool;
    try discriminate; try (inversion H; subst; split; [exact Hw | reflexivity]).
  open_bind H u w1 H1. open_bind H o w2 H2. inversion H2; subst o w2; clear H2.
  destruct (iterate_stays_bestless c _ _ _ Hw H1) as [Hw1 Hl1].
  destruct (IH _ _ _ _ _ _ Hw1 H) as [Hw' Hl']. split; [exact Hw' | congruence].
Qed.

Lemma constructor_particles_truthy (arg : ConfigArg) :
  truthy (particles (config (constructor arg))) = true.
Proof.
  unfold constructor, or_default. cbn [config particles].
  destruct (arg_particles arg) as [v|]; [|reflexivity].
  destruct (truthy v) eqn:E; [exact E | reflexivity].
Qed.

(** A call on a fresh optimizer that returns leaves no best recorded, and
    as many rows of quantum states as the particle count, which is
    positive. *)
Lemma run_ends_bestless (fuel : nat) (arg : ConfigArg) (c : OptimizationContext)
  (seed : nat) (r : OptimizationResult) (w' : World) :
  run host fuel arg c seed = Ok (r, w') ->
  bestless c w'
  /\ (0 < List.length (quantumStates (this w')))%nat
  /\ constructOptimizationResult w' = Ok (r, w').
Proof.
  unfold run, optimize. intros H. open_bind H k w1 H1.
  pose proof (constructOptimizationResult_reports _ _ _ H) as (E & _). subst w'.
  set (w := {| context := c; this := constructor arg; draws := seed |}) in *.
  destruct (array_length (particles (config (constructor arg)))) as [count|] eqn:Hp.
  2:{ exfalso. unfold optimize_search in H1.
      rewrite (bind_run _ _ w w (context w) eq_refl) in H1. unfold bind at 1 in H1.
      rewrite initializeQuantumStates_invalid in H1 by exact Hp. discriminate. }
  pose proof (Binary64.array_length_truthy _ _ (constructor_particles_truthy arg) Hp)
    as Hcount.
  destruct (fresh_bestless arg c seed count Hp) as (w2 & w3 & H2 & H3 & Hw3 & Hcfg & Hlen).
  unfold optimize_search in H1.
  rewrite (bind_run _ _ w w (context w) eq_refl) in H1. cbn [context w] in H1.
  fold w in H2.
  rewrite (bind_run _ _ _ _ _ H2), (bind_run _ _ _ _ _ H3) in H1.
  destruct (search_loop_stays_bestless c _ _ _ _ _ _ _ Hw3 H1) as [Hw1 Hl1].
  split; [exact Hw1|]. split; [|exact H].
  destruct Hw1 as (_ & _ & _ & _ & -> & _). rewrite Hl1, Hlen. exact Hcount.
Qed.

(** X28.  A fresh optimizer never finds an allocation.  Whatever the
    configuration, the context, the host and the random source, when
    [new QuantumOptimizer(arg).optimize(context)] returns, the allocation
    is empty, the expected return, the volatility and the maximum drawdown
    are 0 and the Sharpe ratio is -Infinity: the positions are NaN from the
    first update on, and a NaN fitness is never a best. *)
Theorem run_never_allocates :
  forall (fuel : nat) (arg : ConfigArg) (c : OptimizationContext) (seed : nat)
         (r : OptimizationResult) (w' : World),
    run host fuel arg c seed = Ok (r, w') ->
    r = {| allocation := [];
           expectedReturn := 0;
           confidence := confidence r;
           metrics := {| metrics_sharpeRatio := neg_infinity;
                         metrics_volatility := 0;
                         metrics_maxDrawdown := 0 |} |}.
Proof.
  intros fuel arg c seed r w' H.
  apply run_ends_bestless in H as ((_ & Hg & Hf & _) & _ & H).
  apply constructOptimizationResult_reports in H as (_ & Ha & Hs & _ & He & Hv & Hd).
  rewrite Hg in *. rewrite Hf in Hs.
  apply calculateMaxDrawdown_nil in Hd.
  destruct r as [a e conf [s v d]]. cbn in *.
  inversion He. inversion Hv. subst. reflexivity.
Qed.

(** X29.  With an empty list of assets, a call on a fresh optimizer that
    returns reports a confidence that is NaN: every particle has an empty
    row of quantum states, whose coherence is 0/0. *)
Theorem run_without_assets_confidence_nan :
  forall (fuel : nat) (arg : ConfigArg) (c : OptimizationContext) (seed : nat)
         (r : OptimizationResult) (w' : World),
    assets c = [] ->
    run host fuel arg c seed = Ok (r, w') ->
    confidence r = nan.
Proof.
  intros fuel arg c seed r w' Hassets H.
  apply run_ends_bestless in H as ((_ & _ & _ & _ & _ & Hrows) & Hcount & H).
  apply constructOptimizationResult_reports in H as (_ & _ & _ & -> & _).
  apply calculateConfidence_undefined. right.
  rewrite Hassets in Hrows. cbn [List.length] in Hrows.
  destruct (quantumStates (this w')) as [|row rows]; [cbn [List.length] in Hcount; lia|].
  inversion Hrows as [|? ? Hrow _]; subst.
  left. destruct row; [reflexivity | discriminate].
Qed.

(** X30.  The counter stalls at 2^53, where [iteration++] no longer
    advances: from there, under a cap above 2^53 (Infinity, say), a search
    on a valid context that has recorded no best does not end, however
    many passes it is allowed. *)
Theorem search_stalls_at_2_53 :
  forall (c : OptimizationContext) (fuel : nat) (w : World),
    valid_context c = true ->
    bestless c w ->
    lt 9007199254740992 (iterations (config (this w))) = true ->
    search_loop host fuel 9007199254740992 false neg_infinity w = NoFuel.
Proof.
  intros c fuel w Hc. revert w.
  induction fuel as [|fuel IH]; intros w Hw Hlt; cbn [search_loop];
    rewrite (bind_run _ _ w w (this w) eq_refl), Hlt; cbn [andb negb];
    [reflexivity|].
  destruct (iterate_bestless host c Hc w Hw) as (w1 & H1 & Hw1 & Hcfg).
  rewrite (bind_run _ _ _ _ _ H1), (bind_run _ _ w1 w1 (this w1) eq_refl).
  assert (Hf : globalBestFitness (this w1) = neg_infinity) by apply Hw1.
  rewrite Hf. unfold lt at 1.
  change (Math_abs (neg_infinity - neg_infinity)) with nan.
  rewrite Ieee.ltb_nan_l.
  change (9007199254740992 + 1) with 9007199254740992.
  apply IH; [exact Hw1 | rewrite Hcfg; exact Hlt].
Qed.

End Search.

Lemma search_within_iteration_cap_witness :
  counted 3 0%float = 3%float
  /\ passes 50%float 50 = true
  /\ passes 2.5%float 3 = true
  /\ passes (-3)%float 0 = true
  /\ optimize_search Scenario.host 3 Scenario.warm <> NoFuel
  /\ forall (k : number) (w' : World),
       optimize_search Scenario.host 3 Scenario.warm = Ok (k, w') ->
       exists j, (j <= 3)%nat /\ k = counted j 0%float.
Proof.
  split; [reflexivity|]. split; [vm_compute; reflexivity|].
  split; [reflexivity|]. split; [reflexivity|].
  apply (search_within_iteration_cap Scenario.host 3 3 Scenario.warm);
    [reflexivity | lia].
Defined.

Lemma search_stops_on_stagnation_witness :
  exists w w1,
    iterate Scenario.host Scenario.warm = Ok (tt, w)
    /\ iterate Scenario.host w = Ok (tt, w1)
    /\ globalBestFitness (this w1) = globalBestFitness (this w)
    /\ search_loop Scenario.host 2 1%float false (globalBestFitness (this w)) w
       = Ok ((1 + 1)%float, w1).
Proof.
  eexists. eexists. split; [vm_compute; reflexivity|].
  split; [vm_compute; reflexivity|]. split; [reflexivity|].
  apply (search_stops_on_stagnation Scenario.host 1 1%float _ _ _ tt);
    vm_compute; reflexivity.
Defined.

Lemma optimize_keeps_earlier_best_witness :
  exists r w',
    optimize Scenario.host 3 Scenario.warm = Ok (r, w')
    /\ globalBestFitness (this Scenario.warm) = (-1)%float
    /\ metrics_sharpeRatio (metrics r) = 0%float
    /\ (globalBestFitness (this Scenario.warm) <=? metrics_sharpeRatio (metrics r))%float
       = true
    /\ metrics_sharpeRatio (metrics r) = globalBestFitness (this w')
    /\ allocation r = globalBestPosition (this w').
Proof.
  eexists. eexists. split; [vm_compute; reflexivity|].
  split; [reflexivity|]. split; [reflexivity|].
  apply (optimize_keeps_earlier_best Scenario.host 3 Scenario.warm);
    vm_compute; reflexivity.
Defined.

Lemma run_throws_on_missing_rows_witness :
  run Scenario.host 50 Scenario.arg Scenario.unrecorded 0 = Throw TypeError.
Proof.
  apply (run_throws_on_missing_rows Scenario.host 50 Scenario.arg Scenario.unrecorded 0);
    [reflexivity | reflexivity | lia | reflexivity].
Defined.

Lemma search_stalls_at_2_53_witness :
  (9007199254740992 + 1 = 9007199254740992)%float
  /\ iterations (config (this Scenario.endless)) = infinity
  /\ search_loop Scenario.host 5 9007199254740992%float false neg_infinity Scenario.endless
     = NoFuel.
Proof.
  split; [reflexivity|]. split; [reflexivity|].
  apply (search_stalls_at_2_53 Scenario.host Scenario.two_assets 5 Scenario.endless).
  - reflexivity.
  - unfold bestless, unranked. cbn. repeat split; repeat constructor.
  - reflexivity.
Defined.

Lemma run_never_allocates_witness :
  exists r w',
    run Scenario.host 50 Scenario.arg Scenario.two_assets 0 = Ok (r, w')
    /\ r = {| allocation := [];
              expectedReturn := 0;
              confidence := confidence r;
              metrics := {| metrics_sharpeRatio := neg_infinity;
                            metrics_volatility := 0;
                            metrics_maxDrawdown := 0 |} |}.
Proof.
  eexists. eexists. split; [vm_compute; reflexivity|].
  eapply (run_never_allocates Scenario.host 50 Scenario.arg Scenario.two_assets 0).
  vm_compute. reflexivity.
Defined.

Lemma run_without_assets_confidence_nan_witness :
  exists r w',
    run Scenario.host 50 Scenario.arg Scenario.no_assets 0 = Ok (r, w')
    /\ allocation r = []
    /\ confidence r = nan.
Proof.
  eexists. eexists. split; [vm_compute; reflexivity|]. split; [reflexivity|].
  eapply (run_without_assets_confidence_nan
            Scenario.host 50 Scenario.arg Scenario.no_assets 0).
  - reflexivity.
  - vm_compute. reflexivity.
Defined.
